(** * cozy-desktop: the desktop shell, the test helpers and the sync scenarios

    A shallow embedding of gui/app/main.js (tray state, last-files list,
    error reporting), of the test support code (ContextDir, the scenario
    runner) and of the recorded expectations of the integration tests and
    scenarios. The sync core these tests drive (core/) is not among the
    sources; the parts of it that the properties need are modelled from the
    specification and marked as such. The properties follow the
    definitions.

    Strings are byte strings: a JavaScript string is embedded by its UTF-8
    encoding, which agrees with the UTF-16 original on every operation used
    here as long as the text is ASCII. *)

From Stdlib Require Import ZArith String Ascii List Bool Lia Permutation Sorted.
From stdpp Require Import base option list strings gmap sorting.

Import ListNotations.
Local Open Scope string_scope.
Local Open Scope Z_scope.

(** ** JavaScript strings *)

Module Js.

(** [s.startsWith(p)] *)
Fixpoint startsWith (p s : string) : bool :=
  match p, s with
  | EmptyString, _ => true
  | String a p', String b s' => if Ascii.eqb a b then startsWith p' s' else false
  | String _ _, EmptyString => false
  end.

(** [s.slice(n)] for [0 <= n] *)
Fixpoint slice (n : nat) (s : string) : string :=
  match n, s with
  | O, _ => s
  | S n', String _ s' => slice n' s'
  | S _, EmptyString => EmptyString
  end.

(** [s.indexOf(p)]: the first position where [p] occurs, [-1] when none *)
Fixpoint indexOf (p s : string) : Z :=
  if startsWith p s then 0
  else match s with
       | EmptyString => -1
       | String _ s' => let i := indexOf p s' in if i <? 0 then -1 else i + 1
       end.

(** [s.includes(p)], also a regular expression that is a plain word *)
Definition includes (p s : string) : bool := 0 <=? indexOf p s.

(** [s.endsWith(p)] *)
Definition endsWith (p s : string) : bool :=
  let lp := String.length p in
  let ls := String.length s in
  (lp <=? ls)%nat && String.eqb (slice (ls - lp) s) p.

(** [s.substr(i)] for an integer [i >= 0] *)
Definition substr (i : Z) (s : string) : string := slice (Z.to_nat i) s.

(** [s.split(c)] for a one-character separator: never the empty list *)
Fixpoint split (c : ascii) (s : string) : list string :=
  match s with
  | EmptyString => [EmptyString]
  | String a s' =>
      if Ascii.eqb a c then EmptyString :: split c s'
      else match split c s' with
           | x :: xs => String a x :: xs
           | [] => [String a EmptyString]
           end
  end.

(** [l.join(sep)] *)
Fixpoint join (sep : string) (l : list string) : string :=
  match l with
  | [] => EmptyString
  | [x] => x
  | x :: xs => x ++ sep ++ join sep xs
  end.

(** A value that is a string or [undefined] is an [option string]; this is
    its truthiness. *)
Definition truthy (v : option string) : bool :=
  match v with
  | Some s => negb (String.eqb s "")
  | None => false
  end.

End Js.

(** ** Node's [path.posix] *)

Module Posix.


(** One segment of [normalizeString]: an empty segment and [.] are
    dropped, [..] removes the segment before it, or is kept when there is
    none to remove and the path is relative; [res] is the result so far,
    last segment first. *)
Definition normalize_step (allowAboveRoot : bool) (res : list string)
    (segment : string) : list string :=
  if String.eqb segment "" || String.eqb segment "." then res
  else if String.eqb segment ".." then
    match res with
    | top :: rest =>
        if String.eqb top ".." then
          if allowAboveRoot then ".." :: res else res
        else rest
    | [] => if allowAboveRoot then [".."] else []
    end
  else segment :: res.

Definition normalizeString (path : string) (allowAboveRoot : bool) : string :=
  Js.join "/"
    (List.rev (fold_left (normalize_step allowAboveRoot) (Js.split "/" path) [])).

(** [path.charCodeAt(path.length - 1) === 47] *)
Fixpoint trailing_separator (path : string) : bool :=
  match path with
  | EmptyString => false
  | String c EmptyString => Ascii.eqb c "/"
  | String _ rest => trailing_separator rest
  end.

(** [path.posix.normalize(path)] *)
Definition normalize (path : string) : string :=
  if String.eqb path "" then "."
  else
    let isAbsolute := Js.startsWith "/" path in
    let trailingSeparator := trailing_separator path in
    let path := normalizeString path (negb isAbsolute) in
    if String.eqb path "" then
      if isAbsolute then "/" else if trailingSeparator then "./" else "."
    else
      let path := if trailingSeparator then path ++ "/" else path in
      if isAbsolute then "/" ++ path else path.

(** [path.posix.join(...args)] *)
Definition join (args : list string) : string :=
  match List.filter (fun arg => negb (String.eqb arg "")) args with
  | [] => "."
  | parts => normalize (Js.join "/" parts)
  end.

End Posix.


(** ** Node's [path.win32] *)

Module Win32.

Definition backslash : ascii := "092".

(** [isPathSeparator(code)]: a forward slash or a backslash. *)
Definition isPathSeparator (c : ascii) : bool :=
  Ascii.eqb c "/" || Ascii.eqb c backslash.

(** [isWindowsDeviceRoot(code)]: a letter. *)
Definition isWindowsDeviceRoot (c : ascii) : bool :=
  let n := nat_of_ascii c in
  ((65 <=? n) && (n <=? 90) || (97 <=? n) && (n <=? 122))%nat.

(** The segments of a path, cut at every separator; never the empty list. *)
Fixpoint segments (s : string) : list string :=
  match s with
  | EmptyString => [EmptyString]
  | String a s' =>
      if isPathSeparator a then EmptyString :: segments s'
      else match segments s' with
           | x :: xs => String a x :: xs
           | [] => [String a EmptyString]
           end
  end.

(** [normalizeString(path, allowAboveRoot, '\\', isPathSeparator)] *)
Definition normalizeString (path : string) (allowAboveRoot : bool) : string :=
  Js.join (String backslash "")
    (List.rev (fold_left (Posix.normalize_step allowAboveRoot) (segments path) [])).

(** The text up to the first separator, and the text from it on. *)
Fixpoint name_and_rest (s : string) : string * string :=
  match s with
  | EmptyString => (EmptyString, EmptyString)
  | String a s' =>
      if isPathSeparator a then (EmptyString, s)
      else let '(name, rest) := name_and_rest s' in (String a name, rest)
  end.

Fixpoint skip_separators (s : string) : string :=
  match s with
  | EmptyString => EmptyString
  | String a s' => if isPathSeparator a then skip_separators s' else s
  end.

(** [isPathSeparator(path.charCodeAt(len - 1))] *)
Fixpoint trailing_separator (path : string) : bool :=
  match path with
  | EmptyString => false
  | String c EmptyString => isPathSeparator c
  | String _ rest => trailing_separator rest
  end.

(** What [normalize] finds at the start of a path of two characters or
    more: a UNC root with nothing after it, for which it returns at once,
    or the device if there is one, whether the path is absolute, and the
    text after the root ([path.slice(rootEnd)]). *)
Inductive root_of :=
| UncRootOnly (result : string)
| Root (device : option string) (isAbsolute : bool) (afterRoot : string).

Definition unc (server share : string) : string :=
  String backslash (String backslash server) ++ String backslash share.

Definition parse_root (path : string) : root_of :=
  match path with
  | String c0 (String c1 rest) =>
      if isPathSeparator c0 then
        if isPathSeparator c1 then
          let '(firstPart, r1) := name_and_rest rest in
          if negb (String.eqb firstPart "") && negb (String.eqb r1 "") then
            let r2 := skip_separators r1 in
            if negb (String.eqb r2 "") then
              let '(share, r3) := name_and_rest r2 in
              if String.eqb r3 ""
              then UncRootOnly (unc firstPart r2 ++ String backslash "")
              else Root (Some (unc firstPart share)) true r3
            else Root None true path
          else Root None true path
        else Root None true (String c1 rest)
      else if isWindowsDeviceRoot c0 && Ascii.eqb c1 ":" then
        let device := String c0 (String c1 "") in
        match rest with
        | String c2 rest' =>
            if isPathSeparator c2 then Root (Some device) true rest'
            else Root (Some device) false rest
        | EmptyString => Root (Some device) false rest
        end
      else Root None false path
  | _ => Root None false path
  end.

(** [path.win32.normalize(path)] *)
Definition normalize (path : string) : string :=
  match path with
  | EmptyString => "."
  | String c EmptyString => if isPathSeparator c then String backslash "" else path
  | _ =>
      match parse_root path with
      | UncRootOnly result => result
      | Root device isAbsolute afterRoot =>
          let tail := normalizeString afterRoot (negb isAbsolute) in
          let tail :=
            if String.eqb tail "" && negb isAbsolute then "." else tail in
          let tail :=
            if negb (String.eqb tail "") && trailing_separator path
            then tail ++ String backslash "" else tail in
          match device with
          | None => if isAbsolute then String backslash tail else tail
          | Some device =>
              if isAbsolute then device ++ String backslash tail
              else device ++ tail
          end
      end
  end.

(** The separators at the start of [s], counted from [n]. *)
Fixpoint count_separators (n : nat) (s : string) : nat :=
  match s with
  | String a s' => if isPathSeparator a then count_separators (S n) s' else n
  | EmptyString => n
  end.

(** [path.win32.join(...args)]: the arguments that are not empty are put
    together with backslashes; unless the first of them starts like a UNC
    path, separators at the start are reduced to one, so that [normalize]
    does not take the result for a UNC path; then it is normalised. *)
Definition join (args : list string) : string :=
  match List.filter (fun arg => negb (String.eqb arg "")) args with
  | [] => "."
  | firstPart :: others =>
      let joined := Js.join (String backslash "") (firstPart :: others) in
      let needsReplace :=
        match firstPart with
        | String c0 (String c1 (String c2 _)) =>
            negb (isPathSeparator c0 && isPathSeparator c1
                  && negb (isPathSeparator c2))
        | _ => true
        end in
      let joined :=
        if needsReplace then
          let slashCount := count_separators 0 joined in
          if (2 <=? slashCount)%nat
          then String backslash (Js.slice slashCount joined)
          else joined
        else joined in
      normalize joined
  end.

(** A path on a drive: the letter, a colon, and segments behind
    backslashes. *)
Definition drive_path (d : ascii) (segs : list string) : string :=
  String d (String ":" (String backslash (Js.join (String backslash "") segs))).

End Win32.


(** ** Node's [path] module

    [path] is [path.posix] or [path.win32], by the platform the process
    runs on. *)

Module Path.

Class flavour := Flavour {
  sep_char : ascii;
  join_all : list string -> string
}.

(** [path.sep] *)
Definition sep `{flavour} : string := String sep_char "".

(** [path.join(dir, name)] *)
Definition join `{flavour} (dir name : string) : string := join_all [dir; name].

(** The flavour of every platform but win32, and the one that a statement
    is about when it names none. *)
#[global] Instance posix : flavour := Flavour "/" Posix.join.

Definition win32 : flavour := Flavour Win32.backslash Win32.join.

Fixpoint strip_trailing_slashes_rev (r : list ascii) : list ascii :=
  match r with
  | c :: r' => if Ascii.eqb c "/" then strip_trailing_slashes_rev r' else r
  | [] => []
  end.

(** [path.posix.basename(p)]: trailing separators are ignored, then the text
    after the last separator is returned. *)
Definition basename (p : string) : string :=
  let stripped :=
    string_of_list_ascii
      (rev (strip_trailing_slashes_rev (rev (list_ascii_of_string p)))) in
  List.last (Js.split "/" stripped) EmptyString.

End Path.


(** ** gui/app/main.js *)

Module Main.

(** An entry of [lastFiles], as [addFile] and [removeFile] build it. *)
Record file_entry := FileEntry {
  filename : string;
  path : string;
  icon : string;
  size : Z;
  updated : Z
}.

(** The [info] object carried by the transfer events of the core. *)
Record info := Info {
  info_path : string;
  info_class : option string;
  info_mime : option string;
  info_size : option Z
}.

(** What [mainWindow.webContents.send(...args)] is called with. *)
Inductive arg :=
| Str (s : option string)
| FileArg (f : file_entry).

Record ipc := Ipc { channel : string; args : list arg }.

Inductive click :=
| OpenCozyFolder
| GoToMyCozy
| GoToTab (tab : string)
| Quit
| ShowWindow
| RelaunchSync.

Inductive menu_item :=
| Item (label : option string) (enabled : bool) (action : option click)
| Separator.

Record tray_icon := Tray {
  image : string;
  pressedImage : option string;
  contextMenu : list menu_item;
  toolTip : option string
}.

(** What the module reads and never writes: [process.platform],
    [__dirname], [app.translations] once the locale file is loaded, the
    configuration of [desktop] and [desktop.sync]. *)
Record env := Env {
  platform : string;
  dirname : string;
  translations : gmap string string;
  cozyUrl : option string;
  deviceName : option string;
  desktop_sync : bool
}.

(** The file at [lastFilesPath] as the module deals with it: what it held
    when the process started ([None] when the file is missing, empty or not
    JSON), and the data handed to [fs.writeFile] since, oldest first.
    [fs.writeFile] is asynchronous: the module does not wait for it and
    only logs its error, so whether and when a write reaches the file, and
    what two writes that are in flight together leave in it, is decided by
    the file system and not by the module. [JSON.stringify] and
    [JSON.parse] are taken to be inverse of each other on lists of
    entries. *)
Record last_files_file := LastFilesFile {
  at_start : option (list file_entry);
  writes : list (list file_entry)
}.

(** The module-level variables, the tray, and what the outside world has
    seen: the messages sent to the window (oldest first), the desktop
    notifications, the file at [lastFilesPath], the pending disk-usage
    requests and the number of times [startSync] has registered its
    listeners on [desktop.events]. *)
Record gui := Gui {
  genv : env;
  mainWindow : bool;
  tray : tray_icon;
  diskTimeout : bool;
  state : string;
  errorMessage : option string;
  lastFiles : list file_entry;
  newReleaseAvailable : bool;
  sent : list ipc;
  notifications : list (option string);
  lastFilesFile : last_files_file;
  diskUsageRequests : nat;
  listeners : nat
}.

Definition set_tray (t : tray_icon) (g : gui) : gui :=
  Gui (genv g) (mainWindow g) t (diskTimeout g) (state g) (errorMessage g)
      (lastFiles g) (newReleaseAvailable g) (sent g) (notifications g)
      (lastFilesFile g) (diskUsageRequests g) (listeners g).

Definition set_diskTimeout (b : bool) (g : gui) : gui :=
  Gui (genv g) (mainWindow g) (tray g) b (state g) (errorMessage g)
      (lastFiles g) (newReleaseAvailable g) (sent g) (notifications g)
      (lastFilesFile g) (diskUsageRequests g) (listeners g).

Definition set_state (s : string) (g : gui) : gui :=
  Gui (genv g) (mainWindow g) (tray g) (diskTimeout g) s (errorMessage g)
      (lastFiles g) (newReleaseAvailable g) (sent g) (notifications g)
      (lastFilesFile g) (diskUsageRequests g) (listeners g).

Definition set_errorMessage (m : option string) (g : gui) : gui :=
  Gui (genv g) (mainWindow g) (tray g) (diskTimeout g) (state g) m
      (lastFiles g) (newReleaseAvailable g) (sent g) (notifications g)
      (lastFilesFile g) (diskUsageRequests g) (listeners g).

Definition set_lastFiles (l : list file_entry) (g : gui) : gui :=
  Gui (genv g) (mainWindow g) (tray g) (diskTimeout g) (state g)
      (errorMessage g) l (newReleaseAvailable g) (sent g) (notifications g)
      (lastFilesFile g) (diskUsageRequests g) (listeners g).

Definition set_sent (l : list ipc) (g : gui) : gui :=
  Gui (genv g) (mainWindow g) (tray g) (diskTimeout g) (state g)
      (errorMessage g) (lastFiles g) (newReleaseAvailable g) l
      (notifications g) (lastFilesFile g) (diskUsageRequests g) (listeners g).

Definition set_notifications (l : list (option string)) (g : gui) : gui :=
  Gui (genv g) (mainWindow g) (tray g) (diskTimeout g) (state g)
      (errorMessage g) (lastFiles g) (newReleaseAvailable g) (sent g) l
      (lastFilesFile g) (diskUsageRequests g) (listeners g).

Definition set_lastFilesFile (f : last_files_file) (g : gui) : gui :=
  Gui (genv g) (mainWindow g) (tray g) (diskTimeout g) (state g)
      (errorMessage g) (lastFiles g) (newReleaseAvailable g) (sent g)
      (notifications g) f (diskUsageRequests g) (listeners g).

Definition set_diskUsageRequests (n : nat) (g : gui) : gui :=
  Gui (genv g) (mainWindow g) (tray g) (diskTimeout g) (state g)
      (errorMessage g) (lastFiles g) (newReleaseAvailable g) (sent g)
      (notifications g) (lastFilesFile g) n (listeners g).

Definition set_listeners (n : nat) (g : gui) : gui :=
  Gui (genv g) (mainWindow g) (tray g) (diskTimeout g) (state g)
      (errorMessage g) (lastFiles g) (newReleaseAvailable g) (sent g)
      (notifications g) (lastFilesFile g) (diskUsageRequests g) n.

(** The names every object inherits from [Object.prototype]. *)
Definition object_prototype_keys : list string :=
  [ "constructor"; "hasOwnProperty"; "isPrototypeOf"; "propertyIsEnumerable";
    "toLocaleString"; "toString"; "valueOf"; "__proto__"; "__defineGetter__";
    "__defineSetter__"; "__lookupGetter__"; "__lookupSetter__" ].

(** [app.translations[key] || key.substr(key.indexOf(' ') + 1)], for a key
    that is not one of [object_prototype_keys]: [app.translations] is the
    object of the locale file, a table of texts, and for one of these names
    without an entry of its own the look-up finds the inherited property,
    which is no text. None of these names holds a space, and every key the
    module passes does: a prefix, a space and the English text. *)
Definition translate (e : env) (key : string) : string :=
  let without_prefix := Js.substr (Js.indexOf " " key + 1) key in
  match translations e !! key with
  | Some v => if String.eqb v "" then without_prefix else v
  | None => without_prefix
  end.

Definition sendToMainWindow (ch : string) (a : list arg) (g : gui) : gui :=
  if mainWindow g then set_sent (sent g ++ [Ipc ch a]) g else g.

Definition notify (body : option string) (g : gui) : gui :=
  set_notifications (notifications g ++ [body]) g.

Definition is_string (v : option string) (s : string) : bool :=
  match v with
  | Some x => String.eqb x s
  | None => false
  end.

Definition sendErrorToMainWindow (msg : option string) (g : gui) : gui :=
  if is_string msg "Client has been revoked" then
    let msg' :=
      translate (genv g)
        "Revoked It looks like you have revoked your client from your Cozy" in
    notify (Some msg') (sendToMainWindow "revoked" [] g)
  else if is_string msg "Cozy is full" || is_string msg "No more disk space" then
    let msg' := translate (genv g) ("Error " ++ default "" msg) in
    notify (Some msg') (sendToMainWindow "sync-error" [Str (Some msg')] g)
  else
    notify msg (sendToMainWindow "sync-error" [Str msg] g).

Definition setTrayIcon (st : string) (g : gui) : gui :=
  let t := tray g in
  if String.eqb (platform (genv g)) "darwin" then
    set_tray
      (Tray (dirname (genv g) ++ "/images/tray-icon-osx/" ++ st ++ "Template.png")
            (Some (dirname (genv g) ++ "/images/tray-icon-osx/" ++ st ++ "Highlight.png"))
            (contextMenu t) (toolTip t)) g
  else
    set_tray
      (Tray (dirname (genv g) ++ "/images/tray-icon-linux/" ++ st ++ ".png")
            (pressedImage t) (contextMenu t) (toolTip t)) g.

(** [menu.insert(pos, item)] *)
Definition menu_insert (pos : nat) (it : menu_item) (m : list menu_item)
  : list menu_item :=
  firstn pos m ++ it :: skipn pos m.

Definition updateState (newState : string) (file : option string) (g : gui)
  : gui :=
  if String.eqb (state g) "error" && String.eqb newState "offline" then g
  else
    let g := set_state newState g in
    let e := genv g in
    let '(g, statusLabel) :=
      if String.eqb (state g) "error" then
        (set_errorMessage file (setTrayIcon "error" g), file)
      else if Js.truthy file then
        (setTrayIcon "sync" g,
         Some (translate e "Tray Syncing" ++ " ‟" ++ default "" file ++ "“"))
      else if String.eqb (state g) "up-to-date" || String.eqb (state g) "online" then
        (setTrayIcon "idle" g, Some (translate e "Tray Your cozy is up to date"))
      else if String.eqb (state g) "syncing" then
        (setTrayIcon "sync" g, Some (translate e "Tray Syncing" ++ "…"))
      else if String.eqb (state g) "offline" then
        (setTrayIcon "pause" g, Some (translate e "Tray Offline"))
      else (g, Some "") in
    let menu :=
      [ Item statusLabel false None;
        Separator;
        Item (Some (translate e "Tray Open Cozy folder")) true (Some OpenCozyFolder);
        Item (Some (translate e "Tray Go to my Cozy")) true (Some GoToMyCozy);
        Separator;
        Item (Some (translate e "Tray Help")) true (Some (GoToTab "help"));
        Item (Some (translate e "Tray Settings")) true (Some (GoToTab "settings"));
        Separator;
        Item (Some (translate e "Tray Quit application")) true (Some Quit) ] in
    let menu :=
      if mainWindow g then menu
      else menu_insert 2
             (Item (Some (translate e "Tray Show application")) true (Some ShowWindow))
             menu in
    let menu :=
      if String.eqb (state g) "error" then
        menu_insert 2
          (Item (Some (translate e "Tray Relaunch synchronization")) true
                (Some RelaunchSync))
          menu
      else menu in
    let menu :=
      if newReleaseAvailable g then
        menu_insert 2
          (Item (Some (translate e "Tray A new release is available")) true
                (Some (GoToTab "settings")))
          menu
      else menu in
    set_tray (Tray (image (tray g)) (pressedImage (tray g)) menu statusLabel) g.

(** [.] of a regular expression stops at a line terminator: LF, CR,
    U+2028, U+2029. *)
Definition line_terminators : list string :=
  [ String "010" EmptyString;
    String "013" EmptyString;
    String "226" (String "128" (String "168" EmptyString));
    String "226" (String "128" (String "169" EmptyString)) ].

Fixpoint first_line (s : string) : string :=
  if existsb (fun t => Js.startsWith t s) line_terminators then EmptyString
  else match s with
       | EmptyString => EmptyString
       | String c s' => String c (first_line s')
       end.

(** [/[/-][bg]?zip2?$/] *)
Definition zip_suffixes : list string :=
  [ "/zip"; "-zip"; "/bzip"; "-bzip"; "/gzip"; "-gzip";
    "/zip2"; "-zip2"; "/bzip2"; "-bzip2"; "/gzip2"; "-gzip2" ].

(** [/^(text|application)\/(html|xml)/] *)
Definition code_prefixes : list string :=
  [ "text/html"; "text/xml"; "application/html"; "application/xml" ].

Definition selectIcon (i : info) : string :=
  if is_string (info_class i) "image" || is_string (info_class i) "video" then
    default "" (info_class i)
  else if is_string (info_class i) "music" then "audio"
  else if is_string (info_mime i) "application/pdf" then "pdf"
  else if is_string (info_mime i) "application/x-binary" then "binary"
  else if negb (Js.truthy (info_mime i)) then "file"
  else
    let mime := default "" (info_mime i) in
    if existsb (fun suf => Js.endsWith suf mime) zip_suffixes then "archive"
    else if existsb (fun pre => Js.startsWith pre mime) code_prefixes then "code"
    else if Js.startsWith "text/" mime then "text"
    else if Js.startsWith "application/" mime
            && Js.includes "rtf" (first_line (Js.slice 12 mime)) then "text"
    else if Js.includes "word" mime then "text"
    else if Js.includes "powerpoint" mime then "presentation"
    else if Js.includes "excel" mime then "spreadsheet"
    else "file".

(** The callback of [fs.readFile] in [loadLastFiles], once it has run. *)
Definition loadLastFiles (g : gui) : gui :=
  match at_start (lastFilesFile g) with
  | Some data => set_lastFiles data g
  | None => g
  end.

(** [JSON.stringify(lastFiles)] is handed to [fs.writeFile], which returns
    at once: the write is started, not awaited. *)
Definition persistLastFiles (g : gui) : gui :=
  let f := lastFilesFile g in
  set_lastFilesFile (LastFilesFile (at_start f) (writes f ++ [lastFiles g])) g.

(** [l.slice(-n)] *)
Definition slice_last {A} (n : nat) (l : list A) : list A :=
  skipn (length l - n) l.

(** The object literal [file] of [addFile]; [now] is the reading of the
    clock by [+new Date()]. *)
Definition new_file (now : Z) (i : info) : file_entry :=
  FileEntry (Path.basename (info_path i)) (info_path i) (selectIcon i)
            (default 0 (info_size i)) now.

Definition addFile (now : Z) (i : info) (g : gui) : gui :=
  let file := new_file now i in
  let g := updateState "syncing" (Some (filename file)) g in
  let g := set_lastFiles (lastFiles g ++ [file]) g in
  let g := set_lastFiles (slice_last 250 (lastFiles g)) g in
  let g := sendToMainWindow "transfer" [FileArg file] g in
  persistLastFiles g.

Definition removeFile (i : info) (g : gui) : gui :=
  let file := FileEntry (Path.basename (info_path i)) (info_path i) "" 0 0 in
  let g :=
    set_lastFiles
      (List.filter (fun f => negb (String.eqb (path f) (path file))) (lastFiles g))
      g in
  let g := sendToMainWindow "delete-file" [FileArg file] g in
  persistLastFiles g.

(** The synchronous part of [sendDiskUsage]: the timer is rearmed and the
    usage requested only while the window exists; the answer arrives
    later. *)
Definition sendDiskUsage (g : gui) : gui :=
  let g := if diskTimeout g then set_diskTimeout false g else g in
  if mainWindow g then
    set_diskUsageRequests (S (diskUsageRequests g)) (set_diskTimeout true g)
  else g.

(** The events of [desktop.events] that [startSync] listens to, and the two
    ways [desktop.synchronize('full')] settles. The incompatibilities event,
    which is debounced, is left out. *)
Inductive desktop_event :=
| UpToDate
| Online
| Offline
| TransferStarted (i : info)
| TransferCopy (i : info)
| TransferMove (i old : info)
| DeleteFile (i : info)
| SyncStopped
| SyncFailed (message : option string).

(** One registration of the listeners of [startSync] handling one event;
    [now] is the clock at that moment. *)
Definition on_event (now : Z) (ev : desktop_event) (g : gui) : gui :=
  match ev with
  | UpToDate => sendToMainWindow "up-to-date" [] (updateState "up-to-date" None g)
  | Online => sendToMainWindow "up-to-date" [] (updateState "online" None g)
  | Offline => sendToMainWindow "offline" [] (updateState "offline" None g)
  | TransferStarted i => addFile now i g
  | TransferCopy i => addFile now i g
  | TransferMove i old => removeFile old (addFile now i g)
  | DeleteFile i => removeFile i g
  | SyncStopped => sendErrorToMainWindow (Some "stopped") g
  | SyncFailed m =>
      sendErrorToMainWindow m (sendDiskUsage (updateState "error" m g))
  end.

(** [startSync(force)] up to the first asynchronous answer. *)
Definition startSync (force : bool) (g : gui) : gui :=
  let e := genv g in
  let g := sendToMainWindow "synchronization"
             [Str (cozyUrl e); Str (deviceName e)] g in
  let g := fold_left (fun g file => sendToMainWindow "transfer" [FileArg file] g)
             (lastFiles g) g in
  if desktop_sync e && negb force then
    let g :=
      if String.eqb (state g) "up-to-date" || String.eqb (state g) "online" then
        sendToMainWindow "up-to-date" [] g
      else if String.eqb (state g) "offline" then sendToMainWindow "offline" [] g
      else if String.eqb (state g) "error" then
        sendErrorToMainWindow (errorMessage g) g
      else g in
    sendDiskUsage g
  else
    let g := updateState "syncing" None g in
    let g := set_listeners (S (listeners g)) g in
    sendDiskUsage g.

(** The state once the module is loaded, the [ready] event handled and the
    callback of [loadLastFiles] run, for a process started on environment
    [e] with [file] at [lastFilesPath]; [window] tells whether the window
    was created. *)
Definition started (e : env) (window : bool) (file : option (list file_entry))
  : gui :=
  let menu :=
    [ Item (Some (translate e "Tray Show application")) true (Some ShowWindow);
      Item (Some (translate e "Tray Quit application")) true (Some Quit) ] in
  let g :=
    Gui e window
        (Tray (dirname e ++ "/images/tray-icon-linux/idle.png") None [] None)
        false "not-configured" (Some "") [] false [] [] (LastFilesFile file [])
        0 0 in
  let g := loadLastFiles g in
  let g := setTrayIcon "idle" g in
  set_tray (Tray (image (tray g)) (pressedImage (tray g)) menu (toolTip (tray g))) g.

End Main.


(** ** Sample runs of the shell *)

Module MainRuns.
Import Main.

Definition english_env : env :=
  Env "linux" "/app" ∅ (Some "https://me.mycozy.cloud") (Some "laptop") false.

(** A French locale file with an entry for the quota message. *)
Definition french_env : env :=
  Env "linux" "/app" {[ "Error Cozy is full" := "Votre Cozy est plein" ]}
      (Some "https://me.mycozy.cloud") (Some "laptop") false.

(** A state in which the synchronisation has failed. *)
Definition failed_state : gui :=
  on_event 0 (SyncFailed (Some "boom")) (started english_env true None).

Definition photo : info :=
  Info "Photos/cat.jpg" (Some "image") (Some "image/jpeg") (Some 2048).

Definition notes : info :=
  Info "Docs/notes.txt" (Some "text") (Some "text/plain") None.

(** Two transfers, the first when the clock reads 1, the second at 2. *)
Definition two_transfers : gui :=
  on_event 2 (TransferCopy notes)
    (on_event 1 (TransferStarted photo) (started english_env true None)).

End MainRuns.

(** ** Statement vocabulary for the last-files list *)

Module LastFiles.
Import Main.

(** The entry a transfer event records, if the event is one. *)
Definition transfer_info (ev : desktop_event) : option info :=
  match ev with
  | TransferStarted i | TransferCopy i | TransferMove i _ => Some i
  | _ => None
  end.

Definition newest_first (l : list file_entry) : Prop :=
  Sorted (fun a b => updated b <= updated a) l.

Definition oldest_first (l : list file_entry) : Prop :=
  StronglySorted (fun a b => updated a <= updated b) l.

Definition transfer_message (f : file_entry) : ipc := Ipc "transfer" [FileArg f].

(** The data of the most recent [fs.writeFile] call, or what the file held
    when the process started if there was none yet. *)
Definition latest (f : last_files_file) : list file_entry :=
  List.last (writes f) (default [] (at_start f)).

End LastFiles.


(** ** test/support/helpers/context_dir.js (the first unnamed source file) *)

Module ContextDir.

(** How an asynchronous function ends: it resolves, it rejects, or the
    model ran out of fuel before it did either. *)
Inductive outcome (A : Type) :=
| Returned (a : A)
| Rejected
| OutOfFuel.
Arguments Returned {A} a.
Arguments Rejected {A}.
Arguments OutOfFuel {A}.

(** [localPath.split(path.sep).join(path.posix.sep)] *)
Definition posixifyPath `{Path.flavour} (localPath : string) : string :=
  Js.join "/" (Js.split Path.sep_char localPath).

Section Tree.

(** Node's [path] on the platform of the process. *)
Context {platform_path : Path.flavour}.

(** The name of the staging directory comes from core/local/constants,
    which is not among the embedded sources. *)
Variable TMP_DIR_NAME : string.

(** [a.localeCompare(b)]: negative, zero or positive. *)
Variable localeCompare : string -> string -> Z.

(** The file system as the walk sees it: [fs.readdirAsync] gives the names
    in a directory and [fs.statAsync(p).isDirectory()] tells directories
    from the rest; [None] is a rejected promise. *)
Variable readdirAsync : string -> option (list string).
Variable statAsync : string -> option bool.

(** [this.root] *)
Variable root : string.

Definition relpath (abspath : string) : string :=
  posixifyPath (Js.slice (String.length root + String.length Path.sep) abspath).

(** The [for ... of] loop over the names of one directory. *)
Fixpoint read_names (dir : string) (names : list string)
    (dirsToRead relPaths : list string) : option (list string * list string) :=
  match names with
  | [] => Some (dirsToRead, relPaths)
  | name :: rest =>
      let absPath := Path.join dir name in
      match statAsync absPath with
      | None => None
      | Some isDirectory =>
          let relPath := relpath absPath in
          if isDirectory then
            read_names dir rest (dirsToRead ++ [absPath])
                       (relPaths ++ [relPath ++ "/"])
          else read_names dir rest dirsToRead (relPaths ++ [relPath])
      end
  end.

(** The [while (true)] loop; one unit of fuel per directory read. *)
Fixpoint walk (fuel : nat) (dirsToRead relPaths : list string)
  : outcome (list string) :=
  match dirsToRead with
  | [] => Returned relPaths
  | dir :: dirsToRead =>
      match fuel with
      | O => OutOfFuel
      | S fuel =>
          match readdirAsync dir with
          | None => Rejected
          | Some names =>
              match read_names dir names dirsToRead relPaths with
              | None => Rejected
              | Some (dirsToRead, relPaths) => walk fuel dirsToRead relPaths
              end
          end
      end
  end.

(** The comparator handed to [sort] puts [a] before [b]. *)
Definition before (a b : string) : Prop := localeCompare a b <= 0.

Global Instance before_dec : RelDecision before :=
  fun a b => Z_le_dec (localeCompare a b) 0.

(** [relPaths.sort(cmp)]: the engine is free in its algorithm; a merge
    sort stands for it. *)
Definition sort (relPaths : list string) : list string :=
  merge_sort before relPaths.

Definition tree (fuel : nat) : outcome (list string) :=
  match walk fuel [root] [] with
  | Returned relPaths =>
      Returned
        (List.filter
           (fun relPath => negb (String.eqb relPath (TMP_DIR_NAME ++ "/")))
           (sort relPaths))
  | Rejected => Rejected
  | OutOfFuel => OutOfFuel
  end.

End Tree.

(** *** Directory trees

    What the walk is run on: finite trees of named entries, without
    symbolic links. *)

#[warnings="-register-all"]
Inductive entry :=
| File (name : string)
| Dir (name : string) (children : list entry).

Definition name_of (e : entry) : string :=
  match e with
  | File name => name
  | Dir name _ => name
  end.

(** An entry and all that is below it, each by its path segments from the
    root and its kind; [segs] is the path of the directory holding [e]. *)
Fixpoint below (segs : list string) (e : entry) : list (list string * bool) :=
  match e with
  | File name => [((segs ++ [name])%list, false)]
  | Dir name children =>
      ((segs ++ [name])%list, true)
        :: flat_map (below (segs ++ [name])%list) children
  end.

(** Every entry reachable from a root that holds [children]. *)
Definition listing (children : list entry) : list (list string * bool) :=
  flat_map (below []) children.

(** The number of directories in an entry. *)
Fixpoint dirs (e : entry) : nat :=
  match e with
  | File _ => O
  | Dir _ children => S (list_sum (map dirs children))
  end.

(** The forward-slash relative path of an entry, a directory with its
    trailing slash. *)
Definition show (e : list string * bool) : string :=
  Js.join "/" (fst e) ++ (if snd e then "/" else "").

(** The absolute path of the entry with segments [segs], as the walk
    builds it. *)
Definition abs `{Path.flavour} (root : string) (segs : list string) : string :=
  fold_left Path.join segs root.

(** The root, and after it each segment behind a separator. *)
Definition beneath `{Path.flavour} (root : string) (segs : list string) : string :=
  fold_left (fun dir name => dir ++ Path.sep ++ name) segs root.

(** The file system functions present the entry [e] in the directory at
    the path [dir]. *)
Fixpoint mounted `{Path.flavour} (readdirAsync : string -> option (list string))
    (statAsync : string -> option bool) (dir : string) (e : entry) : Prop :=
  match e with
  | File name => statAsync (Path.join dir name) = Some false
  | Dir name children =>
      statAsync (Path.join dir name) = Some true
      /\ readdirAsync (Path.join dir name) = Some (map name_of children)
      /\ fold_right
           (fun c rest =>
              mounted readdirAsync statAsync (Path.join dir name) c /\ rest)
           True children
  end.

(** The root is read without being [stat]ed. *)
Definition mounted_root `{Path.flavour}
    (readdirAsync : string -> option (list string))
    (statAsync : string -> option bool) (root : string) (children : list entry)
  : Prop :=
  readdirAsync root = Some (map name_of children)
  /\ Forall (mounted readdirAsync statAsync root) children.

(** A name a directory can hold: not empty, no separator in it. *)
Definition valid_name (name : string) : bool :=
  negb (String.eqb name "") && negb (Js.includes "/" name).

(** A name that [fs.readdir] can list on the platform: not empty, neither
    [.] nor [..], and without a forward slash or the separator of the
    platform in it. *)
Definition listed_name `{Path.flavour} (name : string) : bool :=
  valid_name name
  && negb (String.eqb name ".") && negb (String.eqb name "..")
  && negb (Js.includes Path.sep name).

(** Names can be listed and differ within each directory. *)
Fixpoint well_named `{Path.flavour} (e : entry) : Prop :=
  match e with
  | File name => listed_name name = true
  | Dir name children =>
      listed_name name = true
      /\ NoDup (map name_of children)
      /\ fold_right (fun c rest => well_named c /\ rest) True children
  end.

Definition well_named_root `{Path.flavour} (children : list entry) : Prop :=
  NoDup (map name_of children) /\ Forall well_named children.

(** What [ContextDir] takes for granted of its root: [path.join] of a
    directory at or below the root and of a name that it lists is the
    directory, a separator and the name. It is so when the root is written
    as a normalised absolute path other than the root directory itself:
    without a trailing separator, an empty segment, [.] or [..]. *)
Definition rooted `{Path.flavour} (root : string) : Prop :=
  forall segs name,
    Forall (fun s => listed_name s = true) segs ->
    listed_name name = true ->
    Path.join (beneath root segs) name = beneath root (segs ++ [name])%list.

(** The entries directly in the directory [segs]. *)
Definition direct (segs : list string) (cs : list entry) : list (list string * bool) :=
  map (fun c => ((segs ++ [name_of c])%list,
                 match c with File _ => false | Dir _ _ => true end)) cs.

(** The directories directly in [segs], each with what it holds. *)
Definition subdirs (segs : list string) (cs : list entry)
  : list (list string * list entry) :=
  flat_map (fun c => match c with
                     | File _ => []
                     | Dir name children => [((segs ++ [name])%list, children)]
                     end) cs.

Definition qlisting (q : list string * list entry) : list (list string * bool) :=
  flat_map (below (fst q)) (snd q).

Definition qsize (q : list string * list entry) : nat :=
  S (list_sum (map dirs (snd q))).

(** A directory waiting in [dirsToRead], as the file system presents it. *)
Definition readable `{Path.flavour} (readdirAsync : string -> option (list string))
    (statAsync : string -> option bool) (root : string)
    (q : list string * list entry) : Prop :=
  readdirAsync (abs root (fst q)) = Some (map name_of (snd q))
  /\ Forall (mounted readdirAsync statAsync (abs root (fst q))) (snd q)
  /\ Forall (fun s => listed_name s = true) (fst q)
  /\ Forall well_named (snd q).

Definition no_slash (s : string) : Prop := Js.includes "/" s = false.

(** The segments [show] joins: a directory ends with an empty one. *)
Definition shown_segments (e : list string * bool) : list string :=
  (fst e ++ (if snd e then [""] else []))%list.

(** An entry somewhere below the root, all of whose names are valid. *)
Definition valid_entry (e : list string * bool) : Prop :=
  fst e <> [] /\ Forall (fun s => valid_name s = true) (fst e).


End ContextDir.


(** ** A disk holding a given tree, and a byte-order comparator *)

Module Disk.
Import ContextDir.

Fixpoint find (name : string) (cs : list entry) : option entry :=
  match cs with
  | [] => None
  | c :: cs => if String.eqb (name_of c) name then Some c else find name cs
  end.

(** The entry reached from a directory holding [cs] along [segs]. *)
Fixpoint resolve (segs : list string) (cs : list entry) : option entry :=
  match segs with
  | [] => None
  | s :: rest =>
      match find s cs, rest with
      | Some e, [] => Some e
      | Some (Dir _ children), _ => resolve rest children
      | _, _ => None
      end
  end.

Definition at_path `{Path.flavour} (root : string) (cs : list entry) (p : string)
  : option entry :=
  if Js.startsWith (root ++ Path.sep) p then
    resolve (Js.split Path.sep_char (Js.slice (String.length root + 1) p)) cs
  else None.

(** [fs.readdir] and [fs.stat] on a disk whose directory [root] holds [cs]. *)
Definition readdir `{Path.flavour} (root : string) (cs : list entry) (p : string)
  : option (list string) :=
  if String.eqb p root then Some (map name_of cs)
  else match at_path root cs p with
       | Some (Dir _ children) => Some (map name_of children)
       | _ => None
       end.

Definition stat `{Path.flavour} (root : string) (cs : list entry) (p : string)
  : option bool :=
  match at_path root cs p with
  | Some (Dir _ _) => Some true
  | Some (File _) => Some false
  | None => None
  end.

(** Comparison by bytes: a total and transitive comparator for the
    examples. It is not [localeCompare], whose order depends on the locale
    and differs from the order of the bytes even on ASCII names ([a_b]
    comes before [a-b] for it); the theorems take the comparator as a
    parameter. *)
Definition byteCompare (a b : string) : Z :=
  match String.compare a b with
  | Lt => -1
  | Eq => 0
  | Gt => 1
  end.

(** The synchronised directory of a Windows user. *)
Definition cozy_dir : string := Win32.drive_path "C" ["Users"; "me"; "Cozy"].

(** A synchronised directory with a staging directory in use. *)
Definition sample : list entry :=
  [ Dir "parent" [ Dir "dir" [ Dir "subdir" [ File "file" ];
                               Dir "empty-subdir" [] ] ];
    File "foo.txt";
    Dir ".system-tmp-cozy-drive" [ File "foo.txt.tmp" ] ].

End Disk.


(** ** The sync core

    core/ is not among the embedded sources: what the tests and scenarios
    exercise is modelled here from the specification, one definition per
    sentence of it. *)

Module Core.

Inductive platform := linux | darwin | win32.

Definition case_insensitive (p : platform) : bool :=
  match p with
  | linux => false
  | darwin | win32 => true
  end.

Definition lower_char (c : ascii) : ascii :=
  let n := nat_of_ascii c in
  if (65 <=? n)%nat && (n <=? 90)%nat then ascii_of_nat (n + 32) else c.

Fixpoint lower (s : string) : string :=
  match s with
  | EmptyString => EmptyString
  | String c s' => String (lower_char c) (lower s')
  end.

(** Modelled from the spec: [id(path)] of the Path Normalizer (core/metadata
    is missing), "the canonical path, lower-cased when the platform is
    case-insensitive (macOS HFS+ default, Windows). Case-sensitive platforms
    (Linux) use the path unchanged". *)
Definition id (p : platform) (path : string) : string :=
  if case_insensitive p then lower path else path.

(** Modelled from the spec: the "path depth" the Executor orders by, the
    number of segments of a canonical path. *)
Definition depth (path : string) : nat := length (Js.split "/" path).

(** Modelled from the spec: the descendants of a folder are the paths
    strictly below it. *)
Definition under (folder path : string) : bool :=
  Js.startsWith (folder ++ "/") path.

Inductive docType := file | folder.

Inductive side := local | remote.

Definition other (s : side) : side :=
  match s with
  | local => remote
  | remote => local
  end.

(** Modelled from the spec: the Document of the data model (core/metadata is
    missing), with the fields that matter below; [sides_local] and
    [sides_remote] are the two entries of [sides], [ino] is the local
    inode and [remote_id] the remote identifier of the [remote] snapshot. *)
Record doc := Doc {
  doc_id : string;
  path : string;
  doc_type : docType;
  rev : nat;
  sides_local : nat;
  sides_remote : nat;
  md5sum : option string;
  ino : option nat;
  remote_id : option nat;
  moveFrom : option string;
  deleted : bool
}.

Definition sides (s : side) (d : doc) : nat :=
  match s with
  | local => sides_local d
  | remote => sides_remote d
  end.

(** Modelled from the spec: "A side is up-to-date when its value equals
    [rev]; otherwise it is dirty and must be propagated." *)
Definition up_to_date (s : side) (d : doc) : bool := (sides s d =? rev d)%nat.

(** Modelled from the spec: the Metadata Store (core/pouch is missing): the
    store-wide sequence number that each [put] advances, and the documents,
    one per id, each with the sequence number of its last [put], in the
    order of these numbers: the changes feed. [puts] is the spy the
    integration tests install with [helpers.spyPouch()]: the documents put
    since. *)
Record store := Store {
  seq : nat;
  changes : list (nat * doc);
  puts : list doc
}.

Definition has_id (i : string) (e : nat * doc) : bool :=
  String.eqb (doc_id (snd e)) i.

(** Modelled from the spec: the primary index, "by_id -> latest
    document". *)
Definition by_id (i : string) (st : store) : option doc :=
  option_map snd (List.find (has_id i) (changes st)).

(** Modelled from the spec: [put(doc)], which "advances a store-wide
    sequence number used by the changes feed". *)
Definition put (d : doc) (st : store) : store :=
  Store (S (seq st))
        (List.filter (fun e => negb (has_id (doc_id d) e)) (changes st)
           ++ [(S (seq st), d)])
        (puts st ++ [d]).

(** Modelled from the spec: [delete(id)], the physical removal. *)
Definition delete (i : string) (st : store) : store :=
  Store (seq st) (List.filter (fun e => negb (has_id i e)) (changes st))
        (puts st).

(** Modelled from the spec: [get_by_id] over the primary index, "by_id ->
    latest document": the document stored under the id, a tombstone as
    well as a live document, and nothing once it is physically removed. *)
Definition get (i : string) (st : store) : option doc := by_id i st.

(** Modelled from the spec: [tree_under(prefix)], the live documents below
    a folder "for recursive folder operations", in the order of their
    paths. *)
Definition tree_under (prefix : string) (st : store) : list doc :=
  merge_sort (fun a b => String.le (path a) (path b))
    (List.filter (fun d => under prefix (path d) && negb (deleted d))
                 (map snd (changes st))).

(** Modelled from the spec: "bump local side": the side [s] has seen
    revision [rev d + 1] of [d], the next one. *)
Definition bump (s : side) (d : doc) (del : bool) : doc :=
  match s with
  | local =>
      Doc (doc_id d) (path d) (doc_type d) (S (rev d)) (S (rev d))
          (sides_remote d) (md5sum d) (ino d) (remote_id d) (moveFrom d) del
  | remote =>
      Doc (doc_id d) (path d) (doc_type d) (S (rev d)) (sides_local d)
          (S (rev d)) (md5sum d) (ino d) (remote_id d) (moveFrom d) del
  end.

(** Modelled from the spec: the row "local trash | set deleted, bump local
    side" of the reconciliation table of the Merger (core/merge is
    missing), and its mirror for the remote side. *)
Definition trash (p : platform) (s : side) (path : string) (st : store) : store :=
  match by_id (id p path) st with
  | Some d => if deleted d then st else put (bump s d true) st
  | None => st
  end.

Definition is_folder (d : doc) : bool :=
  match doc_type d with
  | folder => true
  | file => false
  end.

(** The live folders below a folder, in the order of their paths. *)
Definition folders_under (prefix : string) (st : store) : list doc :=
  List.filter is_folder (tree_under prefix st).

(** Modelled from the spec: the trash of a folder by the Merger (core/merge
    is missing), as the source has it. The design notes say of the source
    that it "omits descendant-file delete documents during folder
    trashing", and both tests of [describe('directory')] in
    test/integration/trash.js require by [deepEqual] that the documents put
    be those of the folders below the folder, the last path first, and then
    that of the folder, each with [_deleted: true]. The documents of the
    files below the folder are left as they are. *)
Definition trash_folder (p : platform) (s : side) (path : string) (st : store)
  : store :=
  match by_id (id p path) st with
  | Some d =>
      if deleted d then st
      else fold_left (fun st d => put (bump s d true) st)
                     (List.rev (folders_under path st) ++ [d]) st
  | None => st
  end.

(** Modelled from the spec: the last row of the reconciliation table, "both
    sides deleted | physically remove document": the side [s] reports that
    it has applied the deletion of [d]. *)
Definition acknowledge (s : side) (d : doc) (st : store) : store :=
  match by_id (doc_id d) st with
  | Some d' =>
      if deleted d' then
        match s with
        | local =>
            if (sides_remote d' =? rev d')%nat then delete (doc_id d') st
            else st
        | remote =>
            if (sides_local d' =? rev d')%nat then delete (doc_id d') st
            else st
        end
      else st
  | None => st
  end.

Definition side_eqb (a b : side) : bool :=
  match a, b with
  | local, local | remote, remote => true
  | _, _ => false
  end.

(** Modelled from the spec: what is written to the store, which is a [put]
    by the Merger or the Executor, or the report of a side that it has
    applied a deletion. *)
Inductive write :=
| Put (d : doc)
| Acknowledge (s : side) (d : doc).

Definition apply_write (st : store) (w : write) : store :=
  match w with
  | Put d => put d st
  | Acknowledge s d => acknowledge s d st
  end.

(** The write is about another document than the one stored under [i], or
    it is the report of the side [s]. *)
Definition spares (i : string) (s : side) (w : write) : bool :=
  match w with
  | Put d => negb (String.eqb (doc_id d) i)
  | Acknowledge s' d => negb (String.eqb (doc_id d) i) || side_eqb s' s
  end.


End Core.


(** ** The file system under the test helpers

    Node's [fs] and fs-extra as the scenario runner uses them, on a
    directory given by its entries: relative forward-slash paths, each with
    its kind and its inode number. A rejected promise is [None]. *)

Module Fs.

Inductive kind :=
| KFile (content : string)
| KDir.

Record node := Node { node_kind : kind; ino : nat }.

Record disk := Disk { entries : list (string * node); next_ino : nat }.

Definition empty : disk := Disk [] 1.

Definition lookup (path : string) (d : disk) : option node :=
  option_map snd (List.find (fun e => String.eqb (fst e) path) (entries d)).

(** [path.posix.dirname], the empty string for a top-level name. *)
Definition dirname (path : string) : string :=
  Js.join "/" (removelast (Js.split "/" path)).

(** [path] is [dir] or lies below it. *)
Definition within (dir path : string) : bool :=
  String.eqb path dir || Js.startsWith (dir ++ "/") path.

Definition is_dir (path : string) (d : disk) : bool :=
  match lookup path d with
  | Some (Node KDir _) => true
  | _ => false
  end.

(** The sync directory itself always exists. *)
Definition dir_exists (path : string) (d : disk) : bool :=
  String.eqb path "" || is_dir path d.

Definition add (path : string) (k : kind) (d : disk) : disk :=
  Disk (entries d ++ [(path, Node k (next_ino d))]) (S (next_ino d)).

(** One level of [mkdir -p]. *)
Definition mkdir_if_missing (path : string) (d : option disk) : option disk :=
  match d with
  | None => None
  | Some d =>
      match lookup path d with
      | None => Some (add path KDir d)
      | Some (Node KDir _) => Some d
      | Some (Node (KFile _) _) => None
      end
  end.

(** The prefixes of a path, shortest first: ["a"; "a/b"; "a/b/c"]. *)
Fixpoint prefixes (acc : string) (segs : list string) : list string :=
  match segs with
  | [] => []
  | s :: segs' =>
      let here := if String.eqb acc "" then s else acc ++ "/" ++ s in
      here :: prefixes here segs'
  end.

(** [fs.ensureDir(path)] *)
Definition ensureDir (path : string) (d : disk) : option disk :=
  if String.eqb path "" then Some d
  else fold_left (fun d p => mkdir_if_missing p d)
                 (prefixes "" (Js.split "/" path)) (Some d).

Definition set_content (path content : string) (d : disk) : disk :=
  Disk (map (fun e => if String.eqb (fst e) path
                      then (fst e, Node (KFile content) (ino (snd e)))
                      else e)
            (entries d))
       (next_ino d).

(** [fs.outputFile(path, data)]: the parent directories are created. *)
Definition outputFile (path data : string) (d : disk) : option disk :=
  match ensureDir (dirname path) d with
  | None => None
  | Some d =>
      match lookup path d with
      | None => Some (add path (KFile data) d)
      | Some (Node (KFile _) _) => Some (set_content path data d)
      | Some (Node KDir _) => None
      end
  end.

(** [fs.appendFile(path, data)]: the file is created when missing, its
    directory is not. *)
Definition appendFile (path data : string) (d : disk) : option disk :=
  match lookup path d with
  | Some (Node (KFile content) _) => Some (set_content path (content ++ data) d)
  | Some (Node KDir _) => None
  | None =>
      if dir_exists (dirname path) d then Some (add path (KFile data) d)
      else None
  end.

(** [fs.remove(path)]: recursive, silent when nothing is there. *)
Definition remove (path : string) (d : disk) : disk :=
  Disk (List.filter (fun e => negb (within path (fst e))) (entries d))
       (next_ino d).

(** Where an entry of the subtree [src] lands when [src] becomes [dst]. *)
Definition rebase (src dst path : string) : string :=
  if within src path then dst ++ Js.slice (String.length src) path else path.

Definition has_children (path : string) (d : disk) : bool :=
  existsb (fun e => Js.startsWith (path ++ "/") (fst e)) (entries d).

(** [fs.rename(src, dst)], POSIX [rename(2)]: the inodes move with their
    entries; a file may replace a file and a directory an empty directory. *)
Definition rename (src dst : string) (d : disk) : option disk :=
  match lookup src d with
  | None => None
  | Some (Node k _) =>
      if negb (dir_exists (dirname dst) d) then None
      else if within src dst && negb (String.eqb src dst) then None
      else
        let replaceable :=
          match lookup dst d, k with
          | None, _ => true
          | Some (Node (KFile _) _), KFile _ => true
          | Some (Node KDir _), KDir => negb (has_children dst d)
          | _, _ => false
          end in
        if String.eqb src dst then Some d
        else if replaceable then
          let d := remove dst d in
          Some (Disk (map (fun e => (rebase src dst (fst e), snd e)) (entries d))
                     (next_ino d))
        else None
  end.

(** [fs.move(src, dst, {overwrite: true})] *)
Definition move_overwrite (src dst : string) (d : disk) : option disk :=
  match lookup src d with
  | None => None
  | Some _ =>
      if String.eqb src dst then Some d
      else match ensureDir (dirname dst) (remove dst d) with
           | None => None
           | Some d => rename src dst d
           end
  end.

(** [mergedirs(src, dst, 'overwrite')] of the merge-dirs package: [src] is
    read as a directory, which throws when it is none or is missing; then
    every file below it is copied over its counterpart below [dst], whose
    directory is made when missing. A directory of [src] that holds no
    file leaves no trace below [dst]. *)
Definition mergedirs (src dst : string) (d : disk) : option disk :=
  if is_dir src d then
    fold_left
      (fun acc e =>
         match acc, node_kind (snd e) with
         | None, _ => None
         | Some d, KFile content =>
             if Js.startsWith (src ++ "/") (fst e)
             then outputFile (rebase src dst (fst e)) content d
             else Some d
         | Some d, KDir => Some d
         end)
      (entries d) (Some d)
  else None.

End Fs.


(** ** Watchers, Merger and Executor over the two sides *)

Module Sync.
Import Core.

(** Modelled from the spec: [digest] of the Checksum Service
    (core/local/checksumer is missing), "an MD5 as base64". Only the
    equality of two digests is ever used, so a content stands for its own
    digest. *)
Definition digest (content : string) : string := content.

(** Modelled from the spec: the two sides. The remote trash "is the
    directory whose id is .cozy_trash". The local trash is kept apart from
    the synchronised directory [disk] as [bin], wherever it is: the
    specification places it at "<root>/.Trash" in one section and at
    "/Trash under the local root" in another, and the code that decides is
    not among the embedded sources. The inode of a remote entry stands for
    its remote identifier. *)
Record world := World {
  disk : Fs.disk;
  bin : list (string * Fs.node);
  cozy : Fs.disk
}.

Definition remote_trash : string := ".cozy_trash".

Definition entries_of (s : side) (w : world) : list (string * Fs.node) :=
  match s with
  | local => Fs.entries (disk w)
  | remote => Fs.entries (cozy w)
  end.

Definition in_trash (s : side) (path : string) : bool :=
  match s with
  | local => false
  | remote => Fs.within remote_trash path
  end.

Definition set_side (s : side) (d : Fs.disk) (w : world) : world :=
  match s with
  | local => World d (bin w) (cozy w)
  | remote => World (disk w) (bin w) d
  end.

Definition side_disk (s : side) (w : world) : Fs.disk :=
  match s with
  | local => disk w
  | remote => cozy w
  end.

(** *** What the tests read back *)

Definition show_entry (e : string * Fs.node) : string :=
  match Fs.node_kind (snd e) with
  | Fs.KDir => fst e ++ "/"
  | Fs.KFile _ => fst e
  end.

Definition listing (t : list (string * Fs.node)) : list string :=
  merge_sort String.le (map show_entry t).

(** The remote tree and the remote trash as the scenarios expect them. *)
Definition remote_tree_without_trash (w : world) : list string :=
  listing (List.filter (fun e => negb (Fs.within remote_trash (fst e)))
                       (Fs.entries (cozy w))).

Definition remote_trash_content (w : world) : list string :=
  listing (List.filter (fun e => Js.startsWith (remote_trash ++ "/") (fst e))
                       (Fs.entries (cozy w))).

Definition content_at (s : side) (path : string) (w : world) : option string :=
  match Fs.lookup path (side_disk s w) with
  | Some (Fs.Node (Fs.KFile c) _) => Some c
  | _ => None
  end.

(** *** Watchers *)

(** Modelled from the spec: the "event kinds produced downstream" by the
    watchers, "each carrying path(s), stat (size, mtime, inode), and for
    files a fresh digest"; [ident] is the inode or the remote identifier. *)
Inductive event :=
| add_file (path digest : string) (ident : nat)
| add_dir (path : string) (ident : nat)
| update_file (path digest : string)
| move (src dst : string)
| trash (path : string) (t : docType).

Definition ident (s : side) (d : doc) : option nat :=
  match s with
  | local => ino d
  | remote => remote_id d
  end.

(** Where the resource a document tracks is now, on the side [s]. *)
Definition located (s : side) (w : world) (d : doc) : option (string * Fs.node) :=
  match ident s d with
  | Some k =>
      List.find (fun e => (Fs.ino (snd e) =? k)%nat && negb (in_trash s (fst e)))
                (entries_of s w)
  | None => None
  end.

(** Modelled from the spec: rule 6 of the move reconstruction, "When a
    directory is moved [...]
    the watcher suppresses descendant events that are consistent with the
    parent's move": the folder [a] above [d] went to [a'], and [d] is at the
    matching place [p] below [a']. *)
Definition carried (s : side) (w : world) (docs : list doc) (d : doc)
    (p : string) : bool :=
  existsb
    (fun a =>
       under (path a) (path d)
       && match located s w a with
          | Some (a', _) =>
              negb (String.eqb a' (path a))
              && String.eqb p (Fs.rebase (path a) a' (path d))
          | None => false
          end)
    docs.

(** Modelled from the spec: the same for a folder that is gone: scenario
    S4 trashes a folder as one resource, its descendants go with it. *)
Definition gone_with_parent (s : side) (w : world) (docs : list doc) (d : doc)
  : bool :=
  existsb
    (fun a =>
       under (path a) (path d)
       && match located s w a with
          | Some _ => false
          | None => true
          end)
    docs.

Definition opt_eqb {A} (eqb : A -> A -> bool) (a b : option A) : bool :=
  match a, b with
  | Some x, Some y => eqb x y
  | None, None => true
  | _, _ => false
  end.

Definition changed_digest (d : doc) (n : Fs.node) : option string :=
  match Fs.node_kind n with
  | Fs.KFile c =>
      if opt_eqb String.eqb (md5sum d) (Some (digest c)) then None
      else Some (digest c)
  | Fs.KDir => None
  end.

(** Modelled from the spec: rules 1, 4 and 6 of the move reconstruction of
    the watchers (core/local/watcher and core/remote/watcher are missing),
    applied to one document the way the initial scan compares "each
    observed node against" the store: the same identifier at another path
    is a [move], a changed digest an [update_file], a missing identifier a
    [trash]. *)
Definition doc_events (s : side) (w : world) (docs : list doc) (d : doc)
  : list event :=
  match located s w d with
  | Some (p, n) =>
      ((if String.eqb p (path d) || carried s w docs d p then []
        else [move (path d) p])
         ++ match changed_digest d n with
            | Some h => [update_file p h]
            | None => []
            end)%list
  | None =>
      if gone_with_parent s w docs d then [] else [trash (path d) (doc_type d)]
  end.

(** Modelled from the spec: rule 5, "A created with no match => emit
    add_*". *)
Definition entry_events (s : side) (docs : list doc) (e : string * Fs.node)
  : list event :=
  if in_trash s (fst e)
     || existsb (fun d => opt_eqb Nat.eqb (ident s d) (Some (Fs.ino (snd e))))
                docs
  then []
  else match Fs.node_kind (snd e) with
       | Fs.KFile c => [add_file (fst e) (digest c) (Fs.ino (snd e))]
       | Fs.KDir => [add_dir (fst e) (Fs.ino (snd e))]
       end.

(** Modelled from the spec: the scan of a side by its watcher: the
    documents in the order of the store, then the unknown entries, parents
    before children. *)
Definition scan (s : side) (st : store) (w : world) : list event :=
  let docs :=
    List.filter (fun d => negb (deleted d)
                          && match ident s d with Some _ => true | None => false end)
                (map snd (changes st)) in
  (flat_map (doc_events s w docs) docs
     ++ flat_map (entry_events s docs)
          (merge_sort (fun a b => String.le (fst a) (fst b)) (entries_of s w)))%list.

End Sync.


(** ** The Merger *)

Module Merger.
Import Core Sync.

(** The text of a name from its last dot on, with what precedes it. *)
Fixpoint last_dot (s : string) : option (string * string) :=
  match s with
  | EmptyString => None
  | String c s' =>
      match last_dot s' with
      | Some (stem, ext) => Some (String c stem, ext)
      | None => if Ascii.eqb c "." then Some (EmptyString, s) else None
      end
  end.

(** A name as stem and extension; a leading dot starts no extension. *)
Definition split_ext (name : string) : string * string :=
  match last_dot name with
  | Some (stem, ext) => if String.eqb stem "" then (name, "") else (stem, ext)
  | None => (name, "")
  end.

(** Modelled from the spec: the conflict naming of the Merger (core/merge
    is missing), which "appends -conflict-<ISO8601> before the extension";
    [ts] is the timestamp. *)
Definition conflict_name (ts : string) (path : string) : string :=
  let segs := Js.split "/" path in
  let '(stem, ext) := split_ext (List.last segs "") in
  Js.join "/" (removelast segs ++ [stem +:+ "-conflict-" +:+ ts +:+ ext])%list.

(** Modelled from the spec: the first row of the reconciliation table,
    "local add, no doc | create doc, sides.local=1, sides.remote=0", and
    "remote add, no doc | symmetric". *)
Definition fresh (p : platform) (s : side) (path : string) (t : docType)
    (md5 : option string) (k : nat) : doc :=
  match s with
  | local => Doc (id p path) path t 1 1 0 md5 (Some k) None None false
  | remote => Doc (id p path) path t 1 0 1 md5 None (Some k) None false
  end.

Definition same_type (a b : docType) : bool :=
  match a, b with
  | file, file | folder, folder => true
  | _, _ => false
  end.

(** Modelled from the spec: "mark both sides up-to-date": both sides have
    seen revision [rev d + 1]; [k] identifies the entry on the side [s]. *)
Definition seen_by_both (s : side) (k : nat) (d : doc) : doc :=
  match s with
  | local =>
      Doc (doc_id d) (path d) (doc_type d) (S (rev d)) (S (rev d)) (S (rev d))
          (md5sum d) (Some k) (remote_id d) None false
  | remote =>
      Doc (doc_id d) (path d) (doc_type d) (S (rev d)) (S (rev d)) (S (rev d))
          (md5sum d) (ino d) (Some k) None false
  end.

(** Modelled from the spec: the [add] rows of the reconciliation table.
    Without a live document for the id, the document is created. With one
    at the same path, of the same kind and digest, both sides are marked up
    to date ("first-sync merge"). Otherwise the incoming entry is the
    intruder: invariant 2 asks for "one document plus one conflict-renamed
    sibling", so the entry is renamed on its own side, which the second
    component reports as (old path, new path), and its document is created
    under the new name. *)
Definition add (p : platform) (ts : string) (s : side) (path : string)
    (t : docType) (md5 : option string) (k : nat) (st : store)
  : store * option (string * string) :=
  match by_id (id p path) st with
  | None => (put (fresh p s path t md5 k) st, None)
  | Some d =>
      if deleted d then (put (fresh p s path t md5 k) st, None)
      else if String.eqb (Core.path d) path && same_type (doc_type d) t
              && opt_eqb String.eqb (md5sum d) md5
      then (put (seen_by_both s k d) st, None)
      else
        let path' := conflict_name ts path in
        (put (fresh p s path' t md5 k) st, Some (path, path'))
  end.

(** Modelled from the spec: "update path": the document [d] of the side
    [s] is now at [to], and [moveFrom] "holds the prior document state for
    the opposite side to mirror", here the prior path. *)
Definition moved (p : platform) (s : side) (to : string) (d : doc) : doc :=
  match s with
  | local =>
      Doc (id p to) to (doc_type d) (S (rev d)) (S (rev d)) (sides_remote d)
          (md5sum d) (ino d) (remote_id d) (Some (path d)) false
  | remote =>
      Doc (id p to) to (doc_type d) (S (rev d)) (sides_local d) (S (rev d))
          (md5sum d) (ino d) (remote_id d) (Some (path d)) false
  end.

Definition move_one (p : platform) (s : side) (src dst : string) (st : store)
    (d : doc) : store :=
  put (moved p s (Fs.rebase src dst (path d)) d) (delete (doc_id d) st).

(** Modelled from the spec: the row "local move | remote matches old path |
    update path", with "Folder moves require updating every descendant
    document's path in one atomic batch": the document and, below a folder,
    all its descendants get their new path and remember the old one in
    [moveFrom]. *)
Definition move (p : platform) (s : side) (src dst : string) (st : store)
  : store :=
  match by_id (id p src) st with
  | Some d =>
      if deleted d then st
      else fold_left (move_one p s src dst) (d :: tree_under src st) st
  | None => st
  end.

(** Modelled from the spec: the rows "local update_file, digest unchanged |
    no-op" and, without a divergent other side, the update of the digest
    that leaves the other side dirty. The conflict rows of [update_file]
    are left out: none of the scenarios embedded here reaches them. *)
Definition update_file (p : platform) (s : side) (path digest : string)
    (st : store) : store :=
  match by_id (id p path) st with
  | Some d =>
      if deleted d || opt_eqb String.eqb (md5sum d) (Some digest) then st
      else
        let d' := bump s d false in
        put (Doc (doc_id d') (Core.path d') (doc_type d') (rev d')
                 (sides_local d') (sides_remote d') (Some digest) (ino d')
                 (remote_id d') (moveFrom d') false) st
  | None => st
  end.

(** Modelled from the spec: a path of the incoming side, once the conflict
    renames asked so far are done. *)
Definition renamed (renames : list (string * string)) (path : string) : string :=
  fold_left (fun p r => Fs.rebase (fst r) (snd r) p) renames path.

(** Modelled from the spec: Prep/Merger "exposes one method per event kind,
    taking (side, event)"; the renames asked of the side of the event are
    collected, and the entries that arrive below a renamed folder are taken
    at their new place. *)
Definition merge (p : platform) (ts : string) (s : side) (ev : event)
    (acc : store * list (string * string)) : store * list (string * string) :=
  let '(st, renames) := acc in
  match ev with
  | Sync.add_file path h k =>
      let '(st, r) := add p ts s (renamed renames path) file (Some h) k st in
      (st, (renames ++ match r with Some r => [r] | None => [] end)%list)
  | Sync.add_dir path k =>
      let '(st, r) := add p ts s (renamed renames path) folder None k st in
      (st, (renames ++ match r with Some r => [r] | None => [] end)%list)
  | Sync.update_file path h => (update_file p s path h st, renames)
  | Sync.move src dst => (move p s src dst st, renames)
  | Sync.trash path file => (Core.trash p s path st, renames)
  | Sync.trash path folder => (trash_folder p s path st, renames)
  end.

End Merger.


(** ** The Sync Executor *)

Module Executor.
Import Core Sync.

(** Modelled from the spec: the Executor (core/sync is missing) "determines
    the target side (the one whose sides.X < rev)". *)
Definition target (d : doc) : option side :=
  if (sides_local d <? rev d)%nat then Some local
  else if (sides_remote d <? rev d)%nat then Some remote
  else None.

(** Modelled from the spec: the [by_dirty] index, "any side < rev", in the
    order of the changes feed. *)
Definition pending (st : store) : list (nat * doc) :=
  List.filter (fun e => match target (snd e) with Some _ => true | None => false end)
              (changes st).

Definition op_depth (e : nat * doc) : nat := depth (path (snd e)).

Definition shallower_first (a b : nat * doc) : bool :=
  (op_depth a <? op_depth b)%nat
  || ((op_depth a =? op_depth b)%nat && (fst a <=? fst b)%nat).

Definition deeper_first (a b : nat * doc) : bool :=
  (op_depth b <? op_depth a)%nat
  || ((op_depth a =? op_depth b)%nat && (fst a <=? fst b)%nat).

Definition upsert_order (a b : nat * doc) : Prop := Is_true (shallower_first a b).

Definition removal_order (a b : nat * doc) : Prop := Is_true (deeper_first a b).

Global Instance upsert_order_dec : RelDecision upsert_order :=
  fun a b => Is_true_dec (shallower_first a b).

Global Instance removal_order_dec : RelDecision removal_order :=
  fun a b => Is_true_dec (deeper_first a b).

(** Modelled from the spec: the ordering of the Executor, "operations are
    sorted by path depth ascending for creates/moves (parents before
    children) and descending for deletes (children before parents). Within
    equal depth, stable by document sequence". A batch is given with the
    sequence number of each document; the creates and moves come out first
    in the pair, the deletes second. *)
Definition schedule (batch : list (nat * doc))
  : list (nat * doc) * list (nat * doc) :=
  (merge_sort upsert_order (List.filter (fun e => negb (deleted (snd e))) batch),
   merge_sort removal_order (List.filter (fun e => deleted (snd e)) batch)).

Definition exists_on (s : side) (path : string) (w : world) : bool :=
  match Fs.lookup path (side_disk s w) with
  | Some _ => true
  | None => false
  end.

(** Modelled from the spec: "trash -> move to the side's trash location":
    the entry goes to the trash of the side ([bin], or [.cozy_trash] on
    the remote side) under its own name, with all that is below it. *)
Definition trash_on (s : side) (path : string) (w : world) : world :=
  match s with
  | local =>
      World (Fs.remove path (disk w))
            (bin w
               ++ map (fun e => (Fs.rebase path (Path.basename path) (fst e), snd e))
                    (List.filter (fun e => Fs.within path (fst e))
                                 (Fs.entries (disk w))))
            (cozy w)
  | remote =>
      World (disk w) (bin w)
            (Fs.Disk
               (map (fun e =>
                       (Fs.rebase path (remote_trash +:+ "/" +:+ Path.basename path)
                                  (fst e),
                        snd e))
                    (Fs.entries (cozy w)))
               (Fs.next_ino (cozy w)))
  end.

(** Modelled from the spec: an error of a side parks the operation; the
    side is left as it was. *)
Definition on_side (s : side) (f : Fs.disk -> option Fs.disk) (w : world) : world :=
  match f (side_disk s w) with
  | Some d => set_side s d w
  | None => w
  end.

(** Modelled from the spec: scenario S4 expects a trashed folder in the
    trash with its content below it ("dir/subdir/file"): a tombstone with a
    trashed folder above it in the same batch goes to the trash with that
    folder. *)
Definition with_parent (batch : list doc) (d : doc) : bool :=
  existsb (fun a => deleted a && under (path a) (path d)) batch.

(** Modelled from the spec: "advance the target side to rev": the side [s]
    has applied revision [rev d]; [k] identifies its entry. *)
Definition advance (s : side) (k : option nat) (d : doc) : doc :=
  match s with
  | local =>
      Doc (doc_id d) (path d) (doc_type d) (rev d) (rev d) (sides_remote d)
          (md5sum d) (match k with Some _ => k | None => ino d end)
          (remote_id d) None (deleted d)
  | remote =>
      Doc (doc_id d) (path d) (doc_type d) (rev d) (sides_local d) (rev d)
          (md5sum d) (ino d)
          (match k with Some _ => k | None => remote_id d end) None (deleted d)
  end.

(** Modelled from the spec: the dispatch of the Executor on one dirty
    document: "trash -> move to the side's trash location", "move -> rename
    on the target side", "add_folder -> create directory, advance side",
    "add/update_file -> [...] upload to remote (or download remote to
    local) [...] then advance the target side to rev", and "both sides
    deleted | physically remove document". *)
Definition apply_one (batch : list doc) (acc : store * world) (d : doc)
  : store * world :=
  let '(st, w) := acc in
  match target d with
  | None => acc
  | Some s =>
      if deleted d then
        let w :=
          if with_parent batch d || negb (exists_on s (path d) w) then w
          else trash_on s (path d) w in
        (acknowledge s d (put (advance s None d) st), w)
      else
        let w :=
          match moveFrom d with
          | Some old =>
              if exists_on s old w && negb (exists_on s (path d) w)
              then on_side s (Fs.rename old (path d)) w
              else w
          | None => w
          end in
        let w :=
          match doc_type d with
          | folder => on_side s (Fs.ensureDir (path d)) w
          | file =>
              match content_at (other s) (path d) w with
              | Some c =>
                  if opt_eqb String.eqb (content_at s (path d) w) (Some c) then w
                  else on_side s (Fs.outputFile (path d) c) w
              | None => w
              end
          end in
        (put (advance s (option_map Fs.ino (Fs.lookup (path d) (side_disk s w))) d) st,
         w)
  end.

(** Modelled from the spec: one drain of the dirty documents, in the order
    of [schedule]. *)
Definition sync_all (acc : store * world) : store * world :=
  let batch := pending (fst acc) in
  let '(upserts, removals) := schedule batch in
  fold_left (apply_one (map snd batch)) (map snd (upserts ++ removals)%list) acc.

(** Modelled from the spec: a watcher hands its events to the Merger "in
    the order the watcher emitted them"; the renames the Merger asks for
    are applied to the side the events came from. *)
Definition pull (p : platform) (ts : string) (s : side) (acc : store * world)
  : store * world :=
  let '(st, w) := acc in
  let '(st, renames) :=
    fold_left (fun acc ev => Merger.merge p ts s ev acc) (scan s st w) (st, []) in
  (st, fold_left (fun w r => on_side s (Fs.rename (fst r) (snd r)) w) renames w).

End Executor.


(** ** test/support/helpers/scenarios.js (the second unnamed source file) *)

Module Scenarios.
Import Core Sync.

(** An element of [scenario.init]. *)
Record init_item := InitItem {
  init_path : string;
  init_ino : option nat;
  init_trashed : bool;
  init_content : option string
}.

(** An element of [scenario.actions]; [Other] is any type the runner does
    not know. *)
Inductive action :=
| Mkdir (path : string)
| Write (path : string)
| Append (path : string)
| Trash (path : string)
| Delete (path : string)
| Mv (merge force : bool) (src dst : string)
| Wait (ms : nat)
| Other (type : string).

Record scenario := Scenario {
  scenario_side : option string;
  platforms : list string;
  init : list init_item;
  actions : list action;
  expected_tree : list string;
  expected_remoteTrash : list string;
  expected_contents : list (string * string)
}.

(** [_.trimEnd(relpath, '/')] *)
Definition trimEnd_slash (s : string) : string :=
  string_of_list_ascii
    (List.rev (Path.strip_trailing_slashes_rev (List.rev (list_ascii_of_string s)))).

(** What [cozy.files.createDirectory] and [cozy.files.create] do to the
    remote tree: the parent must exist ([statByPath] rejects otherwise). *)
Definition cozy_create (path : string) (k : Fs.kind) (d : Fs.disk)
  : option Fs.disk :=
  if Fs.dir_exists (Fs.dirname path) d then
    match Fs.lookup path d with
    | None => Some (Fs.add path k d)
    | Some _ => None
    end
  else None.

(** [cozy.files.trashById] *)
Definition cozy_trash (path : string) (w : world) : world :=
  Executor.trash_on remote path w.

Definition ino_at (path : string) (d : Fs.disk) : option nat :=
  option_map Fs.ino (Fs.lookup path d).

(** One round of the loop of [init]; the paths to trash remotely at the end
    are collected in the third component. [relpathFix] and [abspath] are
    the identity: paths are relative to the synchronised directory and
    POSIX. *)
Definition init_step (p : platform) (trueino : bool)
    (acc : option (store * world * list string)) (it : init_item)
  : option (store * world * list string) :=
  match acc with
  | None => None
  | Some (st, w, toTrash) =>
      let relpath := init_path it in
      let isOutside := Js.startsWith "../outside" relpath in
      let localPath := trimEnd_slash relpath in
      let is_folder := Js.endsWith "/" relpath in
      let content := if Js.truthy (init_content it)
                     then default "" (init_content it) else "foo" in
      let k := if is_folder then Fs.KDir else Fs.KFile content in
      let local_done :=
        if init_trashed it then Some (disk w)
        else if is_folder then Fs.ensureDir localPath (disk w)
        else Fs.outputFile localPath content (disk w) in
      match local_done with
      | None => None
      | Some dk =>
          let ino :=
            if negb (init_trashed it) && trueino then ino_at localPath dk
            else init_ino it in
          if isOutside then Some (st, World dk (bin w) (cozy w), toTrash)
          else
            match cozy_create localPath k (cozy w) with
            | None => None
            | Some cz =>
                let d :=
                  Doc (id p localPath) localPath
                      (if is_folder then folder else file) 1 1 1
                      (if is_folder then None else Some (digest content))
                      ino (ino_at localPath cz) None false in
                if init_trashed it
                then Some (st, World dk (bin w) cz, (toTrash ++ [localPath])%list)
                else Some (put d st, World dk (bin w) cz, toTrash)
            end
      end
  end.

(** The remote side before a scenario: only its trash. *)
Definition blank : store * world :=
  (Store 0 [] [],
   World Fs.empty [] (Fs.Disk [(remote_trash, Fs.Node Fs.KDir 0)] 1)).

(** [init(scenario, pouch, abspath, relpathFix, trueino)] *)
Definition run_init (p : platform) (trueino : bool) (sc : scenario)
  : option (store * world) :=
  match fold_left (init_step p trueino) (init sc) (Some (fst blank, snd blank, [])) with
  | None => None
  | Some (st, w, toTrash) => Some (st, fold_left (fun w r => cozy_trash r w) toTrash w)
  end.

(** One action of [runActions], on the local directory. *)
Definition run_action (a : action) (d : Fs.disk) : option Fs.disk :=
  match a with
  | Mkdir path => Fs.ensureDir path d
  | Write path => Fs.outputFile path "whatever" d
  | Append path => Fs.appendFile path " blah" d
  | Trash path => Some (Fs.remove path d)
  | Delete path => Some (Fs.remove path d)
  | Mv true _ src dst =>
      match Fs.mergedirs src dst d with
      | Some d => Some (Fs.remove src d)
      | None => None
      end
  | Mv false true src dst => Fs.move_overwrite src dst d
  | Mv false false src dst => Fs.rename src dst d
  | Wait _ => Some d
  | Other _ => None
  end.

(** [runActions(scenario, abspath)]: [Promise.each] stops at the first
    rejection. *)
Definition runActions (sc : scenario) (d : Fs.disk) : option Fs.disk :=
  fold_left (fun acc a => match acc with
                          | Some d => run_action a d
                          | None => None
                          end)
            (actions sc) (Some d).

(** *** The scenario of the third unnamed source file: a local move, then
    an append *)

Definition move_then_append : scenario :=
  Scenario (Some "remote") []
    [ InitItem "src/" None false None;
      InitItem "src/file" None false None ]
    [ Mv false false "src" "dst";
      Append "dst/file" ]
    [ "dst/"; "dst/file" ]
    []
    [ ("dst/file", "foo blah") ].

(** *** test/scenarios/case_and_encoding/identical_additions/complex_dirs/
    win_mac/scenario.js.DISABLED: its actions are in a file that is not at
    hand. *)


(** [scenario.disabled] as [scenarioByPath] sets it. *)
Definition disabled (scenarioPath : string) : bool :=
  Js.endsWith ".DISABLED" scenarioPath.

End Scenarios.


(** ** test/integration/trash.js *)

Module TrashTest.
Import Core Sync.

(** The calls the tests make, to the remote client, to the helpers and to
    Prep. *)
Inductive step :=
| CreateDirectory (path : string)
| Create (path content : string)
| TrashById (path : string)
| PullChanges
| SyncAll
| SpyPouch
| TrashFileAsync (s : side) (path : string)
| TrashFolderAsync (s : side) (path : string).

(** Modelled from the spec: what the helpers of test/support/helpers (which
    are missing) and Prep do with a call, on a POSIX platform: the remote
    client acts on the remote tree, [pullChanges] runs the remote watcher
    into the Merger, [syncAll] drains the Executor, [spyPouch] starts
    recording the documents put, and Prep hands a trash to the Merger. *)
Definition run_step (acc : store * world) (s : step) : store * world :=
  let '(st, w) := acc in
  match s with
  | CreateDirectory path =>
      (st, Executor.on_side remote (Scenarios.cozy_create path Fs.KDir) w)
  | Create path content =>
      (st, Executor.on_side remote (Scenarios.cozy_create path (Fs.KFile content)) w)
  | TrashById path => (st, Scenarios.cozy_trash path w)
  | PullChanges => Executor.pull linux "" remote acc
  | SyncAll => Executor.sync_all acc
  | SpyPouch => (Store (seq st) (changes st) [], w)
  | TrashFileAsync s path => (Core.trash linux s path st, w)
  | TrashFolderAsync s path => (trash_folder linux s path st, w)
  end.

Definition run (steps : list step) : store * world :=
  fold_left run_step steps Scenarios.blank.


(** [beforeEach] of [describe('file')] *)
Definition file_before : list step :=
  [ CreateDirectory "parent";
    Create "parent/file" "File content...";
    PullChanges; SyncAll; SpyPouch ].


(** What a test asserts of the merge: the documents put, as
    [helpers.putDocs] shows them. The trees read back after [syncAll] come
    from helpers that are not among the embedded sources and that set up a
    trash of their own ([helpers.local.setupTrash]); they are left out. *)
Record expectation := Expectation {
  merge_steps : list step;
  expected_putDocs : list (string * bool)
}.

(** [it('local')] of [describe('file')] *)
Definition file_local : expectation :=
  Expectation (file_before ++ [TrashFileAsync local "parent/file"])%list
    [ ("parent/file", true) ].

(** [it('remote')] of [describe('file')] *)
Definition file_remote : expectation :=
  Expectation (file_before ++ [TrashById "parent/file"; PullChanges])%list
    [ ("parent/file", true) ].






(** The store and the sides once [beforeEach] of [describe('file')] has
    run. *)
Definition file_fixture : store * world := run file_before.

(** A document of another file, put while a tombstone waits. *)
Definition other_file : doc :=
  Doc "parent/other" "parent/other" file 1 1 0 (Some "x") (Some 9%nat) None None
      false.

End TrashTest.


(** ** The order of the Executor, in words *)

Module Order.
Import Core.

(** Parents before children: by depth ascending, then by sequence. *)
Definition upsert_spec (a b : nat * doc) : Prop :=
  (Executor.op_depth a < Executor.op_depth b)%nat
  \/ (Executor.op_depth a = Executor.op_depth b /\ (fst a <= fst b)%nat).

(** Children before parents: by depth descending, then by sequence. *)
Definition removal_spec (a b : nat * doc) : Prop :=
  (Executor.op_depth b < Executor.op_depth a)%nat
  \/ (Executor.op_depth a = Executor.op_depth b /\ (fst a <= fst b)%nat).

End Order.


(** ** A batch of pending operations *)

Module Batches.
Import Core Sync.

Definition tombstone_at (path : string) : doc :=
  Doc path path folder 2 2 1 None None None None true.

Definition folder_at (path : string) : doc :=
  Doc path path folder 1 1 0 None None None None false.

(** A folder trashed with what it held, and a folder created with what it
    holds, in the order the store recorded them. *)
Definition mixed : list (nat * doc) :=
  [ (1%nat, tombstone_at "old");
    (2%nat, folder_at "new");
    (3%nat, tombstone_at "old/b");
    (4%nat, folder_at "new/a/x");
    (5%nat, tombstone_at "old/a");
    (6%nat, folder_at "new/a");
    (7%nat, tombstone_at "old/a/x") ].

End Batches.


(** ** The case conflict of scenario S5 *)

Module CaseConflict.
Import Core Sync.








End CaseConflict.


(** ** The store once the local watcher of scenario S5 has run *)

Module CaseConflictRun.
Import Core Sync CaseConflict.


End CaseConflictRun.


(** ** Playing a scenario *)

Module Play.
Import Core Sync Scenarios.

(** Modelled from the spec: a run of a scenario (test/scenarios/run.js is
    missing): the initial tree is set up on both sides, the actions are
    done on the side [s], the watcher of that side hands its events to the
    Merger, and the Executor drains what is pending. The result is the
    events the watcher saw, the store and the two sides. *)
Definition play (p : platform) (ts : string) (s : side) (sc : scenario)
  : option (list event * (store * world)) :=
  match run_init p true sc with
  | None => None
  | Some (st, w) =>
      match runActions sc (side_disk s w) with
      | None => None
      | Some d =>
          let w := set_side s d w in
          Some (scan s st w, Executor.sync_all (Executor.pull p ts s (st, w)))
      end
  end.

(** What a scenario expects of the end of a run. *)
Definition as_expected (sc : scenario) (final : store * world) : Prop :=
  remote_tree_without_trash (snd final) = expected_tree sc
  /\ remote_trash_content (snd final) = expected_remoteTrash sc
  /\ Forall (fun pc => content_at remote (fst pc) (snd final) = Some (snd pc)
                       /\ content_at local (fst pc) (snd final) = Some (snd pc))
            (expected_contents sc)
  /\ listing (Fs.entries (disk (snd final))) = expected_tree sc
  /\ Executor.pending (fst final) = [].

End Play.

(** ** gui/app/main.js: the notice of a new release *)

Module Release.
Import Main.

Definition set_newReleaseAvailable (b : bool) (g : gui) : gui :=
  Gui (genv g) (mainWindow g) (tray g) (diskTimeout g) (state g)
      (errorMessage g) (lastFiles g) b (sent g) (notifications g)
      (lastFilesFile g) (diskUsageRequests g) (listeners g).

(** Whether [checkForNewRelease] gets to register its listeners: it
    returns before it does on a platform other than darwin and win32. *)
Definition checkForNewRelease (e : env) : bool :=
  negb (negb (String.eqb (platform e) "darwin")
        && negb (String.eqb (platform e) "win32")).

(** The listener of [update-downloaded]; [version] and [releaseName] are
    the fields of [updateInfo]. *)
Definition update_downloaded (version releaseName : option string) (g : gui)
  : gui :=
  let name := if Js.truthy version then default "" version else "unknown" in
  let releaseNotes :=
    if Js.truthy releaseName then default "" releaseName
    else "New version " ++ name ++ " available" in
  let g := set_newReleaseAvailable true g in
  sendToMainWindow "new-release-available"
    [Str (Some releaseNotes); Str (Some name)] g.

End Release.

(** ** Runs of the shell *)

Module Session.
Import Main.

Definition set_desktop_sync (b : bool) (g : gui) : gui :=
  let e := genv g in
  Gui (Env (platform e) (dirname e) (translations e) (cozyUrl e) (deviceName e) b)
      (mainWindow g) (tray g) (diskTimeout g) (state g) (errorMessage g)
      (lastFiles g) (newReleaseAvailable g) (sent g) (notifications g)
      (lastFilesFile g) (diskUsageRequests g) (listeners g).

(** What happens to the module once it is started.

    [Emit now ev]: a listener that [startSync] has registered is run on an
    event of the core (for the last two events, a promise of
    [desktop.synchronize] settles and its callback is run). [startSync]
    registers its listeners anew each time it reaches its second branch and
    removes none, so an event that the core emits runs the listeners of
    every registration in turn, each reading the clock for itself: it is
    handled twice after a relaunch, and not at all before the first
    registration. A run of the module is thus any sequence in which these
    calls occur while a registration exists.

    [Start force]: [startSync] is called, when the window is loaded or from
    the tray with [force].

    [Downloaded version releaseName]: the updater has downloaded a release,
    which the listener of [checkForNewRelease] handles if it was
    registered.

    [Synchronizing set]: the core, which is not among the embedded sources,
    sets or clears [desktop.sync], which [startSync] reads. *)
Inductive call :=
| Emit (now : Z) (ev : desktop_event)
| Start (force : bool)
| Downloaded (version releaseName : option string)
| Synchronizing (set : bool).

Definition handle (c : call) (g : gui) : gui :=
  match c with
  | Emit now ev => if (listeners g =? 0)%nat then g else on_event now ev g
  | Start force => startSync force g
  | Downloaded version releaseName =>
      if Release.checkForNewRelease (genv g)
      then Release.update_downloaded version releaseName g
      else g
  | Synchronizing set => set_desktop_sync set g
  end.

Definition run (cs : list call) (g : gui) : gui :=
  fold_left (fun g c => handle c g) cs g.

(** The icon names [selectIcon] chooses among. *)
Definition icons : list string :=
  [ "image"; "video"; "audio"; "pdf"; "binary"; "file"; "archive"; "code";
    "text"; "presentation"; "spreadsheet" ].

(** The item [updateState] inserts in the tray menu in the state "error". *)
Definition relaunch_item (e : env) : menu_item :=
  Item (Some (translate e "Tray Relaunch synchronization")) true (Some RelaunchSync).

Definition quit_item (e : env) : menu_item :=
  Item (Some (translate e "Tray Quit application")) true (Some Quit).

(** The messages a failure has apart from the three that
    [sendErrorToMainWindow] rewrites. *)
Definition plain_message (m : string) : bool :=
  negb (String.eqb m "Client has been revoked")
  && negb (String.eqb m "Cozy is full")
  && negb (String.eqb m "No more disk space").

(** An environment in which [desktop.sync] is set: the synchronisation has
    been started. *)
Definition running_env : env :=
  Env "linux" "/app" ∅ (Some "https://me.mycozy.cloud") (Some "laptop") true.

(** What every call leaves alone between [g] and [g']: the platform and
    the window; no listener is ever removed; and while there is no window,
    nothing is sent and no disk usage is requested. *)
Definition quiet (g g' : gui) : Prop :=
  platform (genv g') = platform (genv g) /\ mainWindow g' = mainWindow g
  /\ (listeners g <= listeners g')%nat
  /\ (mainWindow g = false ->
      sent g' = sent g /\ diskUsageRequests g' = diskUsageRequests g).

(** The list of the last files and its file are as they were. *)
Definition same_files (g g' : gui) : Prop :=
  lastFiles g' = lastFiles g /\ lastFilesFile g' = lastFilesFile g.

End Session.


(** ** Runs that record transfers *)

Module LastFilesRuns.
Import Main MainRuns Session.

(** The synchronisation is started, then a transfer is handled when the
    clock reads 1. *)
Definition recorded_once : gui :=
  run [ Start false; Emit 1 (TransferStarted photo) ]
      (started english_env true None).

(** A second transfer is handled at 2. *)
Definition recorded_twice : gui :=
  run [ Emit 2 (TransferCopy notes) ] recorded_once.

(** The synchronisation fails and is relaunched from the tray: a transfer
    is then handled by the listeners of both registrations, and a move of
    the file as well. *)
Definition relaunched : gui :=
  run [ Start false;
        Emit 1 (SyncFailed (Some "boom"));
        Start true;
        Emit 2 (TransferStarted photo);
        Emit 2 (TransferStarted photo);
        Emit 3 (TransferMove notes photo);
        Emit 3 (TransferMove notes photo) ]
      (started english_env true (Some [])).

End LastFilesRuns.


(** ** gui/app/main.js: the locale, the messages and the restart *)

Module MainText.
Import Main.

(** [/^fr_/i] *)
Definition fr_prefixes : list string := [ "fr_"; "fR_"; "Fr_"; "FR_" ].

(** [setUpLocale]: the value given to [app.locale] when [app.getLocale()]
    answers [locale]. *)
Definition setUpLocale (locale : string) : string :=
  if String.eqb locale "fr" || existsb (fun p => Js.startsWith p locale) fr_prefixes
  then "fr"
  else "en".

(** The file [setUpTranslations] requires. *)
Definition setUpTranslations (locale : string) : string :=
  "./locales/" ++ locale ++ ".json".

(** [\d] *)
Definition is_digit (c : ascii) : bool :=
  (48 <=? nat_of_ascii c)%nat && (nat_of_ascii c <=? 57)%nat.

(** [parseInt(index)] for a run of digits. *)
Definition parseInt (index : string) : nat :=
  fold_left (fun n c => (10 * n + (nat_of_ascii c - 48))%nat)
            (list_ascii_of_string index) 0%nat.

(** [args[i]]: [undefined] past the end. *)
Definition arg_at (args : list (option string)) (i : nat) : option string :=
  match nth_error args i with
  | Some v => v
  | None => None
  end.

(** What [replace] inserts for the value its callback returns. *)
Definition to_text (v : option string) : string := default "undefined" v.

(** [string.replace(/{(\d+)}/g, (_, index) => args[parseInt(index)])], read
    from left to right; [pending] holds the digits read since an opening
    brace that may still start a placeholder. When the placeholder does not
    close, the brace and the digits are copied and the scan goes on with
    the character that broke it. What is inserted is not scanned again. *)
Fixpoint replace_placeholders (args : list (option string))
    (pending : option string) (s : string) : string :=
  match s with
  | EmptyString =>
      match pending with
      | Some digits => "{" ++ digits
      | None => ""
      end
  | String c s' =>
      let outside :=
        if Ascii.eqb c "{" then replace_placeholders args (Some "") s'
        else String c (replace_placeholders args None s') in
      match pending with
      | None => outside
      | Some digits =>
          if is_digit c then
            replace_placeholders args (Some (digits ++ String c "")) s'
          else if Ascii.eqb c "}" && negb (String.eqb digits "") then
            to_text (arg_at args (parseInt digits))
              ++ replace_placeholders args None s'
          else "{" ++ digits ++ outside
      end
  end.

Definition interpolate (str : string) (args : list (option string)) : string :=
  replace_placeholders args None str.

(** The longest run of digits at the head of a text, and what follows. *)
Fixpoint digits_of (s : string) : string * string :=
  match s with
  | String c s' =>
      if is_digit c then (String c (fst (digits_of s')), snd (digits_of s'))
      else ("", s)
  | EmptyString => ("", "")
  end.

(** A match of [/{(\d+)}/] at the head of a text: the index and the text
    after the closing brace. *)
Definition placeholder (s : string) : option (nat * string) :=
  match s with
  | String c s' =>
      if Ascii.eqb c "{" then
        match digits_of s' with
        | (String d ds, String c' rest) =>
            if Ascii.eqb c' "}" then Some (parseInt (String d ds), rest) else None
        | _ => None
        end
      else None
  | EmptyString => None
  end.

Definition platformName (e : env) : string :=
  let p := platform e in
  if String.eqb p "darwin" then "macOS"
  else if String.eqb p "freebsd" then "FreeBSD"
  else if String.eqb p "linux" then "Linux"
  else if String.eqb p "sunos" then "SunOS"
  else if String.eqb p "win32" then "Windows"
  else p.

(** An element of the list the [platform-incompatibilities] event carries;
    [reservedChars] is a collection of characters, any of the other fields
    may be missing. *)
Record incompatibility := Incompatibility {
  name : option string;
  docType : option string;
  reservedChars : option (list string);
  reservedName : option string;
  forbiddenLastChar : option string;
  pathMaxBytes : option Z;
  nameMaxBytes : option Z;
  dirNameMaxBytes : option Z
}.

(** The truthiness of a value that is a number or [undefined]. *)
Definition truthy_number (v : option Z) : bool :=
  match v with
  | Some n => negb (n =? 0)
  | None => false
  end.

(** The array [reasons] of [incompatibilitiesErrorMessage] when the
    function returns. *)
Definition reasons (e : env) (i : incompatibility) : list string :=
  let docType := translate e ("Helpers " ++ to_text (docType i)) in
  let reasons := [] in
  let reasons :=
    match reservedChars i with
    | Some chars =>
        (reasons ++
         [interpolate (translate e "Error {0} names cannot include characters {1}")
                      [Some docType; Some (Js.join " " chars)]])%list
    | None => reasons
    end in
  let reasons :=
    if Js.truthy (reservedName i) then
      (reasons ++
       [interpolate (translate e "Error the “{0}” name is reserved")
                    [reservedName i]])%list
    else reasons in
  let reasons :=
    if Js.truthy (forbiddenLastChar i) then
      (reasons ++
       [interpolate (translate e "Error {0} names cannot end with character {1}")
                    [Some docType; forbiddenLastChar i]])%list
    else reasons in
  let reasons :=
    if truthy_number (pathMaxBytes i) then
      (reasons ++
       [interpolate (translate e "Error it exceeds the path size limit")
                    [Some docType]])%list
    else reasons in
  let reasons :=
    if truthy_number (nameMaxBytes i) then
      (reasons ++
       [interpolate (translate e "Error it exceeds the name size limit")
                    [Some docType]])%list
    else reasons in
  if truthy_number (dirNameMaxBytes i) then
    (reasons ++
     [interpolate (translate e "Error it exceeds the folder name size limit")
                  [Some docType]])%list
  else reasons.

Definition newline : string := String "010" EmptyString.

Definition incompatibilitiesErrorMessage (e : env) (i : incompatibility) : string :=
  let docType := translate e ("Helpers " ++ to_text (docType i)) in
  interpolate
    (translate e
       ("Error The “{0}” {1} cannot be synchronized locally because "
          ++ "{2} on the {3} system."))
    [ name i;
      Some docType;
      Some (Js.join (" " ++ translate e "Helpers and" ++ " ") (reasons e i));
      Some (platformName e) ]
  ++ newline ++ newline ++ translate e "Error You should rename it in your Cozy.".

(** The [ready] handler creates the window unless [--hidden] is among the
    arguments of the process. *)
Definition starts_hidden (argv : list string) : bool :=
  existsb (fun a => String.eqb a "--hidden") argv.

(** [process.argv.slice(1).filter(a => a !== '--isHidden')] *)
Definition restart_args (argv : list string) : list string :=
  List.filter (fun a => negb (String.eqb a "--isHidden")) (tl argv).

(** The [restart] handler: the arguments of the process it spawns,
    [process.argv[0]] first. *)
Definition restart (argv : list string) : list string :=
  match argv with
  | program :: _ => program :: restart_args argv
  | [] => []
  end.

(** An incompatibility of a file whose name is reserved and too long. *)
Definition reserved_and_long : incompatibility :=
  Incompatibility (Some "CON {1}") (Some "file") None (Some "CON") None None
                  (Some 255) None.

End MainText.


(** ** ContextDir.abspath on POSIX, and a directory that cannot be listed *)

Module PosixPath.

(** A name that is neither empty nor [.] nor [..] and holds no separator. *)
Definition plain (segment : string) : bool :=
  ContextDir.valid_name segment
  && negb (String.eqb segment ".") && negb (String.eqb segment "..").

(** [ContextDir.abspath(target)] for a target given as a string. *)
Definition abspath (root target : string) : string := Posix.join [root; target].

(** A directory in which one name cannot be examined. *)
Definition ghost_readdir (dir : string) : option (list string) :=
  if String.eqb dir "/sync" then Some ["a"; "ghost"; "b"] else None.

Definition ghost_stat (path : string) : option bool :=
  if String.eqb path "/sync/ghost" then None else Some false.

End PosixPath.


(** ** test/support/helpers/scenarios.js: the files of a scenario *)

Module ScenarioFiles.
Import Scenarios.

Definition disabledExtension : string := ".DISABLED".

(** [s.replace(/a/g, b)] for two characters. *)
Fixpoint replace_all (a b : ascii) (s : string) : string :=
  match s with
  | EmptyString => EmptyString
  | String c s' => String (if Ascii.eqb c a then b else c) (replace_all a b s')
  end.

(** The separator of Windows paths. *)
Definition backslash : ascii := "092".

(** [s.split('/').join('\\')], which [scenarioByPath] applies on Windows to
    the paths of the expected calls. *)
Definition win32_separators (s : string) : string :=
  Js.join (String backslash "") (Js.split "/" s).

(** A time as the JSON file has it, and once it is made a [Date]. *)
Inductive time :=
| Text (s : string)
| Date (s : string).

Definition new_Date (t : time) : time :=
  match t with
  | Text s => Date s
  | Date s => Date s
  end.

Record stats := Stats { mtime : time; ctime : time }.

(** An event of a recorded file; [event_type] stands for the fields that
    the loader does not touch. *)
Record fs_event := FsEvent {
  event_type : string;
  event_path : option string;
  event_stats : option stats
}.

Record events_file := EventsFile {
  file_name : string;
  events : list fs_event;
  file_disabled : option string
}.

Definition disabledEventsFile (platform name : string) : option string :=
  if String.eqb platform "win32" && (Js.indexOf "win32" name =? -1) then
    Some "darwin/linux test"
  else if Js.endsWith disabledExtension name then Some "disabled case"
  else None.

(** [e.path && e.path.replace(/a/g, b)] *)
Definition convert_path (a b : ascii) (path : option string) : option string :=
  if Js.truthy path then option_map (replace_all a b) path else path.

(** The callback mapped over the events of the file [name]. *)
Definition load_event (platform name : string) (e : fs_event) : fs_event :=
  let stats :=
    option_map (fun s => Stats (new_Date (mtime s)) (new_Date (ctime s)))
               (event_stats e) in
  let path := event_path e in
  let path :=
    if negb (Js.indexOf "win32" name =? -1) && negb (String.eqb platform "win32")
    then convert_path backslash "/" path
    else path in
  let path :=
    if (Js.indexOf "win32" name =? -1) && String.eqb platform "win32"
    then convert_path "/" backslash path
    else path in
  FsEvent (event_type e) path stats.

(** [loadFSEventFiles(scenario)]: [eventFiles] are the files that [glob]
    found, each with the events [fs.readJsonSync] reads from it;
    [disabled] is [scenario.disabled]. *)
Definition loadFSEventFiles (platform : string) (disabled : option string)
    (eventFiles : list (string * list fs_event)) : list events_file :=
  map (fun f =>
         let name := Path.basename (fst f) in
         EventsFile name
           (map (load_event platform name) (snd f))
           (if Js.truthy disabled then disabled
            else disabledEventsFile platform name))
      eventFiles.

(** Two recorded files of one scenario. *)
Definition recorded : list (string * list fs_event) :=
  [ ("/scenarios/move/local/change.win32.json",
     [ FsEvent "unlinkDir" (Some (win32_separators "src/dir")) None;
       FsEvent "addDir" (Some (win32_separators "dst/dir"))
               (Some (Stats (Text "t1") (Text "t2"))) ]);
    ("/scenarios/move/local/change.json",
     [ FsEvent "addDir" (Some "dst/dir") None ]) ].

(** The items of [scenario.init] that get a document: those that are
    neither trashed nor outside the synchronised directory. *)
Definition documented (it : init_item) : bool :=
  negb (init_trashed it) && negb (Js.startsWith "../outside" (init_path it)).

(** What [init] puts for an item: a document of the path of the item, at
    its id, that both sides have seen and that is neither deleted nor
    moved. *)
Definition initial (p : Core.platform) (d : Core.doc) : Prop :=
  Core.doc_id d = Core.id p (Core.path d)
  /\ Core.sides_local d = 1%nat /\ Core.sides_remote d = 1%nat
  /\ Core.deleted d = false /\ Core.moveFrom d = None.

(** A scenario that starts with a file whose directory is not listed. *)
Definition orphan_first : scenario :=
  Scenario None []
    [ InitItem "src/file" None false None; InitItem "src/" None false None ]
    [] [] [] [].

(** The directory of the third source file once its [init] has run. *)
Definition moved_disk_before : Fs.disk :=
  Fs.Disk [("src", Fs.Node Fs.KDir 1); ("src/file", Fs.Node (Fs.KFile "foo") 2)] 3.

Definition moved_disk_after : Fs.disk :=
  Fs.Disk [("dst", Fs.Node Fs.KDir 1); ("dst/file", Fs.Node (Fs.KFile "foo") 2)] 3.

(** A scenario with an action the runner does not know. *)
Definition with_unknown_action : scenario :=
  Scenario None [] []
    [ Mkdir "a"; Other "chmod"; Write "a/b" ]
    [] [] [].

End ScenarioFiles.


(** The message by which [startSync] tells the window a state other than
    "error" when the synchronisation is running already. *)
Module StateReport.
Import Main.

Definition report (state : string) : list ipc :=
  if String.eqb state "up-to-date" || String.eqb state "online"
  then [Ipc "up-to-date" []]
  else if String.eqb state "offline" then [Ipc "offline" []]
  else [].

(** The module after an [offline] event, the synchronisation running. *)
Definition gone_offline : gui :=
  on_event 5 Offline (on_event 4 (TransferStarted MainRuns.photo)
                        (started Session.running_env true None)).

End StateReport.


(** ** gui/app/main.js: the window *)

Module Window.
Import Main.

Definition set_mainWindow (b : bool) (g : gui) : gui :=
  Gui (genv g) b (tray g) (diskTimeout g) (state g) (errorMessage g)
      (lastFiles g) (newReleaseAvailable g) (sent g) (notifications g)
      (lastFilesFile g) (diskUsageRequests g) (listeners g).

(** The module with what the window functions read besides:
    [desktop.config.isValid()], [desktop.config.syncPath], and the tabs of
    the callbacks registered with [once] for the [dom-ready] of the
    current window. *)
Record shell := Shell {
  main : gui;
  config_valid : bool;
  syncPath : option string;
  once_dom_ready : list string
}.

Definition with_main (g : gui) (s : shell) : shell :=
  Shell g (config_valid s) (syncPath s) (once_dom_ready s).

(** [createWindow]: of the new window, only that it exists is kept, and
    that it has no [once] callback yet; its [closed] and [dom-ready]
    listeners are [closed] and [dom_ready] below. *)
Definition createWindow (s : shell) : shell :=
  Shell (set_mainWindow true (main s)) (config_valid s) (syncPath s) [].

(** [showWindow]: an existing window is only focused. *)
Definition showWindow (s : shell) : shell :=
  if mainWindow (main s) then s else createWindow s.

Definition goToTab (tab : string) (s : shell) : shell :=
  let alreadyShown := mainWindow (main s) in
  let s := showWindow s in
  if alreadyShown then
    with_main (sendToMainWindow "go-to-tab" [Str (Some tab)] (main s)) s
  else
    Shell (main s) (config_valid s) (syncPath s) (once_dom_ready s ++ [tab]).

Definition chooseSyncPath (g : gui) : gui :=
  sendToMainWindow "registration-done" [] g.

(** What the timer that [appLoaded] sets runs, if it sets one. *)
Definition appLoaded (s : shell) : shell :=
  if negb (config_valid s) then s
  else if Js.truthy (syncPath s) then with_main (startSync false (main s)) s
  else with_main (chooseSyncPath (main s)) s.

(** The [dom-ready] event of the window: [appLoaded] sets its timer, the
    [once] callbacks run and are forgotten, then the timer fires. *)
Definition dom_ready (s : shell) : shell :=
  let g :=
    fold_left (fun g tab => sendToMainWindow "go-to-tab" [Str (Some tab)] g)
              (once_dom_ready s) (main s) in
  appLoaded (Shell g (config_valid s) (syncPath s) []).

(** The [closed] event of the window: its callbacks go with it. *)
Definition closed (s : shell) : shell :=
  Shell (set_mainWindow false (main s)) (config_valid s) (syncPath s) [].

(** A configured module started with [--hidden]. *)
Definition hidden_start : shell :=
  Shell (started MainRuns.english_env false None) true (Some "/home/me/Cozy") [].

End Window.


(** * Properties *)

(** ** gui/app/main.js *)

Section MainFacts.
Import Main.

Lemma setTrayIcon_frame st g :
  genv (setTrayIcon st g) = genv g /\ mainWindow (setTrayIcon st g) = mainWindow g
  /\ sent (setTrayIcon st g) = sent g /\ lastFiles (setTrayIcon st g) = lastFiles g
  /\ lastFilesFile (setTrayIcon st g) = lastFilesFile g
  /\ state (setTrayIcon st g) = state g
  /\ newReleaseAvailable (setTrayIcon st g) = newReleaseAvailable g.
Proof. unfold setTrayIcon. destruct (String.eqb _ _); repeat split. Qed.

Lemma updateState_frame s f g :
  genv (updateState s f g) = genv g /\ mainWindow (updateState s f g) = mainWindow g
  /\ sent (updateState s f g) = sent g /\ lastFiles (updateState s f g) = lastFiles g
  /\ lastFilesFile (updateState s f g) = lastFilesFile g.
Proof.
  unfold updateState.
  destruct (String.eqb (state g) "error" && String.eqb s "offline"); [repeat split|].
  cbn [state set_state].
  repeat match goal with
         | |- context [if ?b then _ else _] => destruct b
         end;
    cbn; unfold setTrayIcon;
    repeat match goal with
           | |- context [if ?b then _ else _] => destruct b
           end; repeat split.
Qed.
End MainFacts.

Section MainClaims.
Import Main MainRuns.

Lemma sendDiskUsage_frame g :
  genv (sendDiskUsage g) = genv g /\ mainWindow (sendDiskUsage g) = mainWindow g
  /\ sent (sendDiskUsage g) = sent g /\ lastFiles (sendDiskUsage g) = lastFiles g
  /\ lastFilesFile (sendDiskUsage g) = lastFilesFile g
  /\ state (sendDiskUsage g) = state g.
Proof.
  unfold sendDiskUsage.
  destruct (diskTimeout g), (mainWindow g) eqn:E; cbn; rewrite ?E; cbn; repeat split; auto.
Qed.

Lemma sendToMainWindow_sent ch a g :
  mainWindow g = true -> sent (sendToMainWindow ch a g) = (sent g ++ [Ipc ch a])%list.
Proof. unfold sendToMainWindow. intros ->. reflexivity. Qed.

Lemma updateState_offline_noop (file : option string) (g : gui) :
  state g = "error" -> updateState "offline" file g = g.
Proof. intros Hst. unfold updateState. rewrite Hst. reflexivity. Qed.

Lemma offline_event_in_error (now : Z) (g : gui) :
  state g = "error" ->
  state (on_event now Offline g) = "error"
  /\ tray (on_event now Offline g) = tray g
  /\ errorMessage (on_event now Offline g) = errorMessage g.
Proof.
  intros Hst. cbn [on_event]. rewrite (updateState_offline_noop None g Hst).
  unfold sendToMainWindow. destruct (mainWindow g); cbn; auto.
Qed.

(** C9. Once the state is "error", [updateState("offline", ...)] returns at
    once: the state, the tray icon, the error message and the tray menu
    (all of the module state, in fact) are left as they were; and however
    many [offline] events the core emits afterwards, the state stays
    "error" and the tray and the error message stay the same. *)
Theorem updateState_offline_keeps_error (file : option string) (g : gui) :
  state g = "error" ->
  updateState "offline" file g = g
  /\ state (updateState "offline" file g) = "error"
  /\ tray (updateState "offline" file g) = tray g
  /\ errorMessage (updateState "offline" file g) = errorMessage g
  /\ forall times : list Z,
       let g' := fold_left (fun g now => on_event now Offline g) times g in
       state g' = "error" /\ tray g' = tray g
       /\ errorMessage g' = errorMessage g.
Proof.
  intros Hst. rewrite (updateState_offline_noop file g Hst).
  split; [reflexivity|]. split; [exact Hst|].
  split; [reflexivity|]. split; [reflexivity|].
  intros times. revert g Hst.
  induction times as [|now times IH]; intros g Hst g'.
  - subst g'. cbn [fold_left]. split; [exact Hst|]. split; reflexivity.
  - subst g'. cbn [fold_left].
    destruct (offline_event_in_error now g Hst) as (Hs & Ht & He).
    destruct (IH _ Hs) as (Hs' & Ht' & He').
    split; [exact Hs'|]. split; congruence.
Qed.

Lemma updateState_offline_keeps_error_witness :
  state failed_state = "error"
  /\ updateState "offline" None failed_state = failed_state
  /\ state (fold_left (fun g now => on_event now Offline g) [1; 2] failed_state)
     = "error".
Proof.
  assert (H : state failed_state = "error") by (vm_compute; reflexivity).
  split; [exact H|].
  destruct (updateState_offline_keeps_error None failed_state H)
    as (H1 & _ & _ & _ & H5).
  split; [exact H1|]. exact (proj1 (H5 [1; 2])).
Defined.

Lemma updateState_error_state m g : state (updateState "error" m g) = "error".
Proof.
  unfold updateState. rewrite andb_false_r. cbn. unfold setTrayIcon.
  repeat match goal with
         | |- context [if ?b then _ else _] => destruct b
         end; reflexivity.
Qed.

Lemma translate_default e key :
  translations e !! key = None ->
  translate e key = Js.substr (Js.indexOf " " key + 1) key.
Proof. unfold translate. intros ->. reflexivity. Qed.

(** C8, as the specification states it, fails: with a locale that
    translates the key "Error Cozy is full", the window is open and the
    synchronisation fails for lack of space, yet no sync-error message
    carries the text "Cozy is full". *)
Lemma quota_message_counterexample :
  mainWindow (started french_env true None) = true
  /\ ~ In (Ipc "sync-error" [Str (Some "Cozy is full")])
         (sent (on_event 0 (SyncFailed (Some "Cozy is full"))
                  (started french_env true None))).
Proof.
  split; [reflexivity|].
  vm_compute. intros [H|[]]. discriminate H.
Qed.

(** C8, amended. When the synchronisation fails and the window exists, a
    failure whose message is "Client has been revoked" sends [revoked] to
    the window, and one whose message is "Cozy is full" sends a
    [sync-error] whose text is the translation of the key
    "Error Cozy is full"; that text is "Cozy is full" when the locale has
    no entry for the key. In both cases the state becomes "error". *)
Theorem sync_halt_reported (now : Z) (g : gui) :
  mainWindow g = true ->
  let revoked := on_event now (SyncFailed (Some "Client has been revoked")) g in
  let full := on_event now (SyncFailed (Some "Cozy is full")) g in
  sent revoked = (sent g ++ [Ipc "revoked" []])%list
  /\ state revoked = "error"
  /\ sent full
     = (sent g ++ [Ipc "sync-error"
                     [Str (Some (translate (genv g) "Error Cozy is full"))]])%list
  /\ state full = "error"
  /\ (translations (genv g) !! "Error Cozy is full" = None ->
      translate (genv g) "Error Cozy is full" = "Cozy is full").
Proof.
  intros Hw. cbn zeta. unfold on_event, sendErrorToMainWindow. cbn [is_string String.eqb Ascii.eqb Bool.eqb orb].
  cbn -[translate updateState sendDiskUsage sendToMainWindow].
  set (g1 := sendDiskUsage (updateState "error" (Some "Client has been revoked") g)).
  set (g2 := sendDiskUsage (updateState "error" (Some "Cozy is full") g)).
  assert (F1 : mainWindow g1 = true /\ sent g1 = sent g /\ genv g1 = genv g
               /\ state g1 = "error").
  { unfold g1.
    destruct (sendDiskUsage_frame (updateState "error" (Some "Client has been revoked") g))
      as (-> & -> & -> & _ & _ & ->).
    destruct (updateState_frame "error" (Some "Client has been revoked") g)
      as (-> & -> & -> & _).
    rewrite updateState_error_state. auto. }
  assert (F2 : mainWindow g2 = true /\ sent g2 = sent g /\ genv g2 = genv g
               /\ state g2 = "error").
  { unfold g2.
    destruct (sendDiskUsage_frame (updateState "error" (Some "Cozy is full") g))
      as (-> & -> & -> & _ & _ & ->).
    destruct (updateState_frame "error" (Some "Cozy is full") g)
      as (-> & -> & -> & _).
    rewrite updateState_error_state. auto. }
  destruct F1 as (W1 & S1 & E1 & T1). destruct F2 as (W2 & S2 & E2 & T2).
  unfold notify, sendToMainWindow. rewrite W1, W2. cbn.
  rewrite S1, S2, E2, T1, T2.
  repeat split; auto.
  intros Hn. rewrite (translate_default _ _ Hn). reflexivity.
Qed.

Lemma sync_halt_reported_witness :
  mainWindow (started french_env true None) = true
  /\ sent (on_event 7 (SyncFailed (Some "Client has been revoked"))
             (started french_env true None))
     = [Ipc "revoked" []].
Proof.
  split; [reflexivity|].
  exact (proj1 (sync_halt_reported 7 (started french_env true None) eq_refl)).
Defined.

End MainClaims.

Section LastFilesClaims.
Import Main MainRuns LastFiles.

Lemma slice_last_length {A} (n : nat) (l : list A) :
  (length (slice_last n l) <= n)%nat.
Proof. unfold slice_last. rewrite length_skipn. lia. Qed.

Lemma slice_last_sublist {A} (n : nat) (l : list A) : sublist (slice_last n l) l.
Proof. unfold slice_last. apply sublist_drop. Qed.

Lemma filter_bool_sublist {A} (p : A -> bool) (l : list A) :
  sublist (List.filter p l) l.
Proof.
  induction l as [|x l IH]; cbn; [constructor|].
  destruct (p x); [apply sublist_skip | apply sublist_cons]; exact IH.
Qed.

Lemma StronglySorted_sublist {A} (R : relation A) (l k : list A) :
  sublist l k -> StronglySorted R k -> StronglySorted R l.
Proof.
  induction 1 as [|x l k Hs IH|x l k Hs IH]; intros Hk.
  - constructor.
  - apply StronglySorted_inv in Hk as [Hk Hx]. constructor; [auto|].
    rewrite Forall_forall in *. intros y Hy. apply Hx.
    eapply sublist_subseteq; eauto.
  - apply StronglySorted_inv in Hk as [Hk _]. auto.
Qed.

Lemma oldest_first_snoc (l : list file_entry) (f : file_entry) :
  oldest_first l -> Forall (fun x => updated x <= updated f) l ->
  oldest_first (l ++ [f]).
Proof.
  intros Hl Hf. apply StronglySorted_app_2.
  - intros x y Hx Hy. apply list_elem_of_singleton in Hy as ->.
    rewrite Forall_forall in Hf. apply Hf, Hx.
  - exact Hl.
  - repeat constructor.
Qed.

Lemma addFile_lastFiles now i g :
  lastFiles (addFile now i g) = slice_last 250 (lastFiles g ++ [new_file now i])
  /\ lastFilesFile (addFile now i g)
     = LastFilesFile (at_start (lastFilesFile g))
         (writes (lastFilesFile g) ++ [lastFiles (addFile now i g)]).
Proof.
  unfold addFile, persistLastFiles, sendToMainWindow.
  destruct (updateState_frame "syncing" (Some (filename (new_file now i))) g)
    as (_ & Hw & _ & Hl & Hf).
  set (u := updateState "syncing" (Some (filename (new_file now i))) g) in *.
  cbn -[new_file]. rewrite Hw.
  destruct (mainWindow g); cbn -[new_file]; rewrite Hl, Hf; auto.
Qed.

Lemma removeFile_lastFiles i g :
  lastFiles (removeFile i g)
  = List.filter (fun f => negb (String.eqb (path f) (info_path i))) (lastFiles g)
  /\ lastFilesFile (removeFile i g)
     = LastFilesFile (at_start (lastFilesFile g))
         (writes (lastFilesFile g) ++ [lastFiles (removeFile i g)]).
Proof.
  unfold removeFile, persistLastFiles, sendToMainWindow. cbn.
  destruct (mainWindow g); cbn; auto.
Qed.

Lemma last_snoc_two {A} (l : list A) (x y d : A) :
  List.last (l ++ [x; y]) d = y.
Proof.
  replace (l ++ [x; y])%list with ((l ++ [x]) ++ [y])%list
    by now rewrite <- app_assoc.
  apply last_last.
Qed.

Lemma latest_snoc (f : last_files_file) (l : list file_entry) :
  latest (LastFilesFile (at_start f) (writes f ++ [l])) = l.
Proof. unfold latest. cbn [writes at_start]. apply last_last. Qed.

Lemma send_transfers_sent (l : list file_entry) (g : gui) :
  mainWindow g = true ->
  let g' := fold_left (fun g file => sendToMainWindow "transfer" [FileArg file] g) l g in
  sent g' = (sent g ++ map transfer_message l)%list
  /\ mainWindow g' = true /\ genv g' = genv g /\ state g' = state g
  /\ lastFiles g' = lastFiles g.
Proof.
  revert g. induction l as [|f l IH]; intros g Hw; cbn.
  - rewrite app_nil_r. auto.
  - set (g1 := sendToMainWindow "transfer" [FileArg f] g).
    assert (H1 : mainWindow g1 = true /\ sent g1 = (sent g ++ [transfer_message f])%list
                 /\ genv g1 = genv g /\ state g1 = state g /\ lastFiles g1 = lastFiles g).
    { unfold g1, sendToMainWindow. rewrite Hw. cbn. auto. }
    destruct H1 as (W1 & S1 & E1 & T1 & L1).
    destruct (IH g1 W1) as (Hs & Hm & He & Ht & Hl). cbn zeta in *.
    rewrite Hs, Hm, He, Ht, Hl, S1, <- app_assoc. cbn. auto.
Qed.

Lemma started_fields e w file :
  mainWindow (started e w file) = w /\ sent (started e w file) = []
  /\ state (started e w file) = "not-configured"
  /\ lastFiles (started e w file) = default [] file
  /\ genv (started e w file) = e.
Proof.
  unfold started, loadLastFiles, setTrayIcon. cbn.
  destruct file; cbn; destruct (String.eqb (platform e) "darwin"); cbn; auto.
Qed.

(** C4, as the specification states it, fails: once the synchronisation is
    started and two transfers are handled at the times 1 and 2, the list
    handed to the last [fs.writeFile] call, which is the list in memory,
    holds the older entry first, so it is not sorted by [updated]
    descending. *)
Lemma last_files_order_counterexample :
  exists l, latest (lastFilesFile LastFilesRuns.recorded_twice) = l
            /\ lastFiles LastFilesRuns.recorded_twice = l
            /\ map updated l = [1; 2]
            /\ ~ newest_first l.
Proof.
  eexists. split; [vm_compute; reflexivity|]. split; [vm_compute; reflexivity|].
  split; [reflexivity|].
  unfold newest_first. intros H. inversion H as [|a l Hs Hh]; subst.
  inversion Hh as [|b l' Hab]; subst. cbn in Hab. lia.
Qed.

(** A process started on a file that holds [data], with its window, sends
    the window one [transfer] per entry of [data], in the order of the
    list, whichever branch [startSync] takes. *)
Lemma restart_sends_file (e : env) (force : bool) (data : list file_entry) :
  sent (startSync force (started e true (Some data)))
  = Ipc "synchronization" [Str (cozyUrl e); Str (deviceName e)]
      :: map transfer_message data.
Proof.
  unfold startSync.
  destruct (started_fields e true (Some data)) as (W & Hs & T & L & E).
  rewrite E.
  set (g0 := sendToMainWindow "synchronization" _ _).
  assert (H0 : mainWindow g0 = true
               /\ sent g0 = [Ipc "synchronization" [Str (cozyUrl e); Str (deviceName e)]]
               /\ state g0 = "not-configured" /\ lastFiles g0 = data
               /\ genv g0 = e).
  { unfold g0, sendToMainWindow. rewrite W. cbn -[started]. rewrite Hs, T, L, E. auto. }
  destruct H0 as (W0 & S0 & T0 & L0 & E0).
  destruct (send_transfers_sent (lastFiles g0) g0 W0) as (S1 & W1 & E1 & T1 & L1).
  cbn zeta in *. set (g1 := fold_left _ _ _) in *.
  destruct (desktop_sync e && negb force).
  - rewrite T1, T0. cbn.
    destruct (sendDiskUsage_frame g1) as (_ & _ & -> & _).
    rewrite S1, S0, L0. reflexivity.
  - destruct (sendDiskUsage_frame (set_listeners (S (listeners (updateState "syncing" None g1)))
                                     (updateState "syncing" None g1)))
      as (_ & _ & -> & _).
    cbn. destruct (updateState_frame "syncing" None g1) as (_ & _ & -> & _).
    rewrite S1, S0, L0. reflexivity.
Qed.

(** C4, amended. Each time a listener handles a transfer event
    (transfer-started, transfer-copy or transfer-move), the list in memory
    becomes the previous list followed by the new entry, cut to its last
    250 (and, for a move, without the entries of the old path), and a write
    of it to the file at [lastFilesPath] is started: the data handed to the
    last [fs.writeFile] call is the list in memory. A move starts two
    writes, the first of the list that still holds the old path. The list
    has at most 250 entries and keeps the order of recording, so [updated]
    never decreases along it when the clock never goes back. A process
    restarted with its window on a file that holds a list sends the window
    one [transfer] per entry of that list, in its order. *)
Theorem last_files_persisted (now : Z) (ev : desktop_event) (i : info) (g : gui) :
  transfer_info ev = Some i ->
  let g' := on_event now ev g in
  let recorded := slice_last 250 (lastFiles g ++ [new_file now i]) in
  at_start (lastFilesFile g') = at_start (lastFilesFile g)
  /\ writes (lastFilesFile g')
     = (writes (lastFilesFile g)
        ++ match ev with
           | TransferMove _ _ => [recorded; lastFiles g']
           | _ => [lastFiles g']
           end)%list
  /\ latest (lastFilesFile g') = lastFiles g'
  /\ (length (lastFiles g') <= 250)%nat
  /\ lastFiles g'
     = match ev with
       | TransferMove _ old =>
           List.filter (fun f => negb (String.eqb (path f) (info_path old))) recorded
       | _ => recorded
       end
  /\ sublist (lastFiles g') (lastFiles g ++ [new_file now i])%list
  /\ (oldest_first (lastFiles g) ->
      Forall (fun f => updated f <= now) (lastFiles g) ->
      oldest_first (lastFiles g'))
  /\ forall e force data,
       sent (startSync force (started e true (Some data)))
       = Ipc "synchronization" [Str (cozyUrl e); Str (deviceName e)]
           :: map transfer_message data.
Proof.
  intros Hev g' recorded.
  assert (Hrec : sublist recorded (lastFiles g ++ [new_file now i])%list).
  { apply slice_last_sublist. }
  assert (Hlen : (length recorded <= 250)%nat) by apply slice_last_length.
  assert (Hadd : lastFiles (addFile now i g) = recorded) by apply addFile_lastFiles.
  assert (H : lastFilesFile g'
              = LastFilesFile (at_start (lastFilesFile g))
                  (writes (lastFilesFile g)
                   ++ match ev with
                      | TransferMove _ _ => [recorded; lastFiles g']
                      | _ => [lastFiles g']
                      end)
              /\ lastFiles g'
                 = match ev with
                   | TransferMove _ old =>
                       List.filter
                         (fun f => negb (String.eqb (path f) (info_path old)))
                         recorded
                   | _ => recorded
                   end).
  { unfold g'. destruct ev; try discriminate Hev; injection Hev as ->; cbn [on_event].
    - split; [apply addFile_lastFiles | exact Hadd].
    - split; [apply addFile_lastFiles | exact Hadd].
    - destruct (removeFile_lastFiles old (addFile now i g)) as [E ->].
      destruct (addFile_lastFiles now i g) as [_ ->].
      cbn [at_start writes]. rewrite E, Hadd, <- app_assoc. auto. }
  destruct H as [Hfile Hlist].
  assert (Hsub : sublist (lastFiles g') recorded).
  { rewrite Hlist. destruct ev; try reflexivity. apply filter_bool_sublist. }
  split; [now rewrite Hfile|]. split; [now rewrite Hfile|]. split.
  { rewrite Hfile. unfold latest. cbn [writes at_start].
    destruct ev; try discriminate Hev;
      first [ apply last_last | apply last_snoc_two ]. }
  split.
  { apply sublist_length in Hsub. lia. }
  split; [exact Hlist|]. split.
  { etransitivity; eauto. }
  split.
  { intros Hs Hf. eapply StronglySorted_sublist; [etransitivity; eauto|].
    apply oldest_first_snoc; [exact Hs|]. exact Hf. }
  intros e force data. apply restart_sends_file.
Qed.

Lemma last_files_persisted_witness :
  transfer_info (TransferCopy notes) = Some notes
  /\ latest (lastFilesFile (on_event 2 (TransferCopy notes) LastFilesRuns.recorded_once))
     = lastFiles (on_event 2 (TransferCopy notes) LastFilesRuns.recorded_once)
  /\ (length (lastFiles (on_event 2 (TransferCopy notes) LastFilesRuns.recorded_once))
      <= 250)%nat.
Proof.
  split; [reflexivity|].
  pose proof (last_files_persisted 2 (TransferCopy notes) notes
                LastFilesRuns.recorded_once eq_refl) as H.
  cbn zeta in H. destruct H as (_ & _ & H1 & H2 & _). split; [exact H1 | exact H2].
Defined.
End LastFilesClaims.

(** ** ContextDir.tree *)

Section StringFacts.

Lemma string_app_cons (x : ascii) (a b : string) :
  String x a ++ b = String x (a ++ b).
Proof. reflexivity. Qed.

Lemma string_app_assoc (a b c : string) : (a ++ b) ++ c = a ++ (b ++ c).
Proof.
  induction a as [|x a IH]; [reflexivity|].
  rewrite !string_app_cons. now rewrite IH.
Qed.

Lemma string_app_nil_r (a : string) : a ++ "" = a.
Proof.
  induction a as [|x a IH]; [reflexivity|]. rewrite string_app_cons. now rewrite IH.
Qed.

Lemma string_app_length (a b : string) :
  String.length (a ++ b) = (String.length a + String.length b)%nat.
Proof.
  induction a as [|x a IH]; [reflexivity|].
  rewrite string_app_cons. cbn. now rewrite IH.
Qed.

Lemma slice_app (a b : string) : Js.slice (String.length a) (a ++ b) = b.
Proof.
  induction a as [|x a IH]; [destruct b; reflexivity|].
  rewrite string_app_cons. cbn. exact IH.
Qed.

Lemma split_not_nil (c : ascii) (s : string) : Js.split c s <> [].
Proof.
  induction s as [|a s IH]; cbn; [discriminate|].
  destruct (Ascii.eqb a c); [discriminate|].
  destruct (Js.split c s); [contradiction|discriminate].
Qed.

Lemma join_cons_cons (sep x y : string) (l : list string) :
  Js.join sep (x :: y :: l) = x ++ sep ++ Js.join sep (y :: l).
Proof. reflexivity. Qed.

Lemma join_split (c : ascii) (s : string) :
  Js.join (String c "") (Js.split c s) = s.
Proof.
  induction s as [|a s IH]; [reflexivity|]. cbn [Js.split].
  destruct (Ascii.eqb a c) eqn:E.
  - apply Ascii.eqb_eq in E as ->.
    pose proof (split_not_nil c s) as Hn.
    destruct (Js.split c s) as [|x xs]; [contradiction|].
    rewrite join_cons_cons, IH. reflexivity.
  - pose proof (split_not_nil c s) as Hn.
    destruct (Js.split c s) as [|x xs]; [contradiction|].
    destruct xs as [|y xs].
    + cbn in *. now rewrite IH.
    + rewrite join_cons_cons in *. rewrite string_app_cons. now rewrite IH.
Qed.

Lemma includes_char_cons (x a : ascii) (s : string) :
  Js.includes (String x "") (String a s)
  = Ascii.eqb x a || Js.includes (String x "") s.
Proof.
  unfold Js.includes. cbn [Js.indexOf Js.startsWith].
  destruct (Ascii.eqb x a); [reflexivity|]. cbn [orb].
  destruct (Js.indexOf (String x "") s <? 0) eqn:E.
  - apply Z.ltb_lt in E. transitivity false; [reflexivity|].
    symmetry. apply Z.leb_gt. exact E.
  - apply Z.ltb_ge in E. transitivity true; [apply Z.leb_le; lia|].
    symmetry. apply Z.leb_le. exact E.
Qed.

Lemma join_snoc (sep : string) (segs : list string) (name : string) :
  segs <> [] ->
  Js.join sep (segs ++ [name])%list = Js.join sep segs +:+ sep +:+ name.
Proof.
  induction segs as [|x segs IH]; intros Hne; [contradiction|].
  destruct segs as [|y segs]; [reflexivity|].
  change ((x :: y :: segs) ++ [name])%list with (x :: y :: (segs ++ [name]))%list.
  rewrite !join_cons_cons.
  change (y :: segs ++ [name])%list with ((y :: segs) ++ [name])%list.
  rewrite IH by discriminate. now rewrite !string_app_assoc.
Qed.

Lemma posixifyPath_posix (s : string) : ContextDir.posixifyPath s = s.
Proof. apply join_split. Qed.

End StringFacts.

Section NameFacts.
Import ContextDir.
Local Open Scope list_scope.

Lemma includes_slash_cons (a : ascii) (s : string) :
  Js.includes "/" (String a s) = Ascii.eqb "/" a || Js.includes "/" s.
Proof.
  unfold Js.includes. cbn [Js.indexOf Js.startsWith].
  destruct (Ascii.eqb "/" a); [reflexivity|]. cbn [orb].
  destruct (Js.indexOf "/" s <? 0) eqn:E.
  - apply Z.ltb_lt in E. transitivity false; [reflexivity|].
    symmetry. apply Z.leb_gt. exact E.
  - apply Z.ltb_ge in E. transitivity true; [apply Z.leb_le; lia|].
    symmetry. apply Z.leb_le. exact E.
Qed.

Lemma valid_name_no_slash (s : string) :
  valid_name s = true -> s <> ""%string /\ no_slash s.
Proof.
  unfold valid_name, no_slash. intros H. apply andb_true_iff in H as [H1 H2].
  apply negb_true_iff in H1, H2. split; [|exact H2].
  intros ->. discriminate H1.
Qed.

Lemma split_no_slash (s : string) : no_slash s -> Js.split "/" s = [s].
Proof.
  unfold no_slash. induction s as [|a s IH]; [reflexivity|].
  rewrite includes_slash_cons. intros H. apply orb_false_iff in H as [Ha Hs].
  cbn [Js.split]. rewrite Ascii.eqb_sym, Ha, (IH Hs). reflexivity.
Qed.

Lemma split_app_slash (s t : string) :
  no_slash s -> Js.split "/" (s +:+ "/" +:+ t) = s :: Js.split "/" t.
Proof.
  unfold no_slash. induction s as [|a s IH]; [reflexivity|].
  rewrite includes_slash_cons. intros H. apply orb_false_iff in H as [Ha Hs].
  rewrite string_app_cons. cbn [Js.split]. rewrite Ascii.eqb_sym, Ha, (IH Hs).
  reflexivity.
Qed.

Lemma split_join (segs : list string) :
  segs <> [] -> Forall no_slash segs -> Js.split "/" (Js.join "/" segs) = segs.
Proof.
  induction segs as [|x segs IH]; intros Hne Hall; [contradiction|].
  apply Forall_cons in Hall as [Hx Hall].
  destruct segs as [|y segs]; [now apply split_no_slash|].
  rewrite join_cons_cons, split_app_slash by exact Hx.
  rewrite IH; [reflexivity|discriminate|exact Hall].
Qed.

Lemma join_snoc_empty (segs : list string) :
  segs <> [] -> Js.join "/" (segs ++ [""%string]) = Js.join "/" segs +:+ "/".
Proof.
  induction segs as [|x segs IH]; intros Hne; [contradiction|].
  destruct segs as [|y segs]; [reflexivity|].
  change ((x :: y :: segs) ++ [""%string]) with (x :: y :: (segs ++ [""%string])).
  rewrite !join_cons_cons.
  change (y :: segs ++ [""%string]) with ((y :: segs) ++ [""%string]).
  rewrite IH by discriminate. now rewrite !string_app_assoc.
Qed.

Lemma show_join (e : list string * bool) :
  fst e <> [] -> show e = Js.join "/" (shown_segments e).
Proof.
  intros Hne. unfold show, shown_segments. destruct (snd e).
  - now rewrite join_snoc_empty.
  - now rewrite app_nil_r, string_app_nil_r.
Qed.

Lemma split_show (e : list string * bool) :
  valid_entry e -> Js.split "/" (show e) = shown_segments e.
Proof.
  intros [Hne Hall]. rewrite show_join by exact Hne. apply split_join.
  - unfold shown_segments. destruct (fst e); [contradiction|discriminate].
  - unfold shown_segments. apply Forall_app. split.
    + eapply Forall_impl; [exact Hall|]. intros s Hs. now apply valid_name_no_slash.
    + destruct (snd e); repeat constructor.
Qed.

Lemma show_inj (e1 e2 : list string * bool) :
  valid_entry e1 -> valid_entry e2 -> show e1 = show e2 -> e1 = e2.
Proof.
  intros H1 H2 Heq.
  assert (Hs : shown_segments e1 = shown_segments e2).
  { rewrite <- (split_show e1 H1), <- (split_show e2 H2). now rewrite Heq. }
  destruct e1 as [s1 d1], e2 as [s2 d2]. unfold shown_segments in Hs. cbn [fst snd] in *.
  assert (Hemp : forall s, Forall (fun s => valid_name s = true) s -> ~ In ""%string s).
  { intros s Hall Hin. rewrite Forall_forall in Hall.
    apply list_elem_of_In, Hall in Hin. discriminate Hin. }
  destruct H1 as [_ V1], H2 as [_ V2]. cbn [fst] in *.
  destruct d1, d2.
  - apply app_inj_tail in Hs as [-> _]. reflexivity.
  - rewrite app_nil_r in Hs. exfalso. apply (Hemp s2 V2). rewrite <- Hs.
    apply in_or_app. right. now left.
  - rewrite app_nil_r in Hs. exfalso. apply (Hemp s1 V1). rewrite Hs.
    apply in_or_app. right. now left.
  - rewrite !app_nil_r in Hs. now subst.
Qed.

End NameFacts.

Section ListingFacts.
Import ContextDir.
Local Open Scope list_scope.

Context {platform_path : Path.flavour}.

Lemma listed_valid (s : string) : listed_name s = true -> valid_name s = true.
Proof.
  unfold listed_name. intros H.
  apply andb_true_iff in H as [H _]. apply andb_true_iff in H as [H _].
  apply andb_true_iff in H as [H _]. exact H.
Qed.

Lemma entry_ind_nested (P : entry -> Prop) :
  (forall name, P (File name)) ->
  (forall name children, Forall P children -> P (Dir name children)) ->
  forall e, P e.
Proof.
  intros HF HD. fix IH 1. intros [name|name children].
  - apply HF.
  - apply HD. induction children as [|c cs IHcs]; constructor.
    + apply IH.
    + exact IHcs.
Qed.

Lemma well_named_dir (name : string) (children : list entry) :
  well_named (Dir name children) ->
  listed_name name = true /\ NoDup (map name_of children)
  /\ Forall well_named children.
Proof.
  cbn. intros (Hn & Hd & Hc). split; [exact Hn|]. split; [exact Hd|].
  clear Hn Hd. induction children as [|c cs IH]; [constructor|].
  destruct Hc as [Hc Hcs]. constructor; auto.
Qed.

Lemma below_shape (e : entry) :
  forall segs x, In x (below segs e) ->
  exists rest, fst x = segs ++ name_of e :: rest.
Proof.
  induction e as [name|name children IH] using entry_ind_nested; intros segs x Hx.
  - destruct Hx as [<-|[]]. exists []. reflexivity.
  - destruct Hx as [<-|Hx]; [exists []; reflexivity|].
    apply in_flat_map in Hx as (c & Hc & Hx).
    rewrite Forall_forall in IH. apply list_elem_of_In in Hc.
    destruct (IH c Hc _ _ Hx) as [rest Hrest].
    exists (name_of c :: rest). rewrite Hrest, <- app_assoc. reflexivity.
Qed.

Lemma below_valid (e : entry) :
  well_named e ->
  forall segs x, Forall (fun s => valid_name s = true) segs ->
  In x (below segs e) -> valid_entry x.
Proof.
  induction e as [name|name children IH] using entry_ind_nested;
    intros Hwn segs x Hsegs Hx.
  - destruct Hx as [<-|[]]. split; cbn [fst].
    + now destruct segs.
    + apply Forall_app. split; [exact Hsegs|]. repeat constructor.
      apply listed_valid. exact Hwn.
  - apply well_named_dir in Hwn as (Hn & _ & Hcs).
    assert (Hsegs' : Forall (fun s => valid_name s = true) (segs ++ [name])).
    { apply Forall_app. split; [exact Hsegs|]. repeat constructor.
      apply listed_valid. exact Hn. }
    destruct Hx as [<-|Hx].
    + split; cbn [fst]; [now destruct segs | exact Hsegs'].
    + apply in_flat_map in Hx as (c & Hc & Hx).
      rewrite Forall_forall in IH, Hcs. apply list_elem_of_In in Hc.
      exact (IH c Hc (Hcs c Hc) _ _ Hsegs' Hx).
Qed.

Lemma flat_map_below_NoDup (segs : list string) (cs : list entry) :
  NoDup (map name_of cs) ->
  Forall (fun c => NoDup (below segs c)) cs ->
  NoDup (flat_map (below segs) cs).
Proof.
  induction cs as [|c cs IH]; intros Hn Hc; [constructor|].
  cbn [map] in Hn. apply NoDup_cons in Hn as [Hnotin Hn].
  apply Forall_cons in Hc as [Hc Hcs].
  cbn [flat_map]. apply NoDup_app. split; [exact Hc|]. split; [|now apply IH].
  intros x Hx Hx'. apply list_elem_of_In in Hx, Hx'.
  apply in_flat_map in Hx' as (c' & Hc' & Hx').
  destruct (below_shape c segs x Hx) as [r Hr].
  destruct (below_shape c' segs x Hx') as [r' Hr'].
  rewrite Hr in Hr'. apply app_inv_head in Hr'. injection Hr' as Hname _.
  apply Hnotin. rewrite Hname. apply list_elem_of_In, in_map, Hc'.
Qed.

Lemma below_NoDup (e : entry) :
  well_named e -> forall segs, NoDup (below segs e).
Proof.
  induction e as [name|name children IH] using entry_ind_nested; intros Hwn segs.
  - cbn. repeat constructor. intros H. inversion H.
  - apply well_named_dir in Hwn as (_ & Hd & Hcs).
    cbn [below]. apply NoDup_cons. split.
    + intros Hin. apply list_elem_of_In, in_flat_map in Hin as (c & Hc & Hin).
      destruct (below_shape c _ _ Hin) as [r Hr]. cbn [fst] in Hr.
      apply (f_equal (@length string)) in Hr.
      rewrite !length_app in Hr. cbn in Hr. lia.
    + apply flat_map_below_NoDup; [exact Hd|].
      rewrite Forall_forall in *. intros c Hc. apply IH; auto.
Qed.

Lemma listing_NoDup (cs : list entry) :
  well_named_root cs -> NoDup (map show (listing cs)).
Proof.
  intros [Hd Hcs]. unfold listing.
  assert (Hvalid : forall x, In x (flat_map (below []) cs) -> valid_entry x).
  { intros x Hx. apply in_flat_map in Hx as (c & Hc & Hx).
    rewrite Forall_forall in Hcs. apply list_elem_of_In in Hc.
    eapply below_valid; [apply Hcs, Hc|constructor|exact Hx]. }
  apply NoDup_fmap_2_strong.
  - intros x y Hx Hy. apply show_inj; apply Hvalid; now apply list_elem_of_In.
  - apply flat_map_below_NoDup; [exact Hd|].
    rewrite Forall_forall in *. intros c Hc. apply below_NoDup; auto.
Qed.

Lemma filter_bool_Permutation {A} (p : A -> bool) (l k : list A) :
  Permutation l k -> Permutation (List.filter p l) (List.filter p k).
Proof.
  induction 1 as [|x l k H IH|x y l|l k m H1 IH1 H2 IH2]; cbn.
  - reflexivity.
  - destruct (p x); [apply perm_skip|]; exact IH.
  - destruct (p x), (p y); try reflexivity. apply perm_swap.
  - etransitivity; eauto.
Qed.

End ListingFacts.

(** ** The metadata store and the trash of a document *)

Section StoreFacts.
Import Core.
Local Open Scope list_scope.

Lemma find_app_none {A} (f : A -> bool) (l k : list A) :
  List.find f l = None -> List.find f (l ++ k) = List.find f k.
Proof.
  induction l as [|x l IH]; [reflexivity|]. cbn.
  destruct (f x); [discriminate|]. exact IH.
Qed.

Lemma find_filter_negb {A} (f : A -> bool) (l : list A) :
  List.find f (List.filter (fun e => negb (f e)) l) = None.
Proof.
  induction l as [|x l IH]; [reflexivity|]. cbn.
  destruct (f x) eqn:E; cbn; [exact IH|]. rewrite E. exact IH.
Qed.

Lemma by_id_doc_id (i : string) (st : store) (d : doc) :
  by_id i st = Some d -> doc_id d = i.
Proof.
  unfold by_id. destruct (List.find (has_id i) (changes st)) as [e|] eqn:E;
    [|discriminate].
  intros [= <-]. apply find_some in E as [_ E]. now apply String.eqb_eq in E.
Qed.

Lemma by_id_put (d : doc) (st : store) : by_id (doc_id d) (put d st) = Some d.
Proof.
  unfold by_id, put. cbn [changes].
  rewrite find_app_none by apply find_filter_negb.
  cbn. unfold has_id. cbn. now rewrite String.eqb_refl.
Qed.

Lemma by_id_delete (i : string) (st : store) : by_id i (delete i st) = None.
Proof. unfold by_id, delete. cbn [changes]. now rewrite find_filter_negb. Qed.

Lemma put_in_changes (d : doc) (st : store) :
  In (S (seq st), d) (changes (put d st)).
Proof. unfold put. cbn [changes]. apply in_or_app. right. now left. Qed.

Lemma bump_fields (s : side) (d : doc) (del : bool) :
  doc_id (bump s d del) = doc_id d /\ path (bump s d del) = path d
  /\ deleted (bump s d del) = del /\ rev (bump s d del) = S (rev d)
  /\ sides s (bump s d del) = S (rev d)
  /\ sides (other s) (bump s d del) = sides (other s) d.
Proof. destruct s; repeat split. Qed.

Lemma find_filter_keep {A} (f g : A -> bool) (l : list A) :
  (forall x, f x = true -> g x = true) ->
  List.find f (List.filter g l) = List.find f l.
Proof.
  intros Hfg. induction l as [|x l IH]; [reflexivity|]. cbn.
  destruct (g x) eqn:Eg; cbn.
  - destruct (f x); [reflexivity|exact IH].
  - destruct (f x) eqn:Ef; [|exact IH]. apply Hfg in Ef. congruence.
Qed.

Lemma find_app_some {A} (f : A -> bool) (l k : list A) (x : A) :
  List.find f l = Some x -> List.find f (l ++ k) = Some x.
Proof.
  induction l as [|y l IH]; [discriminate|]. cbn.
  destruct (f y); [auto|exact IH].
Qed.

Lemma by_id_put_other (i : string) (d : doc) (st : store) :
  doc_id d <> i -> by_id i (put d st) = by_id i st.
Proof.
  intros Hne. unfold by_id, put. cbn [changes].
  assert (Hkeep : forall e, has_id i e = true -> negb (has_id (doc_id d) e) = true).
  { intros e He. unfold has_id in *. apply String.eqb_eq in He.
    apply negb_true_iff, String.eqb_neq. congruence. }
  destruct (List.find (has_id i) (changes st)) as [e|] eqn:E.
  - erewrite find_app_some; [reflexivity|].
    now rewrite find_filter_keep.
  - rewrite find_app_none by now rewrite find_filter_keep.
    cbn. unfold has_id at 1. cbn [snd].
    now replace (String.eqb (doc_id d) i) with false
      by (symmetry; now apply String.eqb_neq).
Qed.

End StoreFacts.

Section TombstoneFacts.
Import Core Sync TrashTest.
Local Open Scope list_scope.

Lemma by_id_delete_other (i j : string) (st : store) :
  i <> j -> by_id i (delete j st) = by_id i st.
Proof.
  intros Hne. unfold by_id, delete. cbn [changes].
  rewrite find_filter_keep; [reflexivity|].
  intros e He. unfold has_id in *. apply String.eqb_eq in He.
  apply negb_true_iff, String.eqb_neq. congruence.
Qed.

Lemma acknowledge_other (i : string) (s : side) (d : doc) (st : store) :
  doc_id d <> i -> by_id i (acknowledge s d st) = by_id i st.
Proof.
  intros Hne. unfold acknowledge.
  destruct (by_id (doc_id d) st) as [d'|] eqn:E; [|reflexivity].
  pose proof (by_id_doc_id _ _ _ E) as Hid.
  destruct (deleted d'); [|reflexivity].
  destruct s;
    match goal with
    | |- context [if ?b then _ else _] => destruct b
    end; try reflexivity; apply by_id_delete_other; congruence.
Qed.

(** A side that reports a deletion while the other side has not applied it
    leaves the tombstone in the store. *)
Lemma acknowledge_early (s : side) (d t : doc) (st : store) :
  by_id (doc_id d) st = Some t ->
  (sides (other s) t < rev t)%nat ->
  acknowledge s d st = st.
Proof.
  intros Ht Hlt. unfold acknowledge. rewrite Ht.
  destruct (deleted t); [|reflexivity].
  destruct s; cbn [other sides] in Hlt;
    match goal with
    | |- context [(?a =? ?b)%nat] => destruct (Nat.eqb_spec a b)
    end; try reflexivity; lia.
Qed.

Lemma side_eqb_eq (a b : side) : side_eqb a b = true -> a = b.
Proof. destruct a, b; intros H; try reflexivity; discriminate H. Qed.

Lemma spared (i : string) (s : side) (t : doc) (w : write) (st : store) :
  by_id i st = Some t ->
  (sides (other s) t < rev t)%nat ->
  spares i s w = true ->
  by_id i (apply_write st w) = Some t.
Proof.
  intros Ht Hlt Hw. destruct w as [d|s' d]; cbn [apply_write spares] in *.
  - rewrite by_id_put_other; [exact Ht|].
    now apply negb_true_iff, String.eqb_neq in Hw.
  - destruct (String.eqb_spec (doc_id d) i) as [Heq|Hne].
    + cbn in Hw. apply side_eqb_eq in Hw as ->.
      rewrite (acknowledge_early s d t st); [exact Ht| |exact Hlt].
      now rewrite Heq.
    + rewrite acknowledge_other; [exact Ht|exact Hne].
Qed.

Lemma spared_all (i : string) (s : side) (t : doc) (ws : list write) :
  (sides (other s) t < rev t)%nat ->
  Forall (fun w => spares i s w = true) ws ->
  forall st, by_id i st = Some t ->
             by_id i (fold_left apply_write ws st) = Some t.
Proof.
  intros Hlt. induction 1 as [|w ws Hw Hws IH]; intros st Ht; [exact Ht|].
  cbn [fold_left]. apply IH. now apply (spared i s t w st).
Qed.

Lemma by_id_in_changes (i : string) (st : store) (d : doc) :
  by_id i st = Some d -> In d (map snd (changes st)).
Proof.
  unfold by_id. destruct (List.find (has_id i) (changes st)) as [e|] eqn:E;
    [|discriminate].
  intros [= <-]. apply find_some in E as [E _]. now apply in_map.
Qed.

End TombstoneFacts.

Section TombstoneClaim.
Import Core Sync TrashTest.
Local Open Scope list_scope.

(** C3. After a trash event for a live document is merged, the store holds
    the document under its id as a tombstone (deleted=true), and the side
    that has not seen the deletion is the one the Executor has to apply it
    on. The tombstone stays retrievable by id, and in the changes feed,
    through every later write that is about another document or that is a
    report of the side the trash came from: it is not removed before the
    other side has applied the deletion. Once the Executor has applied it
    there, both sides have reached the deleted state and the document is
    physically removed. (Invariant 1 of the data model is assumed of the
    document: a side is never ahead of the revision.) *)
Theorem tombstone_kept_until_acknowledged
    (p : platform) (s : side) (path : string) (st : store) (d : doc)
    (ws : list write) (batch : list doc) (w : world) :
  by_id (id p path) st = Some d ->
  deleted d = false ->
  (sides (other s) d <= rev d)%nat ->
  Forall (fun wr => spares (id p path) s wr = true) ws ->
  let tombstone := bump s d true in
  let merged := Core.trash p s path st in
  let later := fold_left apply_write ws merged in
  get (id p path) merged = Some tombstone
  /\ deleted tombstone = true
  /\ Executor.target tombstone = Some (other s)
  /\ get (id p path) later = Some tombstone
  /\ In tombstone (map snd (changes later))
  /\ get (id p path) (acknowledge s tombstone later) = Some tombstone
  /\ get (id p path) (fst (Executor.apply_one batch (later, w) tombstone)) = None.
Proof.
  intros Hd Hlive Hside Hws tombstone merged later.
  pose proof (by_id_doc_id _ _ _ Hd) as Hid.
  assert (Hst : merged = put tombstone st).
  { unfold merged, Core.trash. now rewrite Hd, Hlive. }
  assert (Htid : doc_id tombstone = id p path).
  { unfold tombstone. now destruct s. }
  assert (Hlt : (sides (other s) tombstone < rev tombstone)%nat).
  { unfold tombstone. destruct s; cbn in *; lia. }
  assert (Hget : by_id (id p path) merged = Some tombstone).
  { rewrite Hst, <- Htid. apply by_id_put. }
  assert (Hlater : by_id (id p path) later = Some tombstone).
  { now apply (spared_all (id p path) s tombstone ws Hlt Hws merged). }
  assert (Htarget : Executor.target tombstone = Some (other s)).
  { unfold Executor.target, tombstone in *.
    destruct s; cbn [sides other bump sides_local sides_remote rev] in *;
      repeat match goal with
             | |- context [(?a <? ?b)%nat] => destruct (Nat.ltb_spec a b)
             end; try reflexivity; lia. }
  unfold get.
  split; [exact Hget|]. split; [now destruct s|]. split; [exact Htarget|].
  split; [exact Hlater|]. split; [now apply (by_id_in_changes (id p path))|].
  split.
  { rewrite (acknowledge_early s tombstone tombstone later);
      [exact Hlater|now rewrite Htid|exact Hlt]. }
  unfold Executor.apply_one. rewrite Htarget.
  assert (Hdel : deleted tombstone = true) by now destruct s.
  rewrite Hdel. cbn [fst].
  set (seen := Executor.advance (other s) None tombstone).
  assert (Hsid : doc_id seen = id p path) by (unfold seen; now destruct s).
  unfold acknowledge. rewrite Htid, <- Hsid, by_id_put.
  assert (Hsdel : deleted seen = true) by (unfold seen; now destruct s).
  rewrite Hsdel.
  destruct s; cbn [other]; unfold seen, tombstone; cbn;
    rewrite Nat.eqb_refl; apply by_id_delete.
Qed.

Lemma tombstone_kept_until_acknowledged_witness :
  exists d tombstone,
    by_id (id linux "parent/file") (fst file_fixture) = Some d
    /\ deleted d = false
    /\ tombstone = bump local d true
    /\ get (id linux "parent/file")
         (fold_left apply_write
            [Acknowledge local tombstone; Put other_file]
            (Core.trash linux local "parent/file" (fst file_fixture)))
       = Some tombstone.
Proof.
  eexists. eexists. split; [vm_compute; reflexivity|]. split; [reflexivity|].
  split; [reflexivity|].
  refine (proj1 (proj2 (proj2 (proj2
    (tombstone_kept_until_acknowledged linux local "parent/file"
       (fst file_fixture) _ _ [] (snd file_fixture) _ _ _ _))))).
  - vm_compute. reflexivity.
  - reflexivity.
  - cbn. lia.
  - repeat constructor.
Defined.

End TombstoneClaim.

(** ** The trash of a folder *)

Section FolderTrashFacts.
Import Core Sync TrashTest.
Local Open Scope list_scope.







End FolderTrashFacts.

Section FolderTrashClaim.
Import Core Sync TrashTest.
Local Open Scope list_scope.




End FolderTrashClaim.

(** ** The order of the Executor *)

Section ScheduleFacts.
Import Core Sync Order.
Local Open Scope list_scope.

Lemma split_app_sep (c : ascii) (s t : string) :
  Js.split c (s +:+ String c t) = Js.split c s ++ Js.split c t.
Proof.
  induction s as [|a s IH].
  - change ("" +:+ String c t) with (String c t). cbn [Js.split app].
    now rewrite Ascii.eqb_refl.
  - rewrite string_app_cons. cbn [Js.split]. rewrite IH.
    destruct (Ascii.eqb a c); [reflexivity|].
    pose proof (split_not_nil c s) as Hn.
    destruct (Js.split c s) as [|x xs]; [contradiction|reflexivity].
Qed.

Lemma startsWith_app (p s : string) :
  Js.startsWith p s = true -> exists rest, s = p +:+ rest.
Proof.
  revert s. induction p as [|a p IH]; intros s H.
  - exists s. reflexivity.
  - destruct s as [|b s]; [discriminate H|]. cbn in H.
    destruct (Ascii.eqb a b) eqn:E; [|discriminate H].
    apply Ascii.eqb_eq in E as ->. destruct (IH s H) as [rest ->].
    exists rest. reflexivity.
Qed.

Lemma under_deeper (parent child : string) :
  under parent child = true -> (depth parent < depth child)%nat.
Proof.
  unfold under, depth. intros H. apply startsWith_app in H as [rest ->].
  rewrite string_app_assoc.
  change ("/" +:+ rest) with (String "/" rest).
  rewrite split_app_sep, length_app.
  pose proof (split_not_nil "/" rest) as Hn.
  destruct (Js.split "/" rest); [contradiction|]. cbn. lia.
Qed.

Lemma upsert_order_spec (a b : nat * doc) :
  Executor.upsert_order a b <-> upsert_spec a b.
Proof.
  unfold Executor.upsert_order, Executor.shallower_first, upsert_spec.
  rewrite Is_true_true, orb_true_iff, andb_true_iff.
  rewrite Nat.ltb_lt, Nat.eqb_eq, Nat.leb_le. reflexivity.
Qed.

Lemma removal_order_spec (a b : nat * doc) :
  Executor.removal_order a b <-> removal_spec a b.
Proof.
  unfold Executor.removal_order, Executor.deeper_first, removal_spec.
  rewrite Is_true_true, orb_true_iff, andb_true_iff.
  rewrite Nat.ltb_lt, Nat.eqb_eq, Nat.leb_le. reflexivity.
Qed.

Global Instance upsert_order_total : Total Executor.upsert_order.
Proof. intros a b. rewrite !upsert_order_spec. unfold upsert_spec. lia. Qed.

Global Instance upsert_order_trans : Transitive Executor.upsert_order.
Proof.
  intros a b c. rewrite !upsert_order_spec. unfold upsert_spec. lia.
Qed.

Global Instance removal_order_total : Total Executor.removal_order.
Proof. intros a b. rewrite !removal_order_spec. unfold removal_spec. lia. Qed.

Global Instance removal_order_trans : Transitive Executor.removal_order.
Proof.
  intros a b c. rewrite !removal_order_spec. unfold removal_spec. lia.
Qed.

Lemma StronglySorted_impl {A} (R Q : relation A) (l : list A) :
  (forall a b, R a b -> Q a b) -> StronglySorted R l -> StronglySorted Q l.
Proof.
  intros HRQ. induction 1 as [|x l Hl IH Hx]; constructor; [exact IH|].
  eapply Forall_impl; [exact Hx|]. intros b. apply HRQ.
Qed.

(** In a strongly sorted list, an element that may not come after another
    comes before it. *)
Lemma StronglySorted_before {A} (R : relation A) (l : list A) (i j : nat) (a b : A) :
  StronglySorted R l -> l !! i = Some a -> l !! j = Some b ->
  ~ R b a -> a <> b -> (i < j)%nat.
Proof.
  intros Hs. revert i j. induction Hs as [|x l Hl IH Hx]; intros i j Hi Hj Hn Hne.
  - discriminate Hi.
  - destruct i as [|i], j as [|j]; cbn in Hi, Hj.
    + congruence.
    + lia.
    + injection Hj as ->. exfalso. apply Hn.
      rewrite Forall_forall in Hx. apply Hx. eapply list_elem_of_lookup_2, Hi.
    + apply (IH i j) in Hi; auto. lia.
Qed.

Lemma filter_partition {A} (f : A -> bool) (l : list A) :
  Permutation (List.filter (fun x => negb (f x)) l ++ List.filter f l) l.
Proof.
  induction l as [|x l IH]; [reflexivity|]. cbn.
  destruct (f x); cbn.
  - rewrite <- Permutation_middle. now apply perm_skip.
  - now apply perm_skip.
Qed.

End ScheduleFacts.

Section ScheduleClaim.
Import Core Sync Order.
Local Open Scope list_scope.

(** C7. For every batch of pending operations the Executor is handed, the
    schedule holds the same operations; the deletes are in depth-descending
    order and the creates and moves in depth-ascending order, operations of
    equal depth being in the order of their document sequence; so a delete
    below a folder comes before the delete of the folder, and the create or
    move of a folder before those of what is below it. *)
Theorem schedule_orders_by_depth (batch : list (nat * doc)) :
  let upserts := fst (Executor.schedule batch) in
  let removals := snd (Executor.schedule batch) in
  Permutation (upserts ++ removals) batch
  /\ Forall (fun e => deleted (snd e) = false) upserts
  /\ Forall (fun e => deleted (snd e) = true) removals
  /\ StronglySorted upsert_spec upserts
  /\ StronglySorted removal_spec removals
  /\ (forall i j child parent,
        removals !! i = Some child -> removals !! j = Some parent ->
        under (path (snd parent)) (path (snd child)) = true -> (i < j)%nat)
  /\ (forall i j parent child,
        upserts !! i = Some parent -> upserts !! j = Some child ->
        under (path (snd parent)) (path (snd child)) = true -> (i < j)%nat).
Proof.
  cbn zeta. unfold Executor.schedule. cbn [fst snd].
  set (ups := List.filter (fun e => negb (deleted (snd e))) batch).
  set (dels := List.filter (fun e => deleted (snd e)) batch).
  assert (Hups : StronglySorted upsert_spec (merge_sort Executor.upsert_order ups)).
  { eapply StronglySorted_impl; [|apply StronglySorted_merge_sort; apply _].
    intros a b. apply upsert_order_spec. }
  assert (Hdels : StronglySorted removal_spec (merge_sort Executor.removal_order dels)).
  { eapply StronglySorted_impl; [|apply StronglySorted_merge_sort; apply _].
    intros a b. apply removal_order_spec. }
  split.
  { rewrite !merge_sort_Permutation. apply filter_partition. }
  split.
  { rewrite Forall_forall. intros e He.
    apply list_elem_of_In in He.
    eapply Permutation_in in He; [|apply merge_sort_Permutation].
    apply filter_In in He as [_ He]. now apply negb_true_iff in He. }
  split.
  { rewrite Forall_forall. intros e He.
    apply list_elem_of_In in He.
    eapply Permutation_in in He; [|apply merge_sort_Permutation].
    now apply filter_In in He as [_ He]. }
  split; [exact Hups|]. split; [exact Hdels|]. split.
  - intros i j child parent Hi Hj Hu. apply under_deeper in Hu.
    eapply (StronglySorted_before removal_spec); eauto.
    + unfold removal_spec, Executor.op_depth. lia.
    + intros ->. lia.
  - intros i j parent child Hi Hj Hu. apply under_deeper in Hu.
    eapply (StronglySorted_before upsert_spec); eauto.
    + unfold upsert_spec, Executor.op_depth. lia.
    + intros ->. lia.
Qed.

Lemma schedule_orders_by_depth_witness :
  map (fun e => path (snd e)) (snd (Executor.schedule Batches.mixed))
  = [ "old/a/x"; "old/b"; "old/a"; "old" ]%string
  /\ map (fun e => path (snd e)) (fst (Executor.schedule Batches.mixed))
     = [ "new"; "new/a"; "new/a/x" ]%string
  /\ StronglySorted removal_spec (snd (Executor.schedule Batches.mixed)).
Proof.
  split; [vm_compute; reflexivity|]. split; [vm_compute; reflexivity|].
  exact (proj1 (proj2 (proj2 (proj2 (proj2
    (schedule_orders_by_depth Batches.mixed)))))).
Defined.

End ScheduleClaim.

(** ** Scenarios *)


(** ** The conflict name and the intruder *)

Section ConflictFacts.
Import Core Sync Merger.
Local Open Scope list_scope.








End ConflictFacts.


Section ExtensionFacts.
Import Core Sync Merger.
Local Open Scope list_scope.






End ExtensionFacts.

Section ConflictClaim.
Import Core Sync Merger CaseConflict CaseConflictRun.
Local Open Scope list_scope.



End ConflictClaim.

(** ** Scenarios *)

Section ScenarioClaims.
Import Core Sync Scenarios Play.
Local Open Scope list_scope.

(** C5. From the synchronised tree [src/], [src/file] holding "foo", the
    runner renames [src] to [dst] and appends " blah" to [dst/file] in the
    local directory; the local watcher then sees one move and one update,
    and once the Merger and the Executor have run, the remote tree is
    [dst/], [dst/file], the remote [dst/file] holds "foo blah", the remote
    trash is empty, nothing is left to propagate and both sides hold the
    same tree. The same holds when the actions are done on the remote
    side, which is the side the scenario file names. *)
Theorem move_then_append_converges (ts : string) :
  (exists final,
     play linux ts local move_then_append
     = Some ([ Sync.move "src" "dst"; Sync.update_file "dst/file" "foo blah" ],
             final)
     /\ as_expected move_then_append final)
  /\ (exists final,
        play linux ts remote move_then_append
        = Some ([ Sync.move "src" "dst"; Sync.update_file "dst/file" "foo blah" ],
                final)
        /\ as_expected move_then_append final).
Proof.
  split.
  - eexists. split; [vm_compute; reflexivity|].
    unfold as_expected. repeat split; try (vm_compute; reflexivity).
    repeat constructor.
  - eexists. split; [vm_compute; reflexivity|].
    unfold as_expected. repeat split; try (vm_compute; reflexivity).
    repeat constructor.
Qed.

End ScenarioClaims.

(** ** gui/app/main.js: icons, the tray and runs of events *)

Section ShellFacts.
Import Main Session.
Local Open Scope list_scope.

Lemma sendToMainWindow_frame ch a g :
  genv (sendToMainWindow ch a g) = genv g
  /\ mainWindow (sendToMainWindow ch a g) = mainWindow g
  /\ tray (sendToMainWindow ch a g) = tray g
  /\ state (sendToMainWindow ch a g) = state g
  /\ errorMessage (sendToMainWindow ch a g) = errorMessage g
  /\ lastFiles (sendToMainWindow ch a g) = lastFiles g
  /\ lastFilesFile (sendToMainWindow ch a g) = lastFilesFile g
  /\ notifications (sendToMainWindow ch a g) = notifications g
  /\ diskUsageRequests (sendToMainWindow ch a g) = diskUsageRequests g
  /\ listeners (sendToMainWindow ch a g) = listeners g
  /\ newReleaseAvailable (sendToMainWindow ch a g) = newReleaseAvailable g
  /\ (mainWindow g = false -> sent (sendToMainWindow ch a g) = sent g).
Proof.
  unfold sendToMainWindow. destruct (mainWindow g) eqn:E; cbn; rewrite ?E;
    repeat split; auto; discriminate.
Qed.

Lemma updateState_rest s f g :
  notifications (updateState s f g) = notifications g
  /\ diskUsageRequests (updateState s f g) = diskUsageRequests g
  /\ listeners (updateState s f g) = listeners g
  /\ diskTimeout (updateState s f g) = diskTimeout g
  /\ newReleaseAvailable (updateState s f g) = newReleaseAvailable g.
Proof.
  unfold updateState.
  destruct (String.eqb (state g) "error" && String.eqb s "offline"); [repeat split|].
  cbn [state set_state].
  repeat match goal with
         | |- context [if ?b then _ else _] => destruct b
         end;
    cbn; unfold setTrayIcon;
    repeat match goal with
           | |- context [if ?b then _ else _] => destruct b
           end; repeat split.
Qed.

Lemma sendErrorToMainWindow_frame m g :
  genv (sendErrorToMainWindow m g) = genv g
  /\ mainWindow (sendErrorToMainWindow m g) = mainWindow g
  /\ tray (sendErrorToMainWindow m g) = tray g
  /\ state (sendErrorToMainWindow m g) = state g
  /\ errorMessage (sendErrorToMainWindow m g) = errorMessage g
  /\ lastFiles (sendErrorToMainWindow m g) = lastFiles g
  /\ lastFilesFile (sendErrorToMainWindow m g) = lastFilesFile g
  /\ diskUsageRequests (sendErrorToMainWindow m g) = diskUsageRequests g
  /\ listeners (sendErrorToMainWindow m g) = listeners g
  /\ (mainWindow g = false -> sent (sendErrorToMainWindow m g) = sent g).
Proof.
  unfold sendErrorToMainWindow, notify, sendToMainWindow.
  destruct (is_string m "Client has been revoked");
    [|destruct (is_string m "Cozy is full" || is_string m "No more disk space")];
    destruct (mainWindow g) eqn:E; cbn; rewrite ?E; repeat split; auto; discriminate.
Qed.

Lemma sendDiskUsage_rest g :
  tray (sendDiskUsage g) = tray g
  /\ errorMessage (sendDiskUsage g) = errorMessage g
  /\ notifications (sendDiskUsage g) = notifications g
  /\ listeners (sendDiskUsage g) = listeners g
  /\ (mainWindow g = false -> diskUsageRequests (sendDiskUsage g) = diskUsageRequests g).
Proof.
  unfold sendDiskUsage.
  destruct (diskTimeout g), (mainWindow g) eqn:E; cbn; rewrite ?E; cbn;
    repeat split; auto; discriminate.
Qed.

Lemma filter_bool_idem {A} (p : A -> bool) (l : list A) :
  List.filter p (List.filter p l) = List.filter p l.
Proof.
  induction l as [|x l IH]; [reflexivity|]. cbn.
  destruct (p x) eqn:E; [|exact IH]. cbn. now rewrite E, IH.
Qed.

Lemma slice_last_snoc {A} (n : nat) (l : list A) (x : A) :
  exists l', slice_last (S n) (l ++ [x]) = l' ++ [x].
Proof.
  unfold slice_last. exists (skipn (length (l ++ [x]) - S n) l).
  rewrite skipn_app, length_app. cbn [length].
  replace (length l + 1 - S n - length l)%nat with 0%nat by lia. reflexivity.
Qed.

Lemma send_transfers_frame (l : list file_entry) (g : gui) :
  let g' := fold_left (fun g file => sendToMainWindow "transfer" [FileArg file] g) l g in
  genv g' = genv g /\ mainWindow g' = mainWindow g /\ tray g' = tray g
  /\ state g' = state g /\ errorMessage g' = errorMessage g
  /\ lastFiles g' = lastFiles g /\ lastFilesFile g' = lastFilesFile g
  /\ notifications g' = notifications g
  /\ diskUsageRequests g' = diskUsageRequests g /\ listeners g' = listeners g
  /\ newReleaseAvailable g' = newReleaseAvailable g
  /\ (mainWindow g = false -> sent g' = sent g).
Proof.
  revert g. induction l as [|f l IH]; intros g; cbn.
  - repeat split; auto.
  - specialize (IH (sendToMainWindow "transfer" [FileArg f] g)). cbn zeta in IH.
    destruct IH as (-> & -> & -> & -> & -> & -> & -> & -> & -> & -> & -> & Hs).
    destruct (sendToMainWindow_frame "transfer" [FileArg f] g)
      as (-> & Hw & -> & -> & -> & -> & -> & -> & -> & -> & -> & Hs').
    rewrite Hw in *. repeat split; auto.
    intros Hno. rewrite Hs, Hs'; auto.
Qed.

(** What no call changes, and what no call changes while there is no
    window. *)
Lemma addFile_frame now i g :
  genv (addFile now i g) = genv g /\ mainWindow (addFile now i g) = mainWindow g
  /\ errorMessage (addFile now i g) = errorMessage g
  /\ listeners (addFile now i g) = listeners g
  /\ (mainWindow g = false ->
      sent (addFile now i g) = sent g
      /\ diskUsageRequests (addFile now i g) = diskUsageRequests g).
Proof.
  unfold addFile, persistLastFiles.
  set (u := updateState "syncing" (Some (filename (new_file now i))) g).
  destruct (updateState_frame "syncing" (Some (filename (new_file now i))) g)
    as (He & Hw & Hs & _).
  destruct (updateState_rest "syncing" (Some (filename (new_file now i))) g)
    as (_ & Hd & Hl & _).
  assert (Hm : errorMessage u = errorMessage g).
  { unfold u, updateState. cbn.
    repeat match goal with
           | |- context [if ?b then _ else _] => destruct b
           end; cbn; unfold setTrayIcon;
      repeat match goal with
             | |- context [if ?b then _ else _] => destruct b
             end; reflexivity. }
  fold u in He, Hw, Hs, Hd, Hl.
  unfold sendToMainWindow. cbn -[new_file]. rewrite Hw.
  destruct (mainWindow g) eqn:E; cbn -[new_file]; rewrite ?E; repeat split; intros;
    try discriminate; congruence.
Qed.

Lemma removeFile_frame i g :
  genv (removeFile i g) = genv g /\ mainWindow (removeFile i g) = mainWindow g
  /\ errorMessage (removeFile i g) = errorMessage g
  /\ state (removeFile i g) = state g /\ tray (removeFile i g) = tray g
  /\ listeners (removeFile i g) = listeners g
  /\ (mainWindow g = false ->
      sent (removeFile i g) = sent g
      /\ diskUsageRequests (removeFile i g) = diskUsageRequests g).
Proof.
  unfold removeFile, persistLastFiles, sendToMainWindow. cbn.
  destruct (mainWindow g) eqn:E; cbn; rewrite ?E; repeat split; intros;
    try discriminate; congruence.
Qed.

Lemma quiet_refl g : quiet g g.
Proof. unfold quiet. repeat split; auto. Qed.

Lemma quiet_trans g1 g2 g3 : quiet g1 g2 -> quiet g2 g3 -> quiet g1 g3.
Proof.
  unfold quiet. intros (E1 & W1 & L1 & S1) (E2 & W2 & L2 & S2).
  split; [congruence|]. split; [congruence|]. split; [lia|].
  intros Hno. destruct (S1 Hno) as [A1 B1].
  destruct S2 as [A2 B2]; [congruence|]. split; congruence.
Qed.

Lemma same_files_refl g : same_files g g.
Proof. split; reflexivity. Qed.

Lemma same_files_trans g1 g2 g3 :
  same_files g1 g2 -> same_files g2 g3 -> same_files g1 g3.
Proof. unfold same_files. intros [A1 B1] [A2 B2]. split; congruence. Qed.

Lemma sendToMainWindow_quiet ch a g :
  quiet g (sendToMainWindow ch a g) /\ same_files g (sendToMainWindow ch a g).
Proof.
  destruct (sendToMainWindow_frame ch a g)
    as (He & Hw & _ & _ & _ & Hl & Hf & _ & Hd & Hn & _ & Hs).
  unfold quiet, same_files. rewrite He, Hw, Hl, Hf, Hd, Hn. repeat split; auto.
Qed.

Lemma updateState_quiet s f g :
  quiet g (updateState s f g) /\ same_files g (updateState s f g).
Proof.
  destruct (updateState_frame s f g) as (He & Hw & Hs & Hl & Hf).
  destruct (updateState_rest s f g) as (_ & Hd & Hn & _).
  unfold quiet, same_files. rewrite He, Hw, Hl, Hf, Hd, Hn, Hs. repeat split; auto.
Qed.

Lemma sendErrorToMainWindow_quiet m g :
  quiet g (sendErrorToMainWindow m g) /\ same_files g (sendErrorToMainWindow m g).
Proof.
  destruct (sendErrorToMainWindow_frame m g)
    as (He & Hw & _ & _ & _ & Hl & Hf & Hd & Hn & Hs).
  unfold quiet, same_files. rewrite He, Hw, Hl, Hf, Hd, Hn. repeat split; auto.
Qed.

Lemma sendDiskUsage_quiet g :
  quiet g (sendDiskUsage g) /\ same_files g (sendDiskUsage g).
Proof.
  destruct (sendDiskUsage_frame g) as (He & Hw & Hs & Hl & Hf & _).
  destruct (sendDiskUsage_rest g) as (_ & _ & _ & Hn & Hd).
  unfold quiet, same_files. rewrite He, Hw, Hl, Hf, Hn, Hs. repeat split; auto.
Qed.

Lemma send_transfers_quiet l g :
  quiet g (fold_left (fun g file => sendToMainWindow "transfer" [FileArg file] g) l g)
  /\ same_files g
       (fold_left (fun g file => sendToMainWindow "transfer" [FileArg file] g) l g).
Proof.
  destruct (send_transfers_frame l g)
    as (He & Hw & _ & _ & _ & Hl & Hf & _ & Hd & Hn & _ & Hs).
  cbn zeta in *.
  unfold quiet, same_files. rewrite He, Hw, Hl, Hf, Hd, Hn. repeat split; auto.
Qed.

Lemma addFile_quiet now i g : quiet g (addFile now i g).
Proof.
  destruct (addFile_frame now i g) as (He & Hw & _ & Hn & Hs).
  unfold quiet. rewrite He, Hw, Hn. repeat split; auto; now apply Hs.
Qed.

Lemma removeFile_quiet i g : quiet g (removeFile i g).
Proof.
  destruct (removeFile_frame i g) as (He & Hw & _ & _ & _ & Hn & Hs).
  unfold quiet. rewrite He, Hw, Hn. repeat split; auto; now apply Hs.
Qed.

Lemma set_listeners_quiet g :
  quiet g (set_listeners (S (listeners g)) g)
  /\ same_files g (set_listeners (S (listeners g)) g).
Proof. unfold quiet, same_files. cbn. repeat split; auto. Qed.

Lemma on_event_quiet now ev g : quiet g (on_event now ev g).
Proof.
  destruct ev; cbn [on_event].
  - eapply quiet_trans; [apply updateState_quiet | apply sendToMainWindow_quiet].
  - eapply quiet_trans; [apply updateState_quiet | apply sendToMainWindow_quiet].
  - eapply quiet_trans; [apply updateState_quiet | apply sendToMainWindow_quiet].
  - apply addFile_quiet.
  - apply addFile_quiet.
  - eapply quiet_trans; [apply addFile_quiet | apply removeFile_quiet].
  - apply removeFile_quiet.
  - apply sendErrorToMainWindow_quiet.
  - eapply quiet_trans; [apply updateState_quiet|].
    eapply quiet_trans; [apply sendDiskUsage_quiet | apply sendErrorToMainWindow_quiet].
Qed.

Lemma startSync_quiet force g :
  quiet g (startSync force g) /\ same_files g (startSync force g).
Proof.
  unfold startSync.
  set (g1 := sendToMainWindow "synchronization" _ g).
  assert (H1 : quiet g g1 /\ same_files g g1) by apply sendToMainWindow_quiet.
  set (g2 := fold_left _ (lastFiles g1) g1).
  assert (H2 : quiet g1 g2 /\ same_files g1 g2) by apply send_transfers_quiet.
  assert (H : quiet g g2 /\ same_files g g2).
  { split; [eapply quiet_trans | eapply same_files_trans]; [apply H1|apply H2|apply H1|apply H2]. }
  clearbody g2. clear H1 H2 g1.
  destruct (desktop_sync (genv g) && negb force).
  - set (g3 := if String.eqb (state g2) "up-to-date" || String.eqb (state g2) "online"
               then _ else _).
    assert (H3 : quiet g2 g3 /\ same_files g2 g3).
    { unfold g3.
      destruct (String.eqb (state g2) "up-to-date" || String.eqb (state g2) "online");
        [apply sendToMainWindow_quiet|].
      destruct (String.eqb (state g2) "offline"); [apply sendToMainWindow_quiet|].
      destruct (String.eqb (state g2) "error"); [apply sendErrorToMainWindow_quiet|].
      split; [apply quiet_refl | apply same_files_refl]. }
    clearbody g3.
    split; [eapply quiet_trans; [apply H|]; eapply quiet_trans; [apply H3|];
            apply sendDiskUsage_quiet
           |eapply same_files_trans; [apply H|]; eapply same_files_trans; [apply H3|];
            apply sendDiskUsage_quiet].
  - set (g3 := updateState "syncing" None g2).
    assert (H3 : quiet g2 g3 /\ same_files g2 g3) by apply updateState_quiet.
    clearbody g3.
    split; [eapply quiet_trans; [apply H|]; eapply quiet_trans; [apply H3|];
            eapply quiet_trans; [apply set_listeners_quiet|]; apply sendDiskUsage_quiet
           |eapply same_files_trans; [apply H|]; eapply same_files_trans; [apply H3|];
            eapply same_files_trans; [apply set_listeners_quiet|]; apply sendDiskUsage_quiet].
Qed.

Lemma update_downloaded_quiet version releaseName g :
  quiet g (Release.update_downloaded version releaseName g)
  /\ same_files g (Release.update_downloaded version releaseName g).
Proof.
  unfold Release.update_downloaded.
  set (m := [Str _; Str _]). set (g1 := Release.set_newReleaseAvailable true g).
  destruct (sendToMainWindow_quiet "new-release-available" m g1) as [Hq Hs].
  assert (H1 : quiet g g1 /\ same_files g g1).
  { unfold quiet, same_files, g1. cbn. repeat split; auto. }
  split; [eapply quiet_trans | eapply same_files_trans]; [apply H1|apply Hq|apply H1|apply Hs].
Qed.

Lemma handle_quiet c g : quiet g (handle c g).
Proof.
  destruct c as [now ev|force|version releaseName|set]; cbn [handle].
  - destruct (listeners g =? 0)%nat; [apply quiet_refl | apply on_event_quiet].
  - apply startSync_quiet.
  - destruct (Release.checkForNewRelease (genv g));
      [apply update_downloaded_quiet | apply quiet_refl].
  - unfold quiet, set_desktop_sync. cbn. repeat split; auto.
Qed.

Lemma run_quiet cs g : quiet g (run cs g).
Proof.
  revert g. induction cs as [|c cs IH]; intros g; [apply quiet_refl|].
  cbn [run fold_left]. eapply quiet_trans; [apply handle_quiet | apply IH].
Qed.

Lemma updateState_error_message m g : errorMessage (updateState "error" m g) = m.
Proof.
  unfold updateState. rewrite andb_false_r. cbn. unfold setTrayIcon.
  repeat match goal with
         | |- context [if ?b then _ else _] => destruct b
         end; reflexivity.
Qed.

Lemma plain_message_spec m :
  plain_message m = true ->
  is_string (Some m) "Client has been revoked" = false
  /\ is_string (Some m) "Cozy is full" || is_string (Some m) "No more disk space" = false.
Proof.
  unfold plain_message, is_string. intros H.
  apply andb_true_iff in H as [H H3]. apply andb_true_iff in H as [H1 H2].
  apply negb_true_iff in H1, H2, H3. rewrite H1, H2, H3. auto.
Qed.

(** The first occurrence of a space in a text that starts with a word. *)
Lemma indexOf_space_app (prefix text : string) :
  Js.includes " " prefix = false ->
  Js.indexOf " " (prefix +:+ " " +:+ text) = Z.of_nat (String.length prefix).
Proof.
  unfold Js.includes. induction prefix as [|a p IH]; intros H; [reflexivity|].
  rewrite string_app_cons. cbn [Js.indexOf Js.startsWith String.length] in *.
  destruct (Ascii.eqb " " a); [discriminate H|].
  destruct (Js.indexOf " " p <? 0) eqn:E.
  - rewrite IH; [|apply Z.leb_gt, Z.ltb_lt, E].
    destruct (Z.ltb_spec (Z.of_nat (String.length p)) 0); lia.
  - exfalso. apply Z.ltb_ge in E. apply Z.leb_gt in H. lia.
Qed.

Lemma indexOf_none (p s : string) : Js.includes p s = false -> Js.indexOf p s = -1.
Proof.
  unfold Js.includes. induction s as [|a s IH]; cbn [Js.indexOf]; intros H.
  - destruct (Js.startsWith p ""); [discriminate H|reflexivity].
  - destruct (Js.startsWith p (String a s)); [discriminate H|].
    destruct (Js.indexOf p s <? 0) eqn:E; [reflexivity|].
    apply Z.ltb_ge in E. apply Z.leb_gt in H. lia.
Qed.

(** The list of the last files is in step with its file: it has at most
    250 entries, it is the data of the most recent write (or what the file
    held at the start), and no write carried more than 250 entries. *)
Lemma persist_in_step (g : gui) :
  (length (lastFiles g) <= 250)%nat ->
  Forall (fun l => (length l <= 250)%nat) (writes (lastFilesFile g)) ->
  LastFiles.latest (lastFilesFile (persistLastFiles g)) = lastFiles g
  /\ Forall (fun l => (length l <= 250)%nat)
            (writes (lastFilesFile (persistLastFiles g)))
  /\ at_start (lastFilesFile (persistLastFiles g)) = at_start (lastFilesFile g)
  /\ writes (lastFilesFile g) `prefix_of` writes (lastFilesFile (persistLastFiles g)).
Proof.
  intros Hlen Hall. unfold persistLastFiles. cbn.
  split; [apply last_last|]. split.
  { apply Forall_app. split; [exact Hall|]. constructor; [exact Hlen|constructor]. }
  split; [reflexivity|]. now exists [lastFiles g].
Qed.

(** One call on the list of the last files and on the writes to its file. *)
Lemma handle_lastFiles c g :
  (length (lastFiles g) <= 250)%nat ->
  LastFiles.latest (lastFilesFile g) = lastFiles g ->
  Forall (fun l => (length l <= 250)%nat) (writes (lastFilesFile g)) ->
  (length (lastFiles (handle c g)) <= 250)%nat
  /\ LastFiles.latest (lastFilesFile (handle c g)) = lastFiles (handle c g)
  /\ Forall (fun l => (length l <= 250)%nat) (writes (lastFilesFile (handle c g)))
  /\ at_start (lastFilesFile (handle c g)) = at_start (lastFilesFile g)
  /\ writes (lastFilesFile g) `prefix_of` writes (lastFilesFile (handle c g)).
Proof.
  intros Hlen Hlatest Hall.
  assert (Hsame : forall g', same_files g g' ->
            (length (lastFiles g') <= 250)%nat
            /\ LastFiles.latest (lastFilesFile g') = lastFiles g'
            /\ Forall (fun l => (length l <= 250)%nat) (writes (lastFilesFile g'))
            /\ at_start (lastFilesFile g') = at_start (lastFilesFile g)
            /\ writes (lastFilesFile g) `prefix_of` writes (lastFilesFile g')).
  { intros g' [-> ->]. repeat split; auto. }
  assert (Hrm : forall i g0,
            (length (lastFiles g0) <= 250)%nat ->
            Forall (fun l => (length l <= 250)%nat) (writes (lastFilesFile g0)) ->
            (length (lastFiles (removeFile i g0)) <= 250)%nat
            /\ LastFiles.latest (lastFilesFile (removeFile i g0))
               = lastFiles (removeFile i g0)
            /\ Forall (fun l => (length l <= 250)%nat)
                      (writes (lastFilesFile (removeFile i g0)))
            /\ at_start (lastFilesFile (removeFile i g0)) = at_start (lastFilesFile g0)
            /\ writes (lastFilesFile g0)
               `prefix_of` writes (lastFilesFile (removeFile i g0))).
  { intros i g0 H0 A0. destruct (removeFile_lastFiles i g0) as [Hl Hf].
    assert (H1 : (length (lastFiles (removeFile i g0)) <= 250)%nat).
    { rewrite Hl.
      pose proof (sublist_length _ _ (filter_bool_sublist
        (fun f => negb (String.eqb (path f) (info_path i))) (lastFiles g0))). lia. }
    split; [exact H1|]. rewrite Hf. cbn [writes at_start]. unfold LastFiles.latest.
    cbn [writes at_start]. split; [apply last_last|]. split.
    { apply Forall_app. split; [exact A0|]. constructor; [exact H1|constructor]. }
    split; [reflexivity|]. now eexists. }
  assert (Hadd : forall now i g0,
            Forall (fun l => (length l <= 250)%nat) (writes (lastFilesFile g0)) ->
            (length (lastFiles (addFile now i g0)) <= 250)%nat
            /\ LastFiles.latest (lastFilesFile (addFile now i g0))
               = lastFiles (addFile now i g0)
            /\ Forall (fun l => (length l <= 250)%nat)
                      (writes (lastFilesFile (addFile now i g0)))
            /\ at_start (lastFilesFile (addFile now i g0)) = at_start (lastFilesFile g0)
            /\ writes (lastFilesFile g0)
               `prefix_of` writes (lastFilesFile (addFile now i g0))).
  { intros now i g0 A0. destruct (addFile_lastFiles now i g0) as [Hl Hf].
    assert (H1 : (length (lastFiles (addFile now i g0)) <= 250)%nat).
    { rewrite Hl. apply slice_last_length. }
    split; [exact H1|]. rewrite Hf. cbn [writes at_start]. unfold LastFiles.latest.
    cbn [writes at_start]. split; [apply last_last|]. split.
    { apply Forall_app. split; [exact A0|]. constructor; [exact H1|constructor]. }
    split; [reflexivity|]. now eexists. }
  destruct c as [now ev|force|version releaseName|set]; cbn [handle].
  - destruct (listeners g =? 0)%nat; [apply Hsame, same_files_refl|].
    destruct ev; cbn [on_event];
      try (apply Hsame; eapply same_files_trans;
           [apply updateState_quiet | apply sendToMainWindow_quiet]).
    + now apply Hadd.
    + now apply Hadd.
    + destruct (Hadd now i g Hall) as (A1 & _ & A3 & A4 & A5).
      destruct (Hrm old (addFile now i g) A1 A3) as (B1 & B2 & B3 & B4 & B5).
      split; [exact B1|]. split; [exact B2|]. split; [exact B3|].
      split; [congruence|]. etransitivity; eauto.
    + now apply Hrm.
    + apply Hsame, sendErrorToMainWindow_quiet.
    + apply Hsame. eapply same_files_trans; [apply updateState_quiet|].
      eapply same_files_trans; [apply sendDiskUsage_quiet | apply sendErrorToMainWindow_quiet].
  - apply Hsame, startSync_quiet.
  - destruct (Release.checkForNewRelease (genv g));
      [apply Hsame, update_downloaded_quiet | apply Hsame, same_files_refl].
  - apply Hsame. split; reflexivity.
Qed.

End ShellFacts.

Section ShellExtras.
Import Main Session.
Local Open Scope list_scope.

(** X1. [selectIcon] answers with one of eleven icon names, whatever the class
    and the MIME type of the file are, given or not. *)
Theorem selectIcon_known (i : info) : In (selectIcon i) icons.
Proof.
  unfold selectIcon, icons.
  destruct (is_string (info_class i) "image") eqn:E1.
  { destruct (info_class i) as [c|]; [|discriminate E1].
    apply String.eqb_eq in E1 as ->. cbn. auto. }
  destruct (is_string (info_class i) "video") eqn:E2.
  { destruct (info_class i) as [c|]; [|discriminate E2].
    apply String.eqb_eq in E2 as ->. cbn. auto. }
  cbn [orb].
  repeat match goal with
         | |- context [if ?b then _ else _] => destruct b
         end;
    cbn; auto 12.
Qed.

(** X2. [removeFile] leaves no entry with the path of the file in the list,
    keeps the other entries in their order, starts one write to the file,
    of the list as it is then, and removing the same file again changes
    nothing more in the list. *)
Theorem removeFile_forgets (i : info) (g : gui) :
  let g' := removeFile i g in
  Forall (fun f => path f <> info_path i) (lastFiles g')
  /\ sublist (lastFiles g') (lastFiles g)
  /\ (forall f, In f (lastFiles g) -> path f <> info_path i -> In f (lastFiles g'))
  /\ writes (lastFilesFile g') = writes (lastFilesFile g) ++ [lastFiles g']
  /\ at_start (lastFilesFile g') = at_start (lastFilesFile g)
  /\ lastFiles (removeFile i g') = lastFiles g'.
Proof.
  cbn zeta. destruct (removeFile_lastFiles i g) as [Hl Hf].
  destruct (removeFile_lastFiles i (removeFile i g)) as [Hl' _].
  rewrite Hl', Hf, Hl. split.
  { apply List.Forall_forall. intros f Hin. apply filter_In in Hin as [_ Hp].
    apply negb_true_iff, String.eqb_neq in Hp. exact Hp. }
  split; [apply filter_bool_sublist|]. split.
  { intros f Hin Hp. apply filter_In. split; [exact Hin|].
    apply negb_true_iff, String.eqb_neq, Hp. }
  split; [reflexivity|]. split; [reflexivity|]. apply filter_bool_idem.
Qed.

(** X3. A [transfer-move] leaves no entry with the old path in the list; when
    the new path differs from the old one, the entry of the new path is the
    last of the list. A move onto the same path thus records nothing. *)
Theorem transfer_move_replaces (now : Z) (i old : info) (g : gui) :
  let g' := on_event now (TransferMove i old) g in
  Forall (fun f => path f <> info_path old) (lastFiles g')
  /\ (info_path i <> info_path old ->
      exists l, lastFiles g' = l ++ [new_file now i])
  /\ (info_path i = info_path old -> ~ In (new_file now i) (lastFiles g')).
Proof.
  cbn zeta. cbn [on_event].
  destruct (removeFile_lastFiles old (addFile now i g)) as [Hl _].
  destruct (addFile_lastFiles now i g) as [Ha _].
  rewrite Hl, Ha.
  assert (Hall : Forall (fun f => path f <> info_path old)
                   (List.filter (fun f => negb (String.eqb (path f) (info_path old)))
                      (slice_last 250 (lastFiles g ++ [new_file now i])))).
  { apply List.Forall_forall. intros f Hin. apply filter_In in Hin as [_ Hp].
    apply negb_true_iff, String.eqb_neq in Hp. exact Hp. }
  split; [exact Hall|]. split.
  - intros Hne. destruct (slice_last_snoc 249 (lastFiles g) (new_file now i)) as [l' ->].
    rewrite List.filter_app. cbn [List.filter new_file path].
    apply String.eqb_neq in Hne. rewrite Hne. cbn [negb]. eauto.
  - intros Heq Hin. rewrite List.Forall_forall in Hall.
    apply (Hall _ Hin). exact Heq.
Qed.

(** X4. Along any run of the module (listeners run on events,
    [startSync] called, releases downloaded, [desktop.sync] set or cleared
    by the core), the list of the last files stays in step with its file:
    from a state in which the list has at most 250 entries and is the data
    of the most recent write (or, before any write, what the file held at
    the start), the same holds after the run; every write started carried
    a list of at most 250 entries; and the run only adds writes. *)
Theorem last_files_invariant (cs : list call) (g : gui) :
  (length (lastFiles g) <= 250)%nat ->
  LastFiles.latest (lastFilesFile g) = lastFiles g ->
  Forall (fun l => (length l <= 250)%nat) (writes (lastFilesFile g)) ->
  (length (lastFiles (run cs g)) <= 250)%nat
  /\ LastFiles.latest (lastFilesFile (run cs g)) = lastFiles (run cs g)
  /\ Forall (fun l => (length l <= 250)%nat) (writes (lastFilesFile (run cs g)))
  /\ at_start (lastFilesFile (run cs g)) = at_start (lastFilesFile g)
  /\ writes (lastFilesFile g) `prefix_of` writes (lastFilesFile (run cs g)).
Proof.
  revert g. induction cs as [|c cs IH]; intros g Hlen Hlatest Hall.
  { repeat split; auto. }
  cbn [run fold_left].
  destruct (handle_lastFiles c g Hlen Hlatest Hall) as (H1 & H2 & H3 & H4 & H5).
  destruct (IH (handle c g) H1 H2 H3) as (K1 & K2 & K3 & K4 & K5).
  fold (run cs (handle c g)) in *.
  split; [exact K1|]. split; [exact K2|]. split; [exact K3|].
  split; [congruence|]. etransitivity; eauto.
Qed.

Lemma last_files_invariant_witness :
  (length (lastFiles LastFilesRuns.relaunched) <= 250)%nat
  /\ LastFiles.latest (lastFilesFile LastFilesRuns.relaunched)
     = lastFiles LastFilesRuns.relaunched.
Proof.
  assert (H0 : LastFiles.latest
                 (lastFilesFile (started MainRuns.english_env true (Some [])))
               = lastFiles (started MainRuns.english_env true (Some [])))
    by reflexivity.
  destruct (last_files_invariant
              [ Start false;
                Emit 1 (SyncFailed (Some "boom"));
                Start true;
                Emit 2 (TransferStarted MainRuns.photo);
                Emit 2 (TransferStarted MainRuns.photo);
                Emit 3 (TransferMove MainRuns.notes MainRuns.photo);
                Emit 3 (TransferMove MainRuns.notes MainRuns.photo) ]
              (started MainRuns.english_env true (Some [])))
    as (H1 & H2 & _).
  - cbn. lia.
  - exact H0.
  - constructor.
  - split; [exact H1 | exact H2].
Defined.

(** X5. While there is no window, no event and no call of [startSync] sends a
    message or asks for the disk usage; the window stays closed. *)
Theorem nothing_sent_without_window (cs : list call) (g : gui) :
  mainWindow g = false ->
  sent (run cs g) = sent g
  /\ diskUsageRequests (run cs g) = diskUsageRequests g
  /\ mainWindow (run cs g) = false.
Proof.
  intros Hno. destruct (run_quiet cs g) as (_ & Hw & _ & Hs).
  destruct (Hs Hno) as [-> ->]. rewrite Hw. auto.
Qed.

Lemma nothing_sent_without_window_witness :
  sent (run [Start false; Emit 1 (TransferStarted MainRuns.photo);
             Emit 2 (SyncFailed (Some "boom"))]
            (started MainRuns.english_env false None)) = [].
Proof.
  apply (nothing_sent_without_window
           [Start false; Emit 1 (TransferStarted MainRuns.photo);
            Emit 2 (SyncFailed (Some "boom"))]
           (started MainRuns.english_env false None)).
  reflexivity.
Defined.

(** X6. Whenever [updateState] does not return at once, the new state is in
    force, the tool tip of the tray is the label of the first item of its
    menu, which is disabled, the menu ends with the item that quits, it
    has nine items plus one for each of: no window, the state "error", a
    new release; and the item that relaunches the synchronisation is in it
    exactly in the state "error". *)
Theorem updateState_menu (newState : string) (file : option string) (g : gui) :
  String.eqb (state g) "error" && String.eqb newState "offline" = false ->
  let t := tray (updateState newState file g) in
  state (updateState newState file g) = newState
  /\ length (contextMenu t)
     = (9 + (if mainWindow g then 0 else 1)
          + (if String.eqb newState "error" then 1 else 0)
          + (if newReleaseAvailable g then 1 else 0))%nat
  /\ nth_error (contextMenu t) 0 = Some (Item (toolTip t) false None)
  /\ List.last (contextMenu t) Separator = quit_item (genv g)
  /\ (In (relaunch_item (genv g)) (contextMenu t) <-> newState = "error").
Proof.
  intros H. cbn zeta. unfold updateState. rewrite H. cbv zeta. cbn [state set_state].
  unfold relaunch_item, quit_item.
  destruct (String.eqb_spec newState "error") as [->|Hne].
  - unfold setTrayIcon. cbn.
    destruct (String.eqb (platform (genv g)) "darwin"); cbn;
      destruct (mainWindow g), (newReleaseAvailable g); cbn;
      repeat split; auto 8.
  - pose proof Hne as Hb. apply String.eqb_neq in Hb.
    destruct (Js.truthy file);
      [|destruct (String.eqb newState "up-to-date" || String.eqb newState "online");
        [|destruct (String.eqb newState "syncing");
          [|destruct (String.eqb newState "offline")]]];
      unfold setTrayIcon; cbn; rewrite ?Hb;
      try destruct (String.eqb (platform (genv g)) "darwin"); cbn; rewrite ?Hb;
      destruct (mainWindow g), (newReleaseAvailable g); cbn;
      (split; [reflexivity|]); (split; [reflexivity|]); (split; [reflexivity|]);
      (split; [reflexivity|]);
      (split; [|intros He; contradiction]);
      intros Hin;
      repeat match goal with
             | H : _ \/ _ |- _ => destruct H
             | H : False |- _ => contradiction
             | H : _ = _ |- _ => discriminate H
             end.
Qed.

Lemma updateState_menu_witness :
  String.eqb (state (started MainRuns.english_env false None)) "error"
    && String.eqb "error" "offline" = false
  /\ In (relaunch_item MainRuns.english_env)
        (contextMenu
           (tray (updateState "error" (Some "boom")
                    (started MainRuns.english_env false None)))).
Proof.
  split; [reflexivity|].
  destruct (updateState_menu "error" (Some "boom")
              (started MainRuns.english_env false None) eq_refl)
    as (_ & _ & _ & _ & Hiff).
  exact (proj2 Hiff eq_refl).
Defined.

(** X7. An [up-to-date] event takes the module out of any state, "error"
    included: the state becomes "up-to-date", the tool tip says so, the
    tray shows the idle icon and its menu has no item to relaunch the
    synchronisation; the error message is kept as it was. *)
Theorem up_to_date_clears_error (now : Z) (g : gui) :
  let g' := on_event now UpToDate g in
  state g' = "up-to-date"
  /\ toolTip (tray g') = Some (translate (genv g) "Tray Your cozy is up to date")
  /\ image (tray g') = image (tray (setTrayIcon "idle" g))
  /\ errorMessage g' = errorMessage g
  /\ Forall (fun it => it <> relaunch_item (genv g)) (contextMenu (tray g')).
Proof.
  cbn zeta. cbn [on_event].
  destruct (sendToMainWindow_frame "up-to-date" [] (updateState "up-to-date" None g))
    as (_ & _ & -> & -> & -> & _).
  unfold updateState, relaunch_item. rewrite andb_false_r. cbv zeta. cbn [state set_state].
  unfold setTrayIcon. cbn.
  destruct (String.eqb (platform (genv g)) "darwin"); cbn;
    destruct (mainWindow g), (newReleaseAvailable g); cbn;
    repeat split; auto; repeat constructor; discriminate.
Qed.

(** X8. After a failure with an ordinary message, calling [startSync] without
    [force] while the synchronisation object exists (the window was
    reloaded, say) tells the window again: the configuration, one
    [transfer] per last file, then the [sync-error] with the message of the
    failure; the notification is raised a second time; the state stays
    "error", the tray is untouched and no listener is added. *)
Theorem startSync_repeats_failure (now : Z) (m : string) (g : gui) :
  mainWindow g = true ->
  desktop_sync (genv g) = true ->
  plain_message m = true ->
  let failed := on_event now (SyncFailed (Some m)) g in
  let g' := startSync false failed in
  sent g'
  = sent failed
      ++ Ipc "synchronization" [Str (cozyUrl (genv g)); Str (deviceName (genv g))]
      :: map LastFiles.transfer_message (lastFiles g)
      ++ [Ipc "sync-error" [Str (Some m)]]
  /\ notifications g' = notifications failed ++ [Some m]
  /\ state g' = "error"
  /\ tray g' = tray failed
  /\ listeners g' = listeners g.
Proof.
  intros Hw Hsync Hplain failed g'.
  destruct (plain_message_spec m Hplain) as [P1 P2].
  assert (F : genv failed = genv g /\ mainWindow failed = true
              /\ state failed = "error" /\ errorMessage failed = Some m
              /\ lastFiles failed = lastFiles g /\ listeners failed = listeners g).
  { unfold failed. cbn [on_event].
    set (u := updateState "error" (Some m) g).
    assert (U : genv u = genv g /\ mainWindow u = true /\ state u = "error"
                /\ errorMessage u = Some m /\ lastFiles u = lastFiles g
                /\ listeners u = listeners g).
    { unfold u. destruct (updateState_frame "error" (Some m) g) as (-> & -> & _ & -> & _).
      destruct (updateState_rest "error" (Some m) g) as (_ & _ & -> & _).
      rewrite updateState_error_state, updateState_error_message.
      repeat split; auto. }
    destruct U as (U1 & U2 & U3 & U4 & U5 & U6).
    destruct (sendErrorToMainWindow_frame (Some m) (sendDiskUsage u))
      as (-> & -> & _ & -> & -> & -> & _ & _ & -> & _).
    destruct (sendDiskUsage_frame u) as (-> & -> & _ & -> & _ & ->).
    destruct (sendDiskUsage_rest u) as (_ & -> & _ & -> & _).
    repeat split; auto. }
  destruct F as (Fe & Fw & Fs & Fm & Fl & Fn).
  unfold g', startSync. clearbody failed. rewrite Fe, Hsync. cbn [negb andb].
  set (g1 := sendToMainWindow "synchronization" _ failed).
  destruct (sendToMainWindow_frame "synchronization"
              [Str (cozyUrl (genv g)); Str (deviceName (genv g))] failed)
    as (E1 & W1 & T1 & S1 & M1 & L1 & _ & N1 & _ & R1 & _).
  fold g1 in E1, W1, T1, S1, M1, L1, N1, R1.
  assert (Hs1 : sent g1 = sent failed
                  ++ [Ipc "synchronization"
                        [Str (cozyUrl (genv g)); Str (deviceName (genv g))]]).
  { apply sendToMainWindow_sent, Fw. }
  assert (W1' : mainWindow g1 = true) by congruence.
  destruct (send_transfers_sent (lastFiles g1) g1 W1') as (Hs2 & W2 & _ & S2 & _).
  destruct (send_transfers_frame (lastFiles g1) g1)
    as (_ & _ & T2 & _ & M2 & _ & _ & N2 & _ & R2 & _).
  cbn zeta in *. set (g2 := fold_left _ (lastFiles g1) g1) in *.
  rewrite S2, S1, Fs. cbn [String.eqb Ascii.eqb Bool.eqb orb].
  rewrite M2, M1, Fm.
  destruct (sendDiskUsage_frame (sendErrorToMainWindow (Some m) g2))
    as (_ & _ & -> & _ & _ & ->).
  destruct (sendDiskUsage_rest (sendErrorToMainWindow (Some m) g2))
    as (-> & _ & -> & -> & _).
  destruct (sendErrorToMainWindow_frame (Some m) g2)
    as (_ & _ & -> & -> & _ & _ & _ & _ & -> & _).
  unfold sendErrorToMainWindow. rewrite P1, P2.
  unfold notify, sendToMainWindow. rewrite W2. cbn.
  rewrite Hs2, Hs1, L1, Fl, S2, S1, Fs, T2, T1, N2, N1, R2, R1, Fn, <- !app_assoc.
  cbn. auto.
Qed.

Lemma startSync_repeats_failure_witness :
  state (startSync false
           (on_event 3 (SyncFailed (Some "boom")) (started running_env true None)))
  = "error"
  /\ notifications
       (startSync false
          (on_event 3 (SyncFailed (Some "boom")) (started running_env true None)))
     = [Some "boom"; Some "boom"].
Proof.
  destruct (startSync_repeats_failure 3 "boom" (started running_env true None)
              eq_refl eq_refl eq_refl) as (_ & H2 & H3 & _).
  cbn zeta in *. split; [exact H3|]. rewrite H2. reflexivity.
Defined.

(** X9. A call of [startSync] that starts the synchronisation (it is forced,
    or there is no synchronisation object yet) registers the listeners once
    more, puts the module in the state "syncing" whatever the state was,
    "error" included, and leaves the error message as it was. *)
Theorem startSync_relaunches (force : bool) (g : gui) :
  desktop_sync (genv g) && negb force = false ->
  let g' := startSync force g in
  listeners g' = S (listeners g)
  /\ state g' = "syncing"
  /\ errorMessage g' = errorMessage g
  /\ toolTip (tray g') = Some (translate (genv g) "Tray Syncing" +:+ "…").
Proof.
  intros Hb. cbn zeta. unfold startSync.
  set (g1 := sendToMainWindow "synchronization" _ g).
  destruct (sendToMainWindow_frame "synchronization"
              [Str (cozyUrl (genv g)); Str (deviceName (genv g))] g)
    as (E1 & _ & _ & _ & M1 & _ & _ & _ & _ & R1 & _).
  fold g1 in E1, M1, R1.
  destruct (send_transfers_frame (lastFiles g1) g1)
    as (E2 & _ & _ & _ & M2 & _ & _ & _ & _ & R2 & _).
  cbn zeta in *. set (g2 := fold_left _ (lastFiles g1) g1) in *.
  rewrite Hb.
  set (u := updateState "syncing" None g2).
  destruct (sendDiskUsage_frame (set_listeners (S (listeners u)) u))
    as (_ & _ & _ & _ & _ & ->).
  destruct (sendDiskUsage_rest (set_listeners (S (listeners u)) u))
    as (-> & -> & _ & -> & _).
  cbn [listeners state errorMessage tray set_listeners].
  unfold u. destruct (updateState_rest "syncing" None g2) as (_ & _ & -> & _).
  rewrite R2, R1. split; [reflexivity|].
  unfold updateState. rewrite andb_false_r. cbv zeta. cbn [state set_state].
  unfold setTrayIcon. cbn.
  destruct (String.eqb (platform (genv g2)) "darwin"); cbn;
    rewrite M2, M1, E2, E1; auto.
Qed.

Lemma startSync_relaunches_witness :
  listeners (startSync true MainRuns.failed_state) = 1%nat
  /\ state (startSync true MainRuns.failed_state) = "syncing".
Proof.
  assert (H : desktop_sync (genv MainRuns.failed_state) && negb true = false)
    by (vm_compute; reflexivity).
  destruct (startSync_relaunches true MainRuns.failed_state H) as (H1 & H2 & _).
  cbn zeta in *. split; [|exact H2]. rewrite H1. vm_compute. reflexivity.
Defined.

(** X10. A key made of a prefix without a space, a space and a text, and for
    which the locale has no entry, is translated by the text; such a key
    is never the name of a property that the table of translations
    inherits from [Object.prototype]. A key without any space, without an
    entry and that is not such a name is translated by itself. *)
Theorem translate_falls_back (e : env) (prefix text : string) :
  Js.includes " " prefix = false ->
  (translations e !! (prefix +:+ " " +:+ text) = None ->
   translate e (prefix +:+ " " +:+ text) = text)
  /\ ~ In (prefix +:+ " " +:+ text) object_prototype_keys
  /\ (translations e !! prefix = None -> ~ In prefix object_prototype_keys ->
      translate e prefix = prefix).
Proof.
  intros Hp. split; [|split].
  - intros Hn. rewrite (translate_default _ _ Hn).
    rewrite (indexOf_space_app _ _ Hp). unfold Js.substr.
    replace (Z.to_nat (Z.of_nat (String.length prefix) + 1))
      with (String.length (prefix +:+ " ")) by (rewrite string_app_length; cbn; lia).
    rewrite <- string_app_assoc. apply slice_app.
  - assert (Hs : Js.includes " " (prefix +:+ " " +:+ text) = true).
    { unfold Js.includes. rewrite (indexOf_space_app _ _ Hp). apply Z.leb_le. lia. }
    intros Hin. unfold object_prototype_keys in Hin. cbn [In] in Hin.
    repeat (destruct Hin as [Hin|Hin];
            [rewrite <- Hin in Hs; vm_compute in Hs; discriminate Hs|]).
    exact Hin.
  - intros Hn _. rewrite (translate_default _ _ Hn).
    rewrite (indexOf_none _ _ Hp). reflexivity.
Qed.

Lemma translate_falls_back_witness :
  translate MainRuns.french_env "Tray Quit application" = "Quit application"
  /\ translate MainRuns.french_env "Offline" = "Offline".
Proof.
  destruct (translate_falls_back MainRuns.french_env "Tray" "Quit application" eq_refl)
    as (H1 & _ & _).
  destruct (translate_falls_back MainRuns.french_env "Offline" "" eq_refl)
    as (_ & _ & H2).
  split; [apply H1; vm_compute; reflexivity|].
  apply H2; [vm_compute; reflexivity|].
  unfold object_prototype_keys. cbn [In]. intros H.
  repeat (destruct H as [H|H]; [discriminate H|]). exact H.
Defined.

Lemma transfer_move_replaces_witness :
  exists l,
    lastFiles (on_event 2 (TransferMove MainRuns.notes MainRuns.photo)
                 MainRuns.two_transfers)
    = l ++ [new_file 2 MainRuns.notes].
Proof.
  destruct (transfer_move_replaces 2 MainRuns.notes MainRuns.photo MainRuns.two_transfers)
    as (_ & H & _).
  apply H. discriminate.
Defined.

End ShellExtras.

(** ** gui/app/main.js: the locale, the messages and the restart *)

Section TextFacts.
Import Main MainText.

Lemma replace_pending_digit args (pending : string) (c : ascii) (s : string) :
  is_digit c = true ->
  replace_placeholders args (Some pending) (String c s)
  = replace_placeholders args (Some (pending +:+ String c "")) s.
Proof. intros H. cbn [replace_placeholders]. now rewrite H. Qed.

Lemma replace_pending_other args (pending : string) (c : ascii) (s : string) :
  is_digit c = false ->
  replace_placeholders args (Some pending) (String c s)
  = if Ascii.eqb c "}" && negb (String.eqb pending "") then
      to_text (arg_at args (parseInt pending)) +:+ replace_placeholders args None s
    else "{" +:+ pending +:+ replace_placeholders args None (String c s).
Proof. intros H. cbn [replace_placeholders]. now rewrite H. Qed.

Lemma replace_pending_digits args (ds : string) :
  forall (pending s : string),
    fst (digits_of s) = ds ->
    replace_placeholders args (Some pending) s
    = match snd (digits_of s) with
      | String c rest =>
          if Ascii.eqb c "}" && negb (String.eqb (pending +:+ ds) "") then
            to_text (arg_at args (parseInt (pending +:+ ds)))
              +:+ replace_placeholders args None rest
          else "{" +:+ pending +:+ ds +:+ replace_placeholders args None (String c rest)
      | EmptyString => "{" +:+ pending +:+ ds
      end.
Proof.
  induction ds as [|d ds IH]; intros pending s Hs.
  - destruct s as [|c s']; cbn [digits_of fst snd] in *.
    + now rewrite string_app_nil_r.
    + destruct (is_digit c) eqn:Ec; [discriminate Hs|]. cbn [snd].
      rewrite (replace_pending_other _ _ _ _ Ec), !string_app_nil_r. reflexivity.
  - destruct s as [|c s']; [discriminate Hs|]. cbn [digits_of] in *.
    destruct (is_digit c) eqn:Ec; [|discriminate Hs].
    cbn [fst snd] in *. injection Hs as -> Hs.
    rewrite (replace_pending_digit _ _ _ _ Ec).
    rewrite (IH (pending +:+ String d "") s' Hs).
    destruct (snd (digits_of s')) as [|c' rest]; rewrite !string_app_assoc; reflexivity.
Qed.

Lemma digits_of_rest (s : string) :
  match snd (digits_of s) with
  | String c _ => is_digit c = false
  | EmptyString => True
  end.
Proof.
  induction s as [|c s IH]; cbn [digits_of]; [exact I|].
  destruct (is_digit c) eqn:E; cbn [snd]; [exact IH|exact E].
Qed.

Lemma digits_of_app (s : string) : fst (digits_of s) +:+ snd (digits_of s) = s.
Proof.
  induction s as [|c s IH]; cbn [digits_of]; [reflexivity|].
  destruct (is_digit c); cbn [fst snd]; [|reflexivity].
  rewrite string_app_cons. now rewrite IH.
Qed.

Lemma digit_not_brace (c : ascii) : is_digit c = true -> Ascii.eqb c "{" = false.
Proof.
  intros H. destruct (Ascii.eqb_spec c "{") as [->|]; [discriminate H|reflexivity].
Qed.

Lemma replace_digits args (s t : string) :
  replace_placeholders args None (fst (digits_of s) +:+ t)
  = fst (digits_of s) +:+ replace_placeholders args None t.
Proof.
  induction s as [|c s IH]; cbn [digits_of]; [reflexivity|].
  destruct (is_digit c) eqn:E; cbn [fst]; [|reflexivity].
  rewrite !string_app_cons. cbn [replace_placeholders].
  now rewrite (digit_not_brace c E), IH.
Qed.

Lemma translate_empty (e : env) (key : string) :
  translations e = ∅ ->
  translate e key = Js.substr (Js.indexOf " " key + 1) key.
Proof. intros H. apply translate_default. rewrite H. apply lookup_empty. Qed.

Lemma existsb_filter {A} (p q : A -> bool) (l : list A) :
  (forall x, p x = true -> q x = true) ->
  existsb p (List.filter q l) = existsb p l.
Proof.
  intros Hpq. induction l as [|x l IH]; [reflexivity|]. cbn.
  destruct (q x) eqn:Eq; cbn; rewrite IH; [reflexivity|].
  destruct (p x) eqn:Ep; [|reflexivity].
  rewrite (Hpq x Ep) in Eq. discriminate Eq.
Qed.

End TextFacts.

Section TextExtras.
Import Main MainText.

(** X11. [interpolate] is the replacement of the matches of [/{(\d+)}/]
    from left to right: where a placeholder starts, the text of the
    argument with its index (the text "undefined" when there is none) is
    put in its place and the scan goes on after the closing brace, so that
    what was inserted is not scanned; elsewhere the character is copied. *)
Theorem interpolate_scans (s : string) (args : list (option string)) :
  interpolate s args
  = match s with
    | EmptyString => ""
    | String c s' =>
        match placeholder s with
        | Some (index, rest) => to_text (arg_at args index) +:+ interpolate rest args
        | None => String c (interpolate s' args)
        end
    end.
Proof.
  unfold interpolate. destruct s as [|c s']; [reflexivity|].
  cbn [replace_placeholders placeholder].
  destruct (Ascii.eqb_spec c "{") as [->|Hc]; [|reflexivity].
  rewrite (replace_pending_digits args _ "" s' eq_refl).
  pose proof (digits_of_rest s') as Hrest.
  pose proof (digits_of_app s') as Happ.
  pose proof (replace_digits args s') as Hcopy.
  destruct (digits_of s') as [ds rest] eqn:Ed. cbn [fst snd] in *.
  change ("" +:+ ds) with ds.
  assert (Hnone : "{" +:+ ds +:+ replace_placeholders args None rest
                  = String "{" (replace_placeholders args None s')).
  { rewrite <- Happ, Hcopy. reflexivity. }
  destruct rest as [|c' rest].
  - cbn [replace_placeholders] in Hnone. rewrite string_app_nil_r in Hnone.
    destruct ds; (etransitivity; [|exact Hnone]); reflexivity.
  - destruct (Ascii.eqb_spec c' "}") as [->|Hc'].
    + destruct ds as [|d ds]; cbn [andb negb String.eqb]; [exact Hnone|reflexivity].
    + cbn [andb]. destruct ds; (etransitivity; [|exact Hnone]); reflexivity.
Qed.

(** X12. A text without an opening brace comes out of [interpolate] as it
    went in, whatever the arguments are. *)
Theorem interpolate_plain (s : string) (args : list (option string)) :
  Js.includes "{" s = false -> interpolate s args = s.
Proof.
  unfold interpolate. induction s as [|c s IH]; [reflexivity|].
  rewrite includes_char_cons. intros H. apply orb_false_iff in H as [Hc Hs].
  cbn [replace_placeholders]. rewrite Ascii.eqb_sym, Hc, (IH Hs). reflexivity.
Qed.

Lemma interpolate_plain_witness :
  interpolate "it exceeds the path size limit" [Some "file"]
  = "it exceeds the path size limit".
Proof.
  apply (interpolate_plain "it exceeds the path size limit" [Some "file"]).
  vm_compute. reflexivity.
Defined.

(** X13. Without translations, the message for an incompatibility is the
    English sentence with the name, the type, the reasons joined by
    " and " and the name of the platform in the places of the four
    placeholders, then an empty line and the advice to rename; the name is
    copied as it is, braces and digits included, and a missing name reads
    "undefined". *)
Theorem incompatibility_message_english (e : env) (i : incompatibility) :
  translations e = ∅ ->
  incompatibilitiesErrorMessage e i
  = "The “" +:+ to_text (name i) +:+ "” " +:+ to_text (docType i)
      +:+ " cannot be synchronized locally because "
      +:+ Js.join " and " (reasons e i)
      +:+ " on the " +:+ platformName e +:+ " system."
      +:+ newline +:+ newline +:+ "You should rename it in your Cozy.".
Proof.
  intros He. unfold incompatibilitiesErrorMessage.
  assert (Hdoc : translate e ("Helpers " +:+ to_text (docType i)) = to_text (docType i)).
  { rewrite (translate_empty _ _ He).
    change ("Helpers " +:+ to_text (docType i))
      with ("Helpers" +:+ " " +:+ to_text (docType i)).
    rewrite (indexOf_space_app "Helpers" (to_text (docType i)) eq_refl).
    apply (slice_app "Helpers " (to_text (docType i))). }
  rewrite Hdoc, !(translate_empty _ _ He).
  repeat match goal with
         | |- context [Js.substr ?z ?k] =>
             let v := eval vm_compute in (Js.substr z k) in
             replace (Js.substr z k) with v by (vm_compute; reflexivity)
         end.
  change (" " +:+ "and" +:+ " ") with " and ".
  unfold interpolate.
  generalize (name i) (to_text (docType i)) (Js.join " and " (reasons e i))
             (platformName e).
  clear. intros n d r p.
  assert (H : replace_placeholders [n; Some d; Some r; Some p] None
                "The “{0}” {1} cannot be synchronized locally because {2} on the {3} system."
              = "The “" +:+ to_text n +:+ "” " +:+ d
                  +:+ " cannot be synchronized locally because " +:+ r
                  +:+ " on the " +:+ p +:+ " system.")
    by (vm_compute; reflexivity).
  etransitivity; [apply (f_equal (fun t => t +:+ _)), H|].
  rewrite !string_app_assoc. reflexivity.
Qed.

Lemma incompatibility_message_english_witness :
  incompatibilitiesErrorMessage MainRuns.english_env reserved_and_long
  = "The “CON {1}” file cannot be synchronized locally because "
      +:+ "the “CON” name is reserved and it exceeds the name size limit"
      +:+ " on the Linux system." +:+ newline +:+ newline
      +:+ "You should rename it in your Cozy.".
Proof.
  rewrite (incompatibility_message_english MainRuns.english_env reserved_and_long eq_refl).
  vm_compute. reflexivity.
Defined.

(** X14. [setUpLocale] chooses French or English, so that the locale file
    is one of two; a locale that starts with "fr_" is French, one that
    starts with "fr-" is English. *)
Theorem setUpLocale_two_files (locale region : string) :
  In (setUpTranslations (setUpLocale locale))
     [ "./locales/en.json"; "./locales/fr.json" ]
  /\ setUpLocale ("fr_" +:+ region) = "fr"
  /\ setUpLocale ("fr-" +:+ region) = "en".
Proof.
  split; [|split; reflexivity].
  unfold setUpLocale.
  destruct (String.eqb locale "fr" || existsb _ fr_prefixes); cbn; auto.
Qed.

(** X15. The process that [restart] spawns is hidden exactly when the
    running one is: the program is the same, no argument is "--isHidden",
    and "--hidden", the argument the [ready] handler looks for, is among
    the new arguments exactly when it was among the old ones. *)
Theorem restart_keeps_hidden (argv : list string) :
  starts_hidden (restart argv) = starts_hidden argv
  /\ hd_error (restart argv) = hd_error argv
  /\ Forall (fun a => a <> "--isHidden") (restart_args argv).
Proof.
  split; [|split].
  - destruct argv as [|program args]; [reflexivity|].
    unfold restart, restart_args, starts_hidden. cbn [tl existsb]. f_equal.
    apply existsb_filter. intros x Hx. apply String.eqb_eq in Hx as ->. reflexivity.
  - destruct argv; reflexivity.
  - unfold restart_args. apply List.Forall_forall. intros a Ha.
    apply filter_In in Ha as [_ Ha]. apply negb_true_iff, String.eqb_neq in Ha. exact Ha.
Qed.

End TextExtras.

(** ** ContextDir: absolute and relative paths, and a listing that fails *)

Section PathFacts.
Import ContextDir Posix PosixPath.
Local Open Scope list_scope.

Lemma plain_spec (s : string) :
  plain s = true ->
  valid_name s = true /\ s <> "."%string /\ s <> ".."%string /\ s <> ""%string
  /\ no_slash s.
Proof.
  unfold plain. intros H. apply andb_true_iff in H as [H H3].
  apply andb_true_iff in H as [H1 H2].
  apply negb_true_iff, String.eqb_neq in H2, H3.
  destruct (valid_name_no_slash s H1) as [Hne Hns]. auto.
Qed.

Lemma normalize_plain (allow : bool) (segs : list string) :
  Forall (fun s => plain s = true) segs ->
  forall res,
    fold_left (normalize_step allow) segs res = List.rev segs ++ res.
Proof.
  induction 1 as [|s segs Hs Hsegs IH]; intros res; [reflexivity|].
  cbn [fold_left List.rev]. rewrite IH, <- app_assoc. cbn [app]. f_equal.
  destruct (plain_spec s Hs) as (_ & H1 & H2 & H0 & _).
  unfold normalize_step.
  apply String.eqb_neq in H0, H1, H2. rewrite H0, H1, H2. reflexivity.
Qed.

Lemma join_app (a b : list string) :
  a <> [] -> b <> [] ->
  Js.join "/" (a ++ b) = Js.join "/" a +:+ "/" +:+ Js.join "/" b.
Proof.
  induction a as [|x a IH]; intros Ha Hb; [contradiction|].
  destruct a as [|y a].
  - destruct b; [contradiction|reflexivity].
  - change ((x :: y :: a) ++ b) with (x :: (y :: a) ++ b).
    change ((y :: a) ++ b) with (y :: a ++ b) at 1.
    rewrite !join_cons_cons.
    change (y :: a ++ b) with ((y :: a) ++ b).
    rewrite IH by (discriminate || exact Hb). now rewrite !string_app_assoc.
Qed.

Lemma trailing_separator_app (s t : string) :
  t <> ""%string -> trailing_separator (s +:+ t) = trailing_separator t.
Proof.
  intros Ht. induction s as [|c s IH]; [reflexivity|].
  rewrite string_app_cons. cbn [trailing_separator].
  destruct (s +:+ t) eqn:E; [|exact IH].
  destruct s; [|discriminate E]. cbn in E. contradiction.
Qed.

Lemma trailing_separator_no_slash (s : string) :
  no_slash s -> trailing_separator s = false.
Proof.
  unfold no_slash. induction s as [|c s IH]; [reflexivity|].
  rewrite includes_slash_cons. intros H. apply orb_false_iff in H as [Hc Hs].
  cbn [trailing_separator]. destruct s; [now rewrite Ascii.eqb_sym|]. exact (IH Hs).
Qed.

Lemma join_plain_not_empty (segs : list string) :
  segs <> [] -> Forall (fun s => plain s = true) segs ->
  Js.join "/" segs <> ""%string.
Proof.
  intros Hne Hall. destruct segs as [|x segs]; [contradiction|].
  apply Forall_cons in Hall as [Hx _].
  destruct (plain_spec x Hx) as (_ & _ & _ & H0 & _).
  destruct x; [contradiction|]. destruct segs; discriminate.
Qed.

Lemma trailing_separator_join (segs : list string) :
  segs <> [] -> Forall (fun s => plain s = true) segs ->
  trailing_separator (Js.join "/" segs) = false.
Proof.
  induction segs as [|x segs IH]; intros Hne Hall; [contradiction|].
  apply Forall_cons in Hall as [Hx Hall].
  destruct segs as [|y segs].
  - apply trailing_separator_no_slash. now apply plain_spec.
  - rewrite join_cons_cons, <- string_app_assoc, trailing_separator_app.
    + apply IH; [discriminate|exact Hall].
    + apply join_plain_not_empty; [discriminate|exact Hall].
Qed.

Lemma plain_no_slash (segs : list string) :
  Forall (fun s => plain s = true) segs -> Forall no_slash segs.
Proof.
  intros H. eapply Forall_impl; [exact H|]. intros s Hs. now apply plain_spec.
Qed.

(** [path.join] of an absolute normalised directory and a relative
    normalised path puts a separator between them. *)
Lemma join_concat (rsegs tsegs : list string) :
  rsegs <> [] -> tsegs <> [] ->
  Forall (fun s => plain s = true) rsegs ->
  Forall (fun s => plain s = true) tsegs ->
  join ["/" +:+ Js.join "/" rsegs; Js.join "/" tsegs]
  = ("/" +:+ Js.join "/" rsegs) +:+ "/" +:+ Js.join "/" tsegs.
Proof.
  intros Hr Ht Pr Pt.
  pose proof (join_plain_not_empty tsegs Ht Pt) as Hte.
  unfold join. cbn [List.filter String.eqb string_app_cons negb].
  change (("/" +:+ Js.join "/" rsegs =? "")%string) with false. cbn [negb].
  apply String.eqb_neq in Hte as Hte'. rewrite Hte'. cbn [negb Js.join].
  set (t := Js.join "/" tsegs) in *. set (r := Js.join "/" rsegs) in *.
  unfold normalize.
  change ((("/" +:+ r) +:+ "/" +:+ t =? "")%string) with false.
  change (Js.startsWith "/" (("/" +:+ r) +:+ "/" +:+ t)) with true.
  cbn [negb].
  assert (Hsplit : Js.split "/" (("/" +:+ r) +:+ "/" +:+ t)
                   = ""%string :: rsegs ++ tsegs).
  { change (("/" +:+ r) +:+ "/" +:+ t) with ("" +:+ "/" +:+ (r +:+ "/" +:+ t)).
    rewrite split_app_slash by reflexivity. f_equal.
    unfold r, t. rewrite <- join_app by assumption.
    apply split_join.
    - destruct rsegs; [contradiction|discriminate].
    - apply Forall_app. split; now apply plain_no_slash. }
  assert (Hnorm : normalizeString (("/" +:+ r) +:+ "/" +:+ t) false
                  = r +:+ "/" +:+ t).
  { unfold normalizeString. rewrite Hsplit. cbn [fold_left].
    change (normalize_step false [] "") with (@nil string).
    rewrite normalize_plain by (apply Forall_app; split; assumption).
    rewrite app_nil_r, rev_involutive. unfold r, t. now apply join_app. }
  rewrite Hnorm.
  assert (Hne : (r +:+ "/" +:+ t =? "")%string = false).
  { apply String.eqb_neq. destruct r; discriminate. }
  rewrite Hne.
  assert (Htr : trailing_separator (("/" +:+ r) +:+ "/" +:+ t) = false).
  { rewrite <- string_app_assoc, trailing_separator_app by exact Hte.
    unfold t. now apply trailing_separator_join. }
  rewrite Htr. reflexivity.
Qed.

End PathFacts.

Section PathExtras.
Import ContextDir Posix PosixPath.
Local Open Scope list_scope.

(** X16. For a root that is an absolute normalised path other than "/" and
    a target that is a relative normalised path (segments that are names,
    none of them [.] or [..]), [abspath] is the root, a separator and the
    target, and [relpath] gives the target back. *)
Theorem relpath_of_abspath (rsegs tsegs : list string) :
  rsegs <> [] -> tsegs <> [] ->
  Forall (fun s => plain s = true) rsegs ->
  Forall (fun s => plain s = true) tsegs ->
  let root := "/" +:+ Js.join "/" rsegs in
  let target := Js.join "/" tsegs in
  abspath root target = root +:+ "/" +:+ target
  /\ relpath root (abspath root target) = target.
Proof.
  intros Hr Ht Pr Pt. cbv zeta. unfold abspath.
  rewrite (join_concat rsegs tsegs Hr Ht Pr Pt).
  set (root := "/" +:+ Js.join "/" rsegs). set (target := Js.join "/" tsegs).
  split; [reflexivity|].
  unfold relpath. rewrite posixifyPath_posix, <- string_app_assoc.
  replace (String.length root + String.length Path.sep)%nat
    with (String.length (root +:+ "/")) by apply string_app_length.
  apply slice_app.
Qed.

Lemma relpath_of_abspath_witness :
  abspath "/tmp/sync" "parent/dir/file" = "/tmp/sync/parent/dir/file"
  /\ relpath "/tmp/sync" (abspath "/tmp/sync" "parent/dir/file") = "parent/dir/file".
Proof.
  apply (relpath_of_abspath ["tmp"; "sync"] ["parent"; "dir"; "file"]);
    try discriminate; repeat constructor.
Defined.

End PathExtras.

Section RejectExtras.
Import ContextDir PosixPath.
Local Open Scope list_scope.

(** Node's [path] on either platform. *)
Context {platform_path : Path.flavour}.

Lemma read_names_rejects st (root dir name : string) (names : list string) :
  In name names -> st (Path.join dir name) = None ->
  forall dq rp, read_names st root dir names dq rp = None.
Proof.
  intros Hin Hst. induction names as [|n names IH]; intros dq rp; [contradiction|].
  cbn [read_names]. destruct Hin as [->|Hin]; [now rewrite Hst|].
  destruct (st (Path.join dir n)) as [[|]|]; [apply IH, Hin|apply IH, Hin|reflexivity].
Qed.

(** X17. When a name that the root holds cannot be examined ([stat]
    rejects), or the root cannot be read, [tree] rejects: it gives no
    partial listing, whatever else the directory holds. *)
Theorem tree_rejects (TMP_DIR_NAME : string) (localeCompare : string -> string -> Z)
    (readdirAsync : string -> option (list string))
    (statAsync : string -> option bool) (root : string) :
  readdirAsync root = None
  \/ (exists names name,
        readdirAsync root = Some names /\ In name names
        /\ statAsync (Path.join root name) = None) ->
  forall fuel,
    tree TMP_DIR_NAME localeCompare readdirAsync statAsync root (S fuel) = Rejected.
Proof.
  intros H fuel. unfold tree. cbn [walk].
  destruct H as [->|(names & name & -> & Hin & Hst)]; [reflexivity|].
  now rewrite (read_names_rejects statAsync root root name names Hin Hst).
Qed.

End RejectExtras.

Section RejectExample.
Import ContextDir PosixPath.
Local Open Scope list_scope.

Lemma tree_rejects_witness :
  tree ".system-tmp-cozy-drive" Disk.byteCompare ghost_readdir ghost_stat "/sync" 5
  = Rejected.
Proof.
  apply (tree_rejects ".system-tmp-cozy-drive" Disk.byteCompare
           ghost_readdir ghost_stat "/sync").
  right. exists ["a"; "ghost"; "b"]%string, "ghost"%string.
  split; [reflexivity|]. split; [cbn; auto|reflexivity].
Defined.

End RejectExample.

(** ** ContextDir.tree on a directory tree *)

Section CharFacts.
Import ContextDir.
Local Open Scope list_scope.

Lemma split_no_char (c : ascii) (s : string) :
  Js.includes (String c "") s = false -> Js.split c s = [s].
Proof.
  induction s as [|a s IH]; [reflexivity|].
  rewrite includes_char_cons. intros H. apply orb_false_iff in H as [Ha Hs].
  cbn [Js.split]. rewrite Ascii.eqb_sym, Ha, (IH Hs). reflexivity.
Qed.

Lemma split_join_char (c : ascii) (segs : list string) :
  segs <> [] ->
  Forall (fun s => Js.includes (String c "") s = false) segs ->
  Js.split c (Js.join (String c "") segs) = segs.
Proof.
  induction segs as [|x segs IH]; intros Hne Hall; [contradiction|].
  apply Forall_cons in Hall as [Hx Hall].
  destruct segs as [|y segs]; [now apply split_no_char|].
  rewrite join_cons_cons.
  change (x +:+ String c "" +:+ Js.join (String c "") (y :: segs))
    with (x +:+ String c (Js.join (String c "") (y :: segs))).
  rewrite split_app_sep, (split_no_char c x Hx).
  rewrite IH; [reflexivity|discriminate|exact Hall].
Qed.

End CharFacts.

Section WalkFacts.
Import ContextDir.
Local Open Scope list_scope.

Context {platform_path : Path.flavour}.
Variable readdirAsync : string -> option (list string).
Variable statAsync : string -> option bool.
Variable root : string.
Hypothesis Hroot : rooted root.

Local Abbreviation readable := (ContextDir.readable readdirAsync statAsync root).
Local Abbreviation listed := (fun s => listed_name s = true).

Lemma listed_no_sep (s : string) :
  listed_name s = true -> Js.includes Path.sep s = false.
Proof.
  unfold listed_name. intros H. apply andb_true_iff in H as [_ H].
  now apply negb_true_iff in H.
Qed.

Lemma abs_snoc (segs : list string) (name : string) :
  abs root (segs ++ [name]) = Path.join (abs root segs) name.
Proof. unfold abs. rewrite fold_left_app. reflexivity. Qed.

Lemma beneath_snoc (r : string) (segs : list string) (name : string) :
  beneath r (segs ++ [name]) = beneath r segs +:+ Path.sep +:+ name.
Proof. unfold beneath. rewrite fold_left_app. reflexivity. Qed.

(** Below a root that [path.join] respects, the paths the walk builds are
    the root and the names, each behind a separator. *)
Lemma abs_beneath (segs : list string) :
  Forall listed segs -> abs root segs = beneath root segs.
Proof.
  induction segs as [|name segs IH] using rev_ind; intros Hall; [reflexivity|].
  apply Forall_app in Hall as [Hsegs Hname].
  apply Forall_cons in Hname as [Hname _].
  rewrite abs_snoc, (IH Hsegs). now apply Hroot.
Qed.

Lemma beneath_join (r : string) (segs : list string) :
  segs <> [] -> beneath r segs = r +:+ Path.sep +:+ Js.join Path.sep segs.
Proof.
  revert r. induction segs as [|x segs IH]; intros r Hne; [contradiction|].
  destruct segs as [|y segs]; [reflexivity|].
  change (beneath r (x :: y :: segs)) with (beneath (r +:+ Path.sep +:+ x) (y :: segs)).
  rewrite IH by discriminate.
  rewrite join_cons_cons. now rewrite !string_app_assoc.
Qed.

Lemma relpath_abs (segs : list string) :
  segs <> [] -> Forall listed segs ->
  relpath root (abs root segs) = Js.join "/" segs.
Proof.
  intros Hne Hall. unfold relpath.
  rewrite (abs_beneath segs Hall), (beneath_join root segs Hne).
  rewrite <- string_app_assoc.
  replace (String.length root + String.length Path.sep)%nat
    with (String.length (root +:+ Path.sep)) by apply string_app_length.
  rewrite slice_app. unfold posixifyPath, Path.sep.
  rewrite split_join_char; [reflexivity|exact Hne|].
  eapply Forall_impl; [exact Hall|]. intros s Hs. now apply listed_no_sep.
Qed.

Lemma mounted_children dir name children :
  mounted readdirAsync statAsync dir (Dir name children) ->
  statAsync (Path.join dir name) = Some true
  /\ readdirAsync (Path.join dir name) = Some (map name_of children)
  /\ Forall (mounted readdirAsync statAsync (Path.join dir name)) children.
Proof.
  cbn. intros (Hs & Hr & Hc). split; [exact Hs|]. split; [exact Hr|].
  clear Hs Hr. induction children as [|c cs IH]; [constructor|].
  destruct Hc as [Hc Hcs]. constructor; auto.
Qed.

Lemma well_named_name (c : entry) : well_named c -> listed_name (name_of c) = true.
Proof. destruct c as [name|name children]; cbn; tauto. Qed.

Lemma read_names_spec (segs : list string) (cs : list entry) :
  Forall listed segs ->
  Forall well_named cs ->
  Forall (mounted readdirAsync statAsync (abs root segs)) cs ->
  forall dq rp,
    read_names statAsync root (abs root segs) (map name_of cs) dq rp
    = Some (dq ++ map (fun q => abs root (fst q)) (subdirs segs cs),
            rp ++ map show (direct segs cs)).
Proof.
  intros Hsegs Hwn Hm. revert Hwn.
  induction Hm as [|c cs Hc Hcs IH]; intros Hwn dq rp.
  - cbn. now rewrite !app_nil_r.
  - apply Forall_cons in Hwn as [Hwc Hwn].
    cbn [map read_names].
    assert (Hrel : relpath root (Path.join (abs root segs) (name_of c))
                   = Js.join "/" (segs ++ [name_of c])).
    { rewrite <- abs_snoc. apply relpath_abs; [now destruct segs|].
      apply Forall_app. split; [exact Hsegs|].
      constructor; [now apply well_named_name|constructor]. }
    destruct c as [name|name children].
    + cbn in Hc. cbn [name_of] in *. rewrite Hc, (IH Hwn), Hrel.
      cbn [subdirs flat_map direct map app]. unfold show at 2. cbn [fst snd].
      rewrite string_app_nil_r, <- app_assoc. reflexivity.
    + apply mounted_children in Hc as (Hs & _ & _).
      cbn [name_of] in *. rewrite Hs, (IH Hwn), Hrel.
      cbn [subdirs flat_map direct map app]. unfold show at 2. cbn [fst snd].
      rewrite abs_snoc, <- !app_assoc. reflexivity.
Qed.

Lemma subdirs_readable (segs : list string) (cs : list entry) :
  Forall listed segs ->
  Forall well_named cs ->
  Forall (mounted readdirAsync statAsync (abs root segs)) cs ->
  Forall readable (subdirs segs cs).
Proof.
  intros Hsegs Hwn Hm. revert Hwn.
  induction Hm as [|c cs Hc Hcs IH]; intros Hwn; [constructor|].
  apply Forall_cons in Hwn as [Hwc Hwn].
  destruct c as [name|name children]; [exact (IH Hwn)|].
  cbn [subdirs flat_map app]. constructor; [|exact (IH Hwn)].
  apply mounted_children in Hc as (_ & Hr & Hm).
  apply well_named_dir in Hwc as (Hn & _ & Hch).
  unfold readable, ContextDir.readable. cbn [fst snd]. rewrite abs_snoc.
  split; [exact Hr|]. split; [exact Hm|]. split; [|exact Hch].
  apply Forall_app. split; [exact Hsegs|]. constructor; [exact Hn|constructor].
Qed.

Lemma subdirs_file (segs : list string) (name : string) (cs : list entry) :
  subdirs segs (File name :: cs) = subdirs segs cs.
Proof. reflexivity. Qed.

Lemma subdirs_dir (segs : list string) (name : string) (children cs : list entry) :
  subdirs segs (Dir name children :: cs)
  = (segs ++ [name], children) :: subdirs segs cs.
Proof. reflexivity. Qed.

Lemma list_sum_cons (x : nat) (l : list nat) :
  list_sum (x :: l) = (x + list_sum l)%nat.
Proof. reflexivity. Qed.

Lemma subdirs_size (segs : list string) (cs : list entry) :
  list_sum (map qsize (subdirs segs cs)) = list_sum (map dirs cs).
Proof.
  induction cs as [|c cs IH]; [reflexivity|].
  destruct c as [name|name children].
  - rewrite subdirs_file, IH. reflexivity.
  - rewrite subdirs_dir. cbn [map]. rewrite !list_sum_cons, IH. reflexivity.
Qed.

Lemma below_direct_subdirs (segs : list string) (cs : list entry) :
  Permutation (flat_map (below segs) cs)
              (direct segs cs ++ flat_map qlisting (subdirs segs cs)).
Proof.
  induction cs as [|c cs IH]; [reflexivity|].
  destruct c as [name|name children].
  - rewrite subdirs_file. cbn [flat_map below direct map app name_of].
    apply perm_skip. exact IH.
  - rewrite subdirs_dir. cbn [flat_map below direct map app name_of].
    apply perm_skip. unfold qlisting at 1. cbn [fst snd].
    rewrite IH.
    rewrite !app_assoc. apply Permutation_app_tail. apply Permutation_app_comm.
Qed.

Lemma walk_spec (fuel : nat) :
  forall (q : list (list string * list entry)) (rp : list string),
    Forall readable q ->
    (list_sum (map qsize q) <= fuel)%nat ->
    exists out,
      walk readdirAsync statAsync root fuel (map (fun q => abs root (fst q)) q) rp
      = Returned (rp ++ out)
      /\ Permutation out (map show (flat_map qlisting q)).
Proof.
  induction fuel as [|fuel IH]; intros q rp Hq Hfuel.
  - destruct q as [|[segs cs] q]; [|cbn in Hfuel; lia].
    exists []. cbn. rewrite app_nil_r. auto.
  - destruct q as [|[segs cs] q].
    { exists []. cbn. rewrite app_nil_r. auto. }
    apply Forall_cons in Hq as [(Hr & Hm & Hsegs & Hwn) Hq]. cbn [fst snd] in *.
    cbn [map walk fst]. rewrite Hr, (read_names_spec segs cs Hsegs Hwn Hm).
    rewrite <- map_app.
    destruct (IH (q ++ subdirs segs cs) (rp ++ map show (direct segs cs)))
      as (out & Hw & Hp).
    { apply Forall_app. split; [exact Hq|]. now apply subdirs_readable. }
    { rewrite map_app, list_sum_app, subdirs_size.
      cbn [map] in Hfuel. rewrite list_sum_cons in Hfuel.
      unfold qsize at 1 in Hfuel. cbn [snd] in Hfuel. lia. }
    exists (map show (direct segs cs) ++ out). split.
    + rewrite Hw, <- app_assoc. reflexivity.
    + rewrite Hp. cbn [flat_map]. rewrite flat_map_app, !map_app.
      unfold qlisting at 3. cbn [fst snd].
      rewrite (below_direct_subdirs segs cs), map_app.
      rewrite <- !app_assoc. apply Permutation_app_head. apply Permutation_app_comm.
Qed.

Lemma walk_fuel_mono (fuel : nat) :
  forall q rp r fuel',
    walk readdirAsync statAsync root fuel q rp = Returned r -> (fuel <= fuel')%nat ->
    walk readdirAsync statAsync root fuel' q rp = Returned r.
Proof.
  induction fuel as [|fuel IH]; intros q rp r fuel' Hw Hle.
  - destruct q; [|discriminate Hw]. destruct fuel'; exact Hw.
  - destruct q as [|dir q]; [destruct fuel'; exact Hw|].
    destruct fuel' as [|fuel']; [lia|].
    cbn [walk] in *. destruct (readdirAsync dir) as [names|]; [|discriminate Hw].
    destruct (read_names statAsync root dir names q rp) as [[dq rp']|];
      [|discriminate Hw].
    apply IH; [exact Hw|lia].
Qed.

End WalkFacts.

(** ** The roots that [path.join] respects *)

Section PosixRoots.
Import ContextDir Posix PosixPath.
Local Open Scope list_scope.

Lemma listed_plain (s : string) :
  listed_name (H := Path.posix) s = true -> plain s = true.
Proof.
  unfold listed_name, plain. intros H. apply andb_true_iff in H as [H _]. exact H.
Qed.

Lemma beneath_posix (rsegs segs : list string) :
  rsegs <> [] ->
  beneath (H := Path.posix) ("/" +:+ Js.join "/" rsegs) segs
  = "/" +:+ Js.join "/" (rsegs ++ segs).
Proof.
  intros Hr. destruct segs as [|x segs]; [now rewrite app_nil_r|].
  rewrite beneath_join by discriminate.
  rewrite join_app by (assumption || discriminate).
  unfold Path.sep. cbn [Path.sep_char Path.posix]. now rewrite !string_app_assoc.
Qed.

(** On POSIX, a root that is a normalised absolute path other than [/]. *)
Lemma posix_rooted (rsegs : list string) :
  rsegs <> [] -> Forall (fun s => plain s = true) rsegs ->
  rooted (H := Path.posix) ("/" +:+ Js.join "/" rsegs).
Proof.
  intros Hr Pr segs name Hsegs Hname.
  rewrite !beneath_posix by exact Hr.
  assert (Pall : Forall (fun s => plain s = true) (rsegs ++ segs)).
  { apply Forall_app. split; [exact Pr|].
    eapply Forall_impl; [exact Hsegs|]. intros s Hs. now apply listed_plain. }
  assert (Hne : rsegs ++ segs <> []) by (destruct rsegs; [contradiction|discriminate]).
  change (Path.join ("/" +:+ Js.join "/" (rsegs ++ segs)) name)
    with (join ["/" +:+ Js.join "/" (rsegs ++ segs); Js.join "/" [name]]).
  rewrite (join_concat (rsegs ++ segs) [name] Hne); [|discriminate|exact Pall|].
  - rewrite app_assoc, (join_app (rsegs ++ segs) [name]) by (assumption || discriminate).
    now rewrite !string_app_assoc.
  - constructor; [now apply listed_plain|constructor].
Qed.

End PosixRoots.

Section Win32Roots.
Import ContextDir Win32.
Local Open Scope list_scope.

Local Abbreviation bs := (String backslash "").

Lemma letter_no_separator (d : ascii) :
  isWindowsDeviceRoot d = true -> isPathSeparator d = false.
Proof.
  destruct d as [[] [] [] [] [] [] [] []]; intros H; try reflexivity;
    vm_compute in H; discriminate H.
Qed.

Lemma no_separator_cons (a : ascii) (s : string) :
  Js.includes "/" (String a s) = false ->
  Js.includes bs (String a s) = false ->
  isPathSeparator a = false
  /\ Js.includes "/" s = false /\ Js.includes bs s = false.
Proof.
  rewrite !includes_char_cons. intros H1 H2.
  apply orb_false_iff in H1 as [A1 S1]. apply orb_false_iff in H2 as [A2 S2].
  unfold isPathSeparator. rewrite (Ascii.eqb_sym a "/"), (Ascii.eqb_sym a backslash).
  now rewrite A1, A2.
Qed.

Lemma listed_win32 (s : string) :
  listed_name (H := Path.win32) s = true ->
  s <> ""%string /\ s <> "."%string /\ s <> ".."%string
  /\ Js.includes "/" s = false /\ Js.includes bs s = false.
Proof.
  unfold listed_name, valid_name. intros H.
  apply andb_true_iff in H as [H H4]. apply andb_true_iff in H as [H H3].
  apply andb_true_iff in H as [H H2]. apply andb_true_iff in H as [H0 H1].
  apply negb_true_iff in H0, H1, H2, H3, H4.
  apply String.eqb_neq in H0, H2, H3. auto.
Qed.

Lemma segments_not_nil (s : string) : segments s <> [].
Proof.
  induction s as [|a s IH]; cbn; [discriminate|].
  destruct (isPathSeparator a); [discriminate|].
  destruct (segments s); [contradiction|discriminate].
Qed.

Lemma segments_name (s : string) :
  Js.includes "/" s = false -> Js.includes bs s = false -> segments s = [s].
Proof.
  induction s as [|a s IH]; [reflexivity|]. intros H1 H2.
  destruct (no_separator_cons a s H1 H2) as (Ha & S1 & S2).
  cbn [segments]. now rewrite Ha, (IH S1 S2).
Qed.

Lemma segments_app (c : ascii) (s t : string) :
  isPathSeparator c = true ->
  segments (s +:+ String c t) = segments s ++ segments t.
Proof.
  intros Hc. induction s as [|a s IH].
  - change ("" +:+ String c t) with (String c t). cbn [segments app]. now rewrite Hc.
  - rewrite string_app_cons. cbn [segments]. rewrite IH.
    destruct (isPathSeparator a); [reflexivity|].
    pose proof (segments_not_nil s) as Hn.
    destruct (segments s) as [|x xs]; [contradiction|reflexivity].
Qed.

Lemma segments_join (segs : list string) :
  segs <> [] ->
  Forall (fun s => listed_name (H := Path.win32) s = true) segs ->
  segments (Js.join bs segs) = segs.
Proof.
  induction segs as [|x segs IH]; intros Hne Hall; [contradiction|].
  apply Forall_cons in Hall as [Hx Hall].
  destruct (listed_win32 x Hx) as (_ & _ & _ & X1 & X2).
  destruct segs as [|y segs]; [now apply segments_name|].
  rewrite join_cons_cons.
  change (x +:+ bs +:+ Js.join bs (y :: segs))
    with (x +:+ String backslash (Js.join bs (y :: segs))).
  rewrite segments_app by reflexivity.
  rewrite (segments_name x X1 X2), IH; [reflexivity|discriminate|exact Hall].
Qed.

Lemma normalize_listed (allow : bool) (segs : list string) :
  Forall (fun s => listed_name (H := Path.win32) s = true) segs ->
  forall res,
    fold_left (Posix.normalize_step allow) segs res = List.rev segs ++ res.
Proof.
  induction 1 as [|s segs Hs Hsegs IH]; intros res; [reflexivity|].
  cbn [fold_left List.rev]. rewrite IH, <- app_assoc. cbn [app]. f_equal.
  destruct (listed_win32 s Hs) as (H0 & H1 & H2 & _).
  unfold Posix.normalize_step.
  apply String.eqb_neq in H0, H1, H2. rewrite H0, H1, H2. reflexivity.
Qed.

Lemma win32_trailing_app (s t : string) :
  t <> ""%string -> trailing_separator (s +:+ t) = trailing_separator t.
Proof.
  intros Ht. induction s as [|c s IH]; [reflexivity|].
  rewrite string_app_cons. cbn [trailing_separator].
  destruct (s +:+ t) eqn:E; [|exact IH].
  destruct s; [|discriminate E]. cbn in E. contradiction.
Qed.

Lemma win32_trailing_name (s : string) :
  Js.includes "/" s = false -> Js.includes bs s = false ->
  trailing_separator s = false.
Proof.
  induction s as [|a s IH]; [reflexivity|]. intros H1 H2.
  destruct (no_separator_cons a s H1 H2) as (Ha & S1 & S2).
  cbn [trailing_separator]. destruct s; [exact Ha|]. exact (IH S1 S2).
Qed.

Lemma join_listed_not_empty (segs : list string) :
  segs <> [] ->
  Forall (fun s => listed_name (H := Path.win32) s = true) segs ->
  Js.join bs segs <> ""%string.
Proof.
  intros Hne Hall. destruct segs as [|x segs]; [contradiction|].
  apply Forall_cons in Hall as [Hx _].
  destruct (listed_win32 x Hx) as (H0 & _).
  destruct x; [contradiction|]. destruct segs; discriminate.
Qed.

Lemma parse_root_drive (d : ascii) (segs : list string) :
  isWindowsDeviceRoot d = true ->
  parse_root (drive_path d segs)
  = Root (Some (String d ":")) true (Js.join bs segs).
Proof.
  intros Hd. unfold parse_root, drive_path.
  rewrite (letter_no_separator d Hd), Hd. reflexivity.
Qed.

Lemma win32_trailing_join (segs : list string) :
  segs <> [] ->
  Forall (fun s => listed_name (H := Path.win32) s = true) segs ->
  trailing_separator (Js.join bs segs) = false.
Proof.
  induction segs as [|x segs IH]; intros Hne Hall; [contradiction|].
  apply Forall_cons in Hall as [Hx Hall].
  destruct (listed_win32 x Hx) as (_ & _ & _ & X1 & X2).
  destruct segs as [|y segs]; [now apply win32_trailing_name|].
  rewrite join_cons_cons, <- string_app_assoc, win32_trailing_app.
  - apply IH; [discriminate|exact Hall].
  - apply join_listed_not_empty; [discriminate|exact Hall].
Qed.

(** [path.win32.normalize] leaves a normalised path on a drive as it
    is. *)
Lemma normalize_drive_path (d : ascii) (segs : list string) :
  isWindowsDeviceRoot d = true -> segs <> [] ->
  Forall (fun s => listed_name (H := Path.win32) s = true) segs ->
  normalize (drive_path d segs) = drive_path d segs.
Proof.
  intros Hd Hne Hall.
  assert (Hnorm : normalizeString (Js.join bs segs) false = Js.join bs segs).
  { unfold normalizeString. rewrite (segments_join segs Hne Hall).
    rewrite normalize_listed by exact Hall. now rewrite app_nil_r, rev_involutive. }
  pose proof (join_listed_not_empty segs Hne Hall) as Hj.
  apply String.eqb_neq in Hj.
  assert (Htr : trailing_separator (drive_path d segs) = false).
  { change (drive_path d segs) with (String d (String ":" bs) +:+ Js.join bs segs).
    rewrite win32_trailing_app by (now apply String.eqb_neq).
    now apply win32_trailing_join. }
  change (normalize (drive_path d segs))
    with (match parse_root (drive_path d segs) with
          | UncRootOnly result => result
          | Root device isAbsolute afterRoot =>
              let tail := normalizeString afterRoot (negb isAbsolute) in
              let tail :=
                if String.eqb tail "" && negb isAbsolute then "."%string else tail in
              let tail :=
                if negb (String.eqb tail "") && trailing_separator (drive_path d segs)
                then tail +:+ bs else tail in
              match device with
              | None => if isAbsolute then String backslash tail else tail
              | Some device =>
                  if isAbsolute then device +:+ String backslash tail
                  else device +:+ tail
              end
          end).
  rewrite (parse_root_drive d segs Hd). cbv zeta. cbn [negb].
  rewrite Hnorm, Hj. cbn [andb negb]. rewrite Hj. cbn [andb negb].
  rewrite Htr. reflexivity.
Qed.

Lemma beneath_win32 (d : ascii) (rsegs segs : list string) :
  rsegs <> [] ->
  beneath (H := Path.win32) (drive_path d rsegs) segs = drive_path d (rsegs ++ segs).
Proof.
  intros Hr. revert rsegs Hr.
  induction segs as [|x segs IH]; intros rsegs Hr; [now rewrite app_nil_r|].
  change (beneath (H := Path.win32) (drive_path d rsegs) (x :: segs))
    with (beneath (H := Path.win32) (drive_path d rsegs +:+ bs +:+ x) segs).
  replace (drive_path d rsegs +:+ bs +:+ x) with (drive_path d (rsegs ++ [x])).
  - rewrite IH by (destruct rsegs; discriminate). now rewrite <- app_assoc.
  - unfold drive_path. rewrite (join_snoc bs rsegs x Hr). reflexivity.
Qed.

(** On win32, a root that is a normalised path on a drive, other than the
    root directory of the drive. *)
Lemma win32_rooted (d : ascii) (rsegs : list string) :
  isWindowsDeviceRoot d = true -> rsegs <> [] ->
  Forall (fun s => listed_name (H := Path.win32) s = true) rsegs ->
  rooted (H := Path.win32) (drive_path d rsegs).
Proof.
  intros Hd Hr Pr segs name Hsegs Hname.
  rewrite !beneath_win32 by exact Hr.
  assert (Hne : rsegs ++ segs <> []) by (destruct rsegs; [contradiction|discriminate]).
  assert (Pall : Forall (fun s => listed_name (H := Path.win32) s = true)
                   ((rsegs ++ segs) ++ [name])).
  { apply Forall_app. split; [apply Forall_app; split; assumption|].
    constructor; [exact Hname|constructor]. }
  destruct (listed_win32 name Hname) as (N0 & _).
  change (Path.join (drive_path d (rsegs ++ segs)) name)
    with (join [drive_path d (rsegs ++ segs); name]).
  unfold join. cbn [List.filter]. unfold drive_path at 1. cbn [String.eqb negb].
  apply String.eqb_neq in N0 as N0'. rewrite N0'. cbn [negb].
  fold (drive_path d (rsegs ++ segs)).
  assert (Hj : Js.join bs [drive_path d (rsegs ++ segs); name]
               = drive_path d ((rsegs ++ segs) ++ [name])).
  { unfold drive_path. rewrite (join_snoc bs (rsegs ++ segs) name Hne). reflexivity. }
  rewrite Hj. unfold drive_path at 1.
  rewrite (letter_no_separator d Hd). cbn [andb negb].
  unfold drive_path at 1. cbn [count_separators].
  rewrite (letter_no_separator d Hd). cbn [Nat.leb].
  fold (drive_path d ((rsegs ++ segs) ++ [name])).
  rewrite normalize_drive_path; [now rewrite <- app_assoc|exact Hd| |exact Pall].
  destruct (rsegs ++ segs); discriminate.
Qed.

End Win32Roots.

Section TreeClaim.
Import ContextDir.
Local Open Scope list_scope.

Lemma byteCompare_before (a b : string) :
  before Disk.byteCompare a b <-> String.le a b.
Proof.
  unfold before, Disk.byteCompare, String.le, String.leb.
  destruct (String.compare a b); cbn; split; intros H; try lia; try exact I;
    try contradiction.
Qed.

(** C10. On either flavour of [path], for a root that is written as a
    normalised absolute path and a directory tree of names that
    [fs.readdir] can list, [ContextDir.tree] returns (given fuel for one
    round per directory) the forward-slash relative paths of all entries
    reachable from the root, a directory with a trailing slash, except the
    entry of the staging directory, [TMP_DIR_NAME/]; the result is sorted
    by [localeCompare], and each remaining entry occurs in it exactly
    once. *)
Theorem tree_lists_every_entry
    (platform_path : Path.flavour)
    (TMP_DIR_NAME : string) (localeCompare : string -> string -> Z)
    (readdirAsync : string -> option (list string))
    (statAsync : string -> option bool) (root : string) (children : list entry) :
  (forall a b, before localeCompare a b \/ before localeCompare b a) ->
  (forall a b c, before localeCompare a b -> before localeCompare b c ->
                 before localeCompare a c) ->
  rooted root ->
  mounted_root readdirAsync statAsync root children ->
  well_named_root children ->
  exists relPaths,
    (forall fuel, (S (list_sum (map dirs children)) <= fuel)%nat ->
       tree TMP_DIR_NAME localeCompare readdirAsync statAsync root fuel
       = Returned relPaths)
    /\ Permutation relPaths
         (List.filter (fun p => negb (String.eqb p (TMP_DIR_NAME +:+ "/")))
                      (map show (listing children)))
    /\ Sorted (before localeCompare) relPaths
    /\ ~ In (TMP_DIR_NAME +:+ "/") relPaths
    /\ NoDup relPaths
    /\ (forall e, In e (listing children) -> show e <> TMP_DIR_NAME +:+ "/" ->
        count_occ string_dec relPaths (show e) = 1%nat).
Proof.
  intros Htotal Htrans Hroot Hmount Hnamed.
  set (keep := fun p => negb (String.eqb p (TMP_DIR_NAME +:+ "/"))).
  destruct (walk_spec readdirAsync statAsync root Hroot
              (S (list_sum (map dirs children))) [([], children)] [])
    as (out & Hw & Hp).
  { constructor; [|constructor]. destruct Hmount as [Hr Hm].
    split; [exact Hr|]. split; [exact Hm|]. split; [constructor|apply Hnamed]. }
  { cbn [map]. rewrite list_sum_cons. change (list_sum []) with 0%nat.
    unfold qsize. cbn [snd]. lia. }
  cbn [map fst app] in Hw. unfold qlisting in Hp. cbn [flat_map fst snd] in Hp.
  rewrite app_nil_r in Hp. fold (listing children) in Hp.
  exists (List.filter keep (sort localeCompare out)).
  assert (Hperm : Permutation (List.filter keep (sort localeCompare out))
                              (List.filter keep (map show (listing children)))).
  { apply filter_bool_Permutation. unfold sort. rewrite merge_sort_Permutation. exact Hp. }
  assert (Hnodup : NoDup (List.filter keep (sort localeCompare out))).
  { rewrite Hperm. eapply sublist_NoDup; [|apply filter_bool_sublist].
    now apply listing_NoDup. }
  split.
  { intros fuel Hfuel. unfold tree.
    change (abs root []) with root in Hw.
    rewrite (walk_fuel_mono _ _ _ _ _ _ _ fuel Hw Hfuel). reflexivity. }
  split; [exact Hperm|]. split.
  { apply StronglySorted_Sorted.
    eapply StronglySorted_sublist; [apply filter_bool_sublist|].
    unfold sort. apply StronglySorted_merge_sort.
    - intros a b c. apply Htrans.
    - intros a b. apply Htotal. }
  split.
  { intros Hin. apply filter_In in Hin as [_ Hk]. unfold keep in Hk.
    rewrite String.eqb_refl in Hk. discriminate Hk. }
  split; [exact Hnodup|].
  intros e He Hne.
  apply NoDup_count_occ'; [apply NoDup_ListNoDup, Hnodup|].
  eapply Permutation_in; [symmetry; exact Hperm|].
  apply filter_In. split; [apply in_map, He|].
  unfold keep. apply negb_true_iff, String.eqb_neq, Hne.
Qed.

Lemma tree_lists_every_entry_witness :
  tree ".system-tmp-cozy-drive" Disk.byteCompare
       (Disk.readdir "/sync" Disk.sample) (Disk.stat "/sync" Disk.sample) "/sync" 6
  = Returned [ ".system-tmp-cozy-drive/foo.txt.tmp"; "foo.txt"; "parent/";
               "parent/dir/"; "parent/dir/empty-subdir/"; "parent/dir/subdir/";
               "parent/dir/subdir/file" ]%string
  /\ tree (platform_path := Path.win32) ".system-tmp-cozy-drive" Disk.byteCompare
       (Disk.readdir (H := Path.win32) Disk.cozy_dir Disk.sample)
       (Disk.stat (H := Path.win32) Disk.cozy_dir Disk.sample) Disk.cozy_dir 6
     = Returned [ ".system-tmp-cozy-drive/foo.txt.tmp"; "foo.txt"; "parent/";
                  "parent/dir/"; "parent/dir/empty-subdir/"; "parent/dir/subdir/";
                  "parent/dir/subdir/file" ]%string
  /\ (exists relPaths,
       (forall fuel, (S (list_sum (map dirs Disk.sample)) <= fuel)%nat ->
          tree ".system-tmp-cozy-drive" Disk.byteCompare
               (Disk.readdir "/sync" Disk.sample) (Disk.stat "/sync" Disk.sample)
               "/sync" fuel
          = Returned relPaths)
       /\ Sorted (before Disk.byteCompare) relPaths
       /\ NoDup relPaths)
  /\ (exists relPaths,
       (forall fuel, (S (list_sum (map dirs Disk.sample)) <= fuel)%nat ->
          tree (platform_path := Path.win32) ".system-tmp-cozy-drive" Disk.byteCompare
               (Disk.readdir (H := Path.win32) Disk.cozy_dir Disk.sample)
               (Disk.stat (H := Path.win32) Disk.cozy_dir Disk.sample) Disk.cozy_dir fuel
          = Returned relPaths)
       /\ Sorted (before Disk.byteCompare) relPaths
       /\ NoDup relPaths).
Proof.
  split; [vm_compute; reflexivity|]. split; [vm_compute; reflexivity|].
  split.
  - destruct (tree_lists_every_entry Path.posix ".system-tmp-cozy-drive"
                Disk.byteCompare
                (Disk.readdir "/sync" Disk.sample) (Disk.stat "/sync" Disk.sample)
                "/sync" Disk.sample)
      as (relPaths & H1 & _ & H3 & _ & H5 & _).
    + intros a b. rewrite !byteCompare_before. apply String.le_total.
    + intros a b c. rewrite !byteCompare_before. apply PreOrder_Transitive.
    + apply (posix_rooted ["sync"]); [discriminate|].
      constructor; [reflexivity|constructor].
    + split; [vm_compute; reflexivity|].
      repeat first [ apply Forall_cons_2 | apply Forall_nil_2 ];
        cbn [mounted fold_right];
        repeat first [ split | exact I | vm_compute; reflexivity ].
    + unfold well_named_root.
      repeat first [ split | apply Forall_cons_2 | apply Forall_nil_2
                   | apply List.NoDup_cons | apply List.NoDup_nil
                   | reflexivity | exact I ];
        cbn; apply (bool_decide_unpack _); reflexivity.
    + exists relPaths. auto.
  - destruct (tree_lists_every_entry Path.win32 ".system-tmp-cozy-drive"
                Disk.byteCompare
                (Disk.readdir (H := Path.win32) Disk.cozy_dir Disk.sample)
                (Disk.stat (H := Path.win32) Disk.cozy_dir Disk.sample)
                Disk.cozy_dir Disk.sample)
      as (relPaths & H1 & _ & H3 & _ & H5 & _).
    + intros a b. rewrite !byteCompare_before. apply String.le_total.
    + intros a b c. rewrite !byteCompare_before. apply PreOrder_Transitive.
    + apply (win32_rooted "C" ["Users"; "me"; "Cozy"]);
        [reflexivity|discriminate|].
      repeat (constructor; [reflexivity|]). constructor.
    + split; [vm_compute; reflexivity|].
      repeat first [ apply Forall_cons_2 | apply Forall_nil_2 ];
        cbn [mounted fold_right];
        repeat first [ split | exact I | vm_compute; reflexivity ].
    + unfold well_named_root.
      repeat first [ split | apply Forall_cons_2 | apply Forall_nil_2
                   | apply List.NoDup_cons | apply List.NoDup_nil
                   | reflexivity | exact I ];
        cbn; apply (bool_decide_unpack _); reflexivity.
    + exists relPaths. auto.
Defined.

End TreeClaim.

(** ** test/support/helpers/scenarios.js: loading and running *)

Section RunnerFacts.
Import Scenarios ScenarioFiles.
Local Open Scope list_scope.

Lemma run_actions_rejected (l : list action) :
  fold_left (fun acc a => match acc with
                          | Some d => run_action a d
                          | None => None
                          end) l None = None.
Proof. induction l as [|a l IH]; [reflexivity|exact IH]. Qed.

Lemma replace_all_split_join (a b : ascii) (s : string) :
  Js.join (String b "") (Js.split a s) = replace_all a b s.
Proof.
  induction s as [|c s IH]; [reflexivity|]. cbn [Js.split replace_all].
  pose proof (split_not_nil a s) as Hn.
  destruct (Ascii.eqb c a).
  - destruct (Js.split a s) as [|x xs]; [contradiction|].
    rewrite join_cons_cons, IH. reflexivity.
  - destruct (Js.split a s) as [|x xs]; [contradiction|].
    rewrite <- IH. destruct xs as [|y xs]; [reflexivity|].
    rewrite !join_cons_cons. reflexivity.
Qed.

Lemma find_map_fst {A} (f : string * A -> string * A) (q : string)
    (l : list (string * A)) :
  (forall e, fst (f e) = fst e) ->
  List.find (fun e => String.eqb (fst e) q) (map f l)
  = option_map f (List.find (fun e => String.eqb (fst e) q) l).
Proof.
  intros Hf. induction l as [|e l IH]; [reflexivity|]. cbn [map List.find].
  rewrite Hf. destruct (String.eqb (fst e) q); [reflexivity|exact IH].
Qed.

Lemma lookup_set_content (q path content : string) (d : Fs.disk) :
  Fs.lookup q (Fs.set_content path content d)
  = if String.eqb q path
    then option_map (fun n => Fs.Node (Fs.KFile content) (Fs.ino n)) (Fs.lookup path d)
    else Fs.lookup q d.
Proof.
  unfold Fs.lookup, Fs.set_content. cbn [Fs.entries].
  rewrite find_map_fst by (intros e; destruct (String.eqb (fst e) path); reflexivity).
  destruct (String.eqb_spec q path) as [->|Hne].
  - destruct (List.find _ (Fs.entries d)) as [e|] eqn:E; [|reflexivity].
    apply find_some in E as [_ E]. cbn. rewrite E. reflexivity.
  - destruct (List.find _ (Fs.entries d)) as [e|] eqn:E; [|reflexivity].
    apply find_some in E as [_ E]. apply String.eqb_eq in E. cbn.
    destruct (String.eqb_spec (fst e) path) as [Hp|]; [congruence|reflexivity].
Qed.

Lemma slice_all (s : string) : Js.slice (String.length s) s = "".
Proof.
  rewrite <- (string_app_nil_r s) at 2. apply slice_app.
Qed.

Lemma startsWith_prefix (p r : string) : Js.startsWith p (p +:+ r) = true.
Proof.
  induction p as [|a p IH]; [reflexivity|].
  rewrite string_app_cons. cbn. now rewrite Ascii.eqb_refl.
Qed.

Lemma app_not_self (a b : string) : b <> "" -> a +:+ b <> a.
Proof.
  intros Hb H. apply (f_equal String.length) in H.
  rewrite string_app_length in H. destruct b; [contradiction|]. cbn in H. lia.
Qed.

(** Where [rebase] sends a path, by the place of the path. *)
Lemma rebase_cases (src dst p : string) :
  (p = src /\ Fs.rebase src dst p = dst)
  \/ (p <> src /\ exists rest, p = src +:+ "/" +:+ rest
                              /\ Fs.rebase src dst p = dst +:+ "/" +:+ rest)
  \/ (p <> src /\ Fs.within src p = false /\ Fs.rebase src dst p = p).
Proof.
  unfold Fs.rebase, Fs.within.
  destruct (String.eqb_spec p src) as [->|Hne].
  - left. cbn [orb]. rewrite slice_all, string_app_nil_r. auto.
  - right. cbn [orb]. destruct (Js.startsWith (src +:+ "/") p) eqn:E.
    + left. split; [exact Hne|]. apply startsWith_app in E as [rest ->].
      exists rest. rewrite string_app_assoc. split; [reflexivity|].
      now rewrite slice_app.
    + right. auto.
Qed.

(** What is found at the new place and at the old one once the entries
    outside [dst] are rebased. *)
Lemma find_rebased (src dst : string) (l : list (string * Fs.node)) :
  Fs.within dst src = false ->
  let moved :=
    map (fun e => (Fs.rebase src dst (fst e), snd e))
        (List.filter (fun e => negb (Fs.within dst (fst e))) l) in
  option_map snd (List.find (fun e => String.eqb (fst e) dst) moved)
  = option_map snd (List.find (fun e => String.eqb (fst e) src) l)
  /\ List.find (fun e => String.eqb (fst e) src) moved = None.
Proof.
  intros Hout. cbn zeta.
  assert (Hne : src <> dst).
  { intros ->. unfold Fs.within in Hout. now rewrite String.eqb_refl in Hout. }
  induction l as [|[p n] l [IH1 IH2]]; [split; reflexivity|].
  cbn [List.filter fst]. destruct (Fs.within dst p) eqn:Ew; cbn [negb].
  - assert (Hp : p <> src) by (intros ->; congruence).
    cbn [List.find fst]. apply String.eqb_neq in Hp. rewrite Hp. auto.
  - cbn [map List.find fst snd].
    assert (Hpd : p <> dst).
    { intros ->. unfold Fs.within in Ew. now rewrite String.eqb_refl in Ew. }
    destruct (rebase_cases src dst p)
      as [[-> ->]|[(Hp & rest & -> & ->)|(Hp & Hw & ->)]].
    + rewrite !String.eqb_refl. apply String.eqb_neq in Hne.
      rewrite String.eqb_sym, Hne. split; [reflexivity|exact IH2].
    + assert (H1 : (dst +:+ "/" +:+ rest =? dst)%string = false).
      { apply String.eqb_neq, app_not_self. discriminate. }
      assert (H2 : (dst +:+ "/" +:+ rest =? src)%string = false).
      { apply String.eqb_neq. intros <-. unfold Fs.within in Hout.
        rewrite <- string_app_assoc, startsWith_prefix, orb_true_r in Hout.
        discriminate Hout. }
      apply String.eqb_neq in Hp. rewrite H1, H2, Hp. auto.
    + apply String.eqb_neq in Hp, Hpd. rewrite Hp, Hpd. auto.
Qed.

Lemma init_rejected p trueino (items : list init_item) :
  fold_left (init_step p trueino) items None = None.
Proof. induction items as [|it items IH]; [reflexivity|exact IH]. Qed.

(** One round of [init] on the documents. *)
Lemma init_step_puts p trueino st w toTrash it st' w' toTrash' :
  init_step p trueino (Some (st, w, toTrash)) it = Some (st', w', toTrash') ->
  if documented it
  then exists d, st' = Core.put d st
                 /\ Core.path d = trimEnd_slash (init_path it) /\ initial p d
  else st' = st.
Proof.
  unfold init_step, documented, initial.
  destruct (init_trashed it); cbn [negb andb].
  - destruct (Js.startsWith "../outside" (init_path it)).
    + intros H. now injection H as <- _ _.
    + destruct (cozy_create _ _ _); [|discriminate].
      intros H. now injection H as <- _ _.
  - match goal with
    | |- context [match ?x with Some dk => _ | None => None end] => destruct x
    end; [|discriminate].
    destruct (Js.startsWith "../outside" (init_path it)); cbn [negb].
    + intros H. now injection H as <- _ _.
    + destruct (cozy_create _ _ _); [|discriminate].
      intros H. injection H as <- _ _. eexists. split; [reflexivity|].
      cbn. repeat split.
Qed.

Lemma init_puts p trueino (items : list init_item) :
  forall st w toTrash st' w' toTrash',
    fold_left (init_step p trueino) items (Some (st, w, toTrash))
    = Some (st', w', toTrash') ->
    exists docs,
      Core.puts st' = Core.puts st ++ docs
      /\ map Core.path docs
         = map (fun it => trimEnd_slash (init_path it)) (List.filter documented items)
      /\ Forall (initial p) docs.
Proof.
  induction items as [|it items IH]; intros st w toTrash st' w' toTrash' H.
  - injection H as <- _ _. exists []. rewrite app_nil_r. auto.
  - cbn [fold_left] in H.
    destruct (init_step p trueino (Some (st, w, toTrash)) it)
      as [[[st1 w1] t1]|] eqn:E; [|rewrite init_rejected in H; discriminate H].
    destruct (IH _ _ _ _ _ _ H) as (docs & Hp & Hm & Hf).
    apply init_step_puts in E. cbn [List.filter].
    destruct (documented it).
    + destruct E as (d & -> & Hd & Hi). exists (d :: docs).
      cbn [Core.put Core.puts] in Hp. rewrite Hp, <- app_assoc.
      split; [reflexivity|]. split; [cbn [map]; now rewrite Hd, Hm|].
      constructor; assumption.
    + subst st1. exists docs. auto.
Qed.

End RunnerFacts.

Section RunnerExtras.
Import Scenarios ScenarioFiles.
Local Open Scope list_scope.

(** X18. A scenario that has an action of a type the runner does not know
    is rejected as a whole, wherever the action is in the list and whatever
    the directory holds. *)
Theorem runActions_unknown_action (sc : scenario) (type : string) (d : Fs.disk) :
  In (Other type) (actions sc) -> runActions sc d = None.
Proof.
  unfold runActions. generalize (Some d). induction (actions sc) as [|a l IH];
    intros acc Hin; [contradiction|].
  cbn [fold_left]. destruct Hin as [->|Hin]; [|apply IH, Hin].
  destruct acc; cbn [run_action]; apply run_actions_rejected.
Qed.

Lemma runActions_unknown_action_witness :
  runActions with_unknown_action Fs.empty = None.
Proof.
  apply (runActions_unknown_action with_unknown_action "chmod" Fs.empty).
  cbn. auto.
Defined.

(** X19. The two ways the helpers write the separators of another platform
    agree: [split('/').join('\\')] is the replacement of every slash by a
    backslash; and replacing the backslashes by slashes undoes it on a
    path that held no backslash. *)
Theorem separators_round_trip (p : string) :
  win32_separators p = replace_all "/" backslash p
  /\ (Js.includes (String backslash "") p = false ->
      replace_all backslash "/" (win32_separators p) = p).
Proof.
  unfold win32_separators. rewrite (replace_all_split_join "/" backslash p).
  split; [reflexivity|].
  induction p as [|c p IH]; [reflexivity|].
  rewrite includes_char_cons. intros H. apply orb_false_iff in H as [Hc Hp].
  cbn [replace_all]. rewrite (IH Hp). f_equal.
  destruct (Ascii.eqb_spec c "/") as [->|Hne]; [reflexivity|].
  now rewrite Ascii.eqb_sym, Hc.
Qed.

Lemma separators_round_trip_witness :
  replace_all backslash "/" (win32_separators "dst/dir/file") = "dst/dir/file".
Proof.
  apply (separators_round_trip "dst/dir/file"). vm_compute. reflexivity.
Defined.

(** X20. On Windows an events file that is not disabled is loaded with the
    paths it was recorded with; and on every platform a disabled scenario
    disables each of its events files. *)
Theorem loadFSEventFiles_windows (disabled : option string)
    (eventFiles : list (string * list fs_event)) (f : events_file) :
  In f (loadFSEventFiles "win32" disabled eventFiles) ->
  Js.truthy (file_disabled f) = false ->
  Js.truthy disabled = false
  /\ Js.includes "win32" (file_name f) = true
  /\ exists raw, In raw eventFiles
                 /\ file_name f = Path.basename (fst raw)
                 /\ map event_path (events f) = map event_path (snd raw).
Proof.
  unfold loadFSEventFiles. intros Hin Hd.
  apply in_map_iff in Hin as (raw & <- & Hraw). cbn [file_disabled file_name events] in *.
  destruct (Js.truthy disabled) eqn:Ed; [congruence|]. split; [reflexivity|].
  unfold disabledEventsFile in Hd. cbn [String.eqb Ascii.eqb Bool.eqb andb] in Hd.
  destruct (Js.indexOf "win32" (Path.basename (fst raw)) =? -1) eqn:Ei;
    [discriminate Hd|].
  split.
  { unfold Js.includes. apply Z.eqb_neq in Ei. apply Z.leb_le.
    assert (Hge : forall p s, -1 <= Js.indexOf p s).
    { intros p s. induction s as [|c s IH]; cbn [Js.indexOf];
        destruct (Js.startsWith p _); try lia.
      destruct (Z.ltb_spec (Js.indexOf p s) 0); lia. }
    specialize (Hge "win32" (Path.basename (fst raw))). lia. }
  exists raw. split; [exact Hraw|]. split; [reflexivity|].
  rewrite map_map. apply map_ext. intros e. unfold load_event.
  rewrite Ei. reflexivity.
Qed.

Lemma loadFSEventFiles_windows_witness :
  exists raw, In raw recorded
              /\ map event_path (snd raw)
                 = [Some (win32_separators "src/dir"); Some (win32_separators "dst/dir")].
Proof.
  destruct (loadFSEventFiles_windows None recorded
              (EventsFile "change.win32.json"
                 [ FsEvent "unlinkDir" (Some (win32_separators "src/dir")) None;
                   FsEvent "addDir" (Some (win32_separators "dst/dir"))
                           (Some (Stats (Date "t1") (Date "t2"))) ]
                 None))
    as (_ & _ & raw & Hin & _ & Hp).
  - left. vm_compute. reflexivity.
  - reflexivity.
  - exists raw. split; [exact Hin|]. symmetry. exact Hp.
Defined.

(** X21. A plain [mv] keeps the inode: when the action succeeds (and the
    source is not inside the destination), what is at the destination
    afterwards is what was at the source, inode and content, nothing is at
    the source any more, and no inode was created. *)
Theorem mv_keeps_inode (src dst : string) (d d' : Fs.disk) :
  run_action (Mv false false src dst) d = Some d' ->
  Fs.within dst src = false ->
  Fs.lookup dst d' = Fs.lookup src d
  /\ Fs.lookup src d <> None
  /\ Fs.lookup src d' = None
  /\ Fs.next_ino d' = Fs.next_ino d.
Proof.
  cbn [run_action]. unfold Fs.rename. intros Hrun Hout.
  assert (Hne : (src =? dst)%string = false).
  { apply String.eqb_neq. intros ->. unfold Fs.within in Hout.
    now rewrite String.eqb_refl in Hout. }
  destruct (Fs.lookup src d) as [[k i]|] eqn:Hsrc; [|discriminate Hrun].
  destruct (negb (Fs.dir_exists (Fs.dirname dst) d)); [discriminate Hrun|].
  destruct (Fs.within src dst && negb (src =? dst)%string); [discriminate Hrun|].
  rewrite Hne in Hrun.
  match type of Hrun with (if ?b then _ else _) = _ => destruct b end;
    [|discriminate Hrun].
  injection Hrun as <-.
  destruct (find_rebased src dst (Fs.entries d) Hout) as [H1 H2]. cbn zeta in *.
  unfold Fs.lookup in *. unfold Fs.remove. cbn [Fs.entries Fs.next_ino].
  rewrite H1, H2, Hsrc. repeat split. discriminate.
Qed.

Lemma mv_keeps_inode_witness :
  run_action (Mv false false "src" "dst") moved_disk_before = Some moved_disk_after
  /\ Fs.lookup "dst" moved_disk_after = Fs.lookup "src" moved_disk_before.
Proof.
  split; [reflexivity|].
  exact (proj1 (mv_keeps_inode "src" "dst" moved_disk_before moved_disk_after
                  eq_refl eq_refl)).
Defined.

(** X22. [>>] on a file appends " blah" to its content and keeps its
    inode; every other entry is as it was; on a directory the action is
    rejected. *)
Theorem append_keeps_inode (path : string) (d : Fs.disk) (n : Fs.node) :
  Fs.lookup path d = Some n ->
  match Fs.node_kind n with
  | Fs.KFile content =>
      exists d',
        run_action (Append path) d = Some d'
        /\ Fs.lookup path d'
           = Some (Fs.Node (Fs.KFile (content +:+ " blah")) (Fs.ino n))
        /\ (forall q, q <> path -> Fs.lookup q d' = Fs.lookup q d)
        /\ map fst (Fs.entries d') = map fst (Fs.entries d)
  | Fs.KDir => run_action (Append path) d = None
  end.
Proof.
  intros Hn. cbn [run_action]. unfold Fs.appendFile. rewrite Hn.
  destruct n as [[content|] i]; cbn [Fs.node_kind Fs.ino]; [|reflexivity].
  eexists. split; [reflexivity|]. split; [|split].
  - rewrite lookup_set_content, String.eqb_refl, Hn. reflexivity.
  - intros q Hq. rewrite lookup_set_content.
    apply String.eqb_neq in Hq. now rewrite Hq.
  - unfold Fs.set_content. cbn [Fs.entries]. rewrite map_map.
    apply map_ext. intros e. destruct (String.eqb (fst e) path); reflexivity.
Qed.

Lemma append_keeps_inode_witness :
  exists d',
    run_action (Append "dst/file") moved_disk_after = Some d'
    /\ Fs.lookup "dst/file" d' = Some (Fs.Node (Fs.KFile "foo blah") 2).
Proof.
  destruct (append_keeps_inode "dst/file" moved_disk_after
              (Fs.Node (Fs.KFile "foo") 2) eq_refl)
    as (d' & H1 & H2 & _).
  exists d'. split; [exact H1|exact H2].
Defined.

(** X23. When [init] succeeds, the documents it has put are those of the
    items that are neither trashed nor outside, one each and in the order
    of the list, at the path of the item without its trailing slash; each
    has the id of its path, has been seen by both sides, and is neither
    deleted nor moved. *)
Theorem init_documents (p : Core.platform) (trueino : bool) (sc : scenario)
    (st : Core.store) (w : Sync.world) :
  run_init p trueino sc = Some (st, w) ->
  map Core.path (Core.puts st)
  = map (fun it => trimEnd_slash (init_path it)) (List.filter documented (init sc))
  /\ Forall (initial p) (Core.puts st).
Proof.
  unfold run_init. intros H.
  destruct (fold_left (init_step p trueino) (init sc) _)
    as [[[st1 w1] t1]|] eqn:E; [|discriminate H].
  injection H as <- _.
  destruct (init_puts _ _ _ _ _ _ _ _ _ E) as (docs & Hp & Hm & Hf).
  cbn in Hp. subst docs. auto.
Qed.

Lemma init_documents_witness :
  exists st w,
    run_init Core.linux true move_then_append = Some (st, w)
    /\ map Core.path (Core.puts st) = ["src"; "src/file"].
Proof.
  destruct (run_init Core.linux true move_then_append) as [[st w]|] eqn:E;
    [|vm_compute in E; discriminate E].
  exists st, w. split; [reflexivity|].
  exact (proj1 (init_documents Core.linux true move_then_append st w E)).
Defined.

(** X24. A round of [init] for an item inside the synchronised directory
    is rejected when the remote directory that should hold the item does
    not exist; so a scenario that lists a file before its directory is
    rejected by [init]. *)
Theorem init_needs_remote_parent (p : Core.platform) (trueino : bool)
    (st : Core.store) (w : Sync.world) (toTrash : list string) (it : init_item) :
  Js.startsWith "../outside" (init_path it) = false ->
  Fs.dir_exists (Fs.dirname (trimEnd_slash (init_path it))) (Sync.cozy w) = false ->
  forall rest,
    fold_left (init_step p trueino) (it :: rest) (Some (st, w, toTrash)) = None.
Proof.
  intros Hin Hdir rest. cbn [fold_left].
  replace (init_step p trueino (Some (st, w, toTrash)) it) with
    (@None (Core.store * Sync.world * list string)); [apply init_rejected|].
  unfold init_step. rewrite Hin. unfold cozy_create. rewrite Hdir.
  repeat match goal with
         | |- context [match ?x with Some dk => _ | None => None end] => destruct x
         | |- context [if ?b then _ else _] => destruct b
         end; reflexivity.
Qed.

Lemma init_needs_remote_parent_witness :
  run_init Core.linux true orphan_first = None.
Proof.
  unfold run_init.
  rewrite (init_needs_remote_parent Core.linux true (fst blank) (snd blank) []
             (InitItem "src/file" None false None) eq_refl eq_refl
             [InitItem "src/" None false None]
           : fold_left (init_step Core.linux true) (init orphan_first)
               (Some (fst blank, snd blank, [])) = None).
  reflexivity.
Defined.

End RunnerExtras.

(** ** File names, error notifications, and removals *)

Section MoreFacts.
Import Main Scenarios.
Local Open Scope list_scope.








Lemma find_filter_none {A} (f keep : A -> bool) (l : list A) :
  (forall x, f x = true -> keep x = false) ->
  List.find f (List.filter keep l) = None.
Proof.
  intros H. induction l as [|x l IH]; [reflexivity|]. cbn.
  destruct (keep x) eqn:Ek; [|exact IH]. cbn.
  destruct (f x) eqn:Ef; [|exact IH]. rewrite (H x Ef) in Ek. discriminate Ek.
Qed.

Lemma find_filter_same {A} (f keep : A -> bool) (l : list A) :
  (forall x, f x = true -> keep x = true) ->
  List.find f (List.filter keep l) = List.find f l.
Proof.
  intros H. induction l as [|x l IH]; [reflexivity|]. cbn.
  destruct (f x) eqn:Ef.
  - rewrite (H x Ef). cbn. now rewrite Ef.
  - destruct (keep x); [cbn; rewrite Ef|]; exact IH.
Qed.

(** What [fs.remove] leaves. *)
Lemma lookup_remove (path q : string) (d : Fs.disk) :
  Fs.lookup q (Fs.remove path d)
  = if Fs.within path q then None else Fs.lookup q d.
Proof.
  unfold Fs.lookup, Fs.remove. cbn [Fs.entries].
  destruct (Fs.within path q) eqn:E.
  - rewrite find_filter_none; [reflexivity|].
    intros e He. apply String.eqb_eq in He. now rewrite He, E.
  - rewrite find_filter_same; [reflexivity|].
    intros e He. apply String.eqb_eq in He. now rewrite He, E.
Qed.

End MoreFacts.

Section MoreExtras.
Import Main Scenarios.
Local Open Scope list_scope.



(** X26. [sendErrorToMainWindow] raises exactly one notification, window or
    not; when the window exists it is sent exactly one message: [revoked]
    without text for a revoked client, and otherwise a [sync-error] whose
    text is the body of the notification. *)
Theorem error_notified_once (msg : option string) (g : gui) :
  exists body,
    notifications (sendErrorToMainWindow msg g) = notifications g ++ [body]
    /\ (mainWindow g = true ->
        sent (sendErrorToMainWindow msg g)
        = sent g ++ [if is_string msg "Client has been revoked"
                     then Ipc "revoked" []
                     else Ipc "sync-error" [Str body]])
    /\ (mainWindow g = false -> sent (sendErrorToMainWindow msg g) = sent g).
Proof.
  unfold sendErrorToMainWindow, notify, sendToMainWindow.
  destruct (is_string msg "Client has been revoked");
    [|destruct (is_string msg "Cozy is full" || is_string msg "No more disk space")];
    eexists; (destruct (mainWindow g) eqn:E; cbn; rewrite ?E;
              (split; [reflexivity|]); split; intros H;
              first [discriminate H | reflexivity]).
Qed.

(** X27. [trash] and [delete] never fail; afterwards nothing is left at
    the path or below it and every other path holds what it held. A move
    with [merge] that succeeds leaves nothing at its source or below. *)
Theorem removal_actions (path : string) (d : Fs.disk) :
  run_action (Trash path) d = Some (Fs.remove path d)
  /\ run_action (Delete path) d = Some (Fs.remove path d)
  /\ (forall q, Fs.lookup q (Fs.remove path d)
                = if Fs.within path q then None else Fs.lookup q d)
  /\ (forall force dst d' q,
        run_action (Mv true force path dst) d = Some d' ->
        Fs.within path q = true -> Fs.lookup q d' = None).
Proof.
  split; [reflexivity|]. split; [reflexivity|]. split.
  - intros q. apply lookup_remove.
  - intros force dst d' q Hrun Hq. cbn [run_action] in Hrun.
    destruct (Fs.mergedirs path dst d) as [d1|]; [|discriminate Hrun].
    injection Hrun as <-. now rewrite lookup_remove, Hq.
Qed.

End MoreExtras.

(** ** gui/app/main.js: the notice of a new release *)

Section ReleaseFacts.
Import Main Session Release.
Local Open Scope list_scope.

Lemma sendErrorToMainWindow_release m g :
  newReleaseAvailable (sendErrorToMainWindow m g) = newReleaseAvailable g.
Proof.
  unfold sendErrorToMainWindow, notify, sendToMainWindow.
  destruct (is_string m "Client has been revoked");
    [|destruct (is_string m "Cozy is full" || is_string m "No more disk space")];
    destruct (mainWindow g); reflexivity.
Qed.

Lemma sendDiskUsage_release g :
  newReleaseAvailable (sendDiskUsage g) = newReleaseAvailable g.
Proof.
  unfold sendDiskUsage. destruct (diskTimeout g), (mainWindow g) eqn:E; cbn;
    rewrite ?E; reflexivity.
Qed.

Lemma addFile_release now i g :
  newReleaseAvailable (addFile now i g) = newReleaseAvailable g.
Proof.
  unfold addFile, persistLastFiles, sendToMainWindow.
  destruct (updateState_rest "syncing" (Some (filename (new_file now i))) g)
    as (_ & _ & _ & _ & H).
  set (u := updateState "syncing" (Some (filename (new_file now i))) g) in *.
  cbn -[new_file]. destruct (mainWindow u); cbn -[new_file]; exact H.
Qed.

Lemma removeFile_release i g :
  newReleaseAvailable (removeFile i g) = newReleaseAvailable g.
Proof.
  unfold removeFile, persistLastFiles, sendToMainWindow. cbn.
  destruct (mainWindow g); reflexivity.
Qed.

Lemma on_event_release now ev g :
  newReleaseAvailable (on_event now ev g) = newReleaseAvailable g.
Proof.
  assert (Hs : forall ch a g0,
            newReleaseAvailable (sendToMainWindow ch a g0) = newReleaseAvailable g0).
  { intros ch a g0. apply sendToMainWindow_frame. }
  assert (Hu : forall s f g0,
            newReleaseAvailable (updateState s f g0) = newReleaseAvailable g0).
  { intros s f g0. apply updateState_rest. }
  destruct ev; cbn [on_event];
    rewrite ?Hs, ?removeFile_release, ?addFile_release, ?sendErrorToMainWindow_release,
      ?sendDiskUsage_release, ?Hu; reflexivity.
Qed.

Lemma startSync_release force g :
  newReleaseAvailable (startSync force g) = newReleaseAvailable g.
Proof.
  unfold startSync.
  set (g1 := sendToMainWindow "synchronization" _ g).
  assert (H1 : newReleaseAvailable g1 = newReleaseAvailable g)
    by apply sendToMainWindow_frame.
  set (g2 := fold_left _ (lastFiles g1) g1).
  assert (H2 : newReleaseAvailable g2 = newReleaseAvailable g).
  { rewrite <- H1. apply (send_transfers_frame (lastFiles g1) g1). }
  clearbody g2. clear H1 g1.
  destruct (desktop_sync (genv g) && negb force).
  - rewrite sendDiskUsage_release.
    destruct (String.eqb (state g2) "up-to-date" || String.eqb (state g2) "online");
      [rewrite <- H2; apply sendToMainWindow_frame|].
    destruct (String.eqb (state g2) "offline");
      [rewrite <- H2; apply sendToMainWindow_frame|].
    destruct (String.eqb (state g2) "error");
      [rewrite sendErrorToMainWindow_release|]; exact H2.
  - rewrite sendDiskUsage_release. cbn [newReleaseAvailable set_listeners].
    rewrite <- H2. apply updateState_rest.
Qed.

End ReleaseFacts.

Section ReleaseExtras.
Import Main Session Release.
Local Open Scope list_scope.

(** X28. On a platform other than darwin and win32 the notice of a new
    release is never raised: whatever the core emits, however often
    [startSync] is called and whatever the updater downloads,
    [newReleaseAvailable] stays unset. On every platform it stays set once
    it is, and on darwin and win32 a download sets it. *)
Theorem release_never_noticed (cs : list call) (g : gui) :
  checkForNewRelease (genv g) = false ->
  newReleaseAvailable g = false ->
  newReleaseAvailable (run cs g) = false
  /\ (forall g', newReleaseAvailable g' = true ->
                 newReleaseAvailable (run cs g') = true)
  /\ (forall g' version releaseName,
        checkForNewRelease (genv g') = true ->
        newReleaseAvailable (handle (Downloaded version releaseName) g') = true).
Proof.
  intros Hp Hn. split; [|split].
  - revert g Hp Hn. induction cs as [|c cs IH]; intros g Hp Hn; [exact Hn|].
    cbn [run fold_left]. apply IH.
    + destruct (handle_quiet c g) as (E & _).
      unfold checkForNewRelease in *. rewrite E. exact Hp.
    + destruct c as [now ev|force|version releaseName|set]; cbn [handle].
      * destruct (listeners g =? 0)%nat; [exact Hn|]. now rewrite on_event_release.
      * now rewrite startSync_release.
      * now rewrite Hp.
      * exact Hn.
  - clear. induction cs as [|c cs IH]; intros g' Hn; [exact Hn|].
    cbn [run fold_left]. apply IH.
    destruct c as [now ev|force|version releaseName|set]; cbn [handle].
    + destruct (listeners g' =? 0)%nat; [exact Hn|]. now rewrite on_event_release.
    + now rewrite startSync_release.
    + destruct (checkForNewRelease (genv g')); [|exact Hn].
      unfold update_downloaded, sendToMainWindow. cbn.
      destruct (mainWindow g'); reflexivity.
    + exact Hn.
  - intros g' version releaseName Hc. cbn [handle]. rewrite Hc.
    unfold update_downloaded, sendToMainWindow. cbn.
    destruct (mainWindow g'); reflexivity.
Qed.

Lemma release_never_noticed_witness :
  newReleaseAvailable
    (run [Start true; Downloaded (Some "3.1.0") None; Emit 1 UpToDate]
         (started MainRuns.english_env true None)) = false.
Proof.
  apply (release_never_noticed
           [Start true; Downloaded (Some "3.1.0") None; Emit 1 UpToDate]
           (started MainRuns.english_env true None));
    reflexivity.
Defined.

End ReleaseExtras.

(** ** gui/app/main.js: the state told to a window that is loaded again *)

Section ReportExtras.
Import Main Session StateReport.
Local Open Scope list_scope.

(** X29. When the synchronisation is running already and the state is not
    "error", [startSync] without [force] only informs the window: it
    sends the configuration, one [transfer] per last file, and the state
    ([up-to-date] for "up-to-date" and "online", [offline] for "offline",
    nothing for any other state); it asks for the disk usage once; the
    state, the tray, the list of the last files, the notifications and the
    listeners are as they were. *)
Theorem startSync_reports_state (g : gui) :
  mainWindow g = true ->
  desktop_sync (genv g) = true ->
  state g <> "error" ->
  let g' := startSync false g in
  sent g'
  = sent g
      ++ Ipc "synchronization" [Str (cozyUrl (genv g)); Str (deviceName (genv g))]
      :: map LastFiles.transfer_message (lastFiles g)
      ++ report (state g)
  /\ state g' = state g /\ tray g' = tray g /\ lastFiles g' = lastFiles g
  /\ notifications g' = notifications g
  /\ listeners g' = listeners g
  /\ diskUsageRequests g' = S (diskUsageRequests g).
Proof.
  intros Hw Hsync Herr g'. unfold g', startSync. rewrite Hsync. cbn [negb andb].
  set (g1 := sendToMainWindow "synchronization" _ g).
  destruct (sendToMainWindow_frame "synchronization"
              [Str (cozyUrl (genv g)); Str (deviceName (genv g))] g)
    as (E1 & W1 & T1 & S1 & M1 & L1 & _ & N1 & D1 & R1 & _).
  fold g1 in E1, W1, T1, S1, M1, L1, N1, D1, R1.
  assert (Hs1 : sent g1 = sent g
                  ++ [Ipc "synchronization"
                        [Str (cozyUrl (genv g)); Str (deviceName (genv g))]]).
  { apply sendToMainWindow_sent, Hw. }
  assert (W1' : mainWindow g1 = true) by congruence.
  destruct (send_transfers_sent (lastFiles g1) g1 W1') as (Hs2 & W2 & _ & S2 & L2).
  destruct (send_transfers_frame (lastFiles g1) g1)
    as (_ & _ & T2 & _ & M2 & _ & _ & N2 & D2 & R2 & _).
  cbn zeta in *. set (g2 := fold_left _ (lastFiles g1) g1) in *.
  set (g3 := if String.eqb (state g2) "up-to-date" || String.eqb (state g2) "online"
             then _ else _).
  assert (H3 : sent g3 = sent g2 ++ report (state g) /\ mainWindow g3 = true
               /\ state g3 = state g /\ tray g3 = tray g
               /\ lastFiles g3 = lastFiles g /\ notifications g3 = notifications g
               /\ listeners g3 = listeners g
               /\ diskUsageRequests g3 = diskUsageRequests g).
  { unfold g3, report. rewrite S2, S1.
    apply String.eqb_neq in Herr.
    destruct (String.eqb (state g) "up-to-date" || String.eqb (state g) "online");
      [|destruct (String.eqb (state g) "offline")];
      [| |rewrite Herr, app_nil_r; repeat split; congruence];
      match goal with
      | |- context [sendToMainWindow ?ch ?a g2] =>
          destruct (sendToMainWindow_frame ch a g2)
            as (_ & -> & -> & -> & _ & -> & _ & -> & -> & -> & _);
          rewrite (sendToMainWindow_sent ch a g2 W2)
      end; repeat split; congruence. }
  destruct H3 as (Hs3 & W3 & S3 & T3 & L3 & N3 & R3 & D3).
  clearbody g3.
  destruct (sendDiskUsage_frame g3) as (_ & _ & -> & -> & _ & ->).
  destruct (sendDiskUsage_rest g3) as (-> & _ & -> & -> & _).
  rewrite Hs3, Hs2, Hs1, L1, <- !app_assoc. cbn [app].
  repeat split; try assumption.
  unfold sendDiskUsage.
  destruct (diskTimeout g3); cbn; rewrite W3; cbn; now rewrite D3.
Qed.

Lemma startSync_reports_state_witness :
  sent (startSync false gone_offline)
  = sent gone_offline
      ++ [ Ipc "synchronization" [Str (Some "https://me.mycozy.cloud"); Str (Some "laptop")];
           LastFiles.transfer_message (new_file 4 MainRuns.photo);
           Ipc "offline" [] ].
Proof.
  assert (Hst : state gone_offline <> "error") by (vm_compute; discriminate).
  destruct (startSync_reports_state gone_offline eq_refl eq_refl Hst) as (H & _).
  cbn zeta in H. rewrite H. vm_compute. reflexivity.
Defined.

End ReportExtras.

(** ** gui/app/main.js: the window *)

Section WindowFacts.
Import Main Window.
Local Open Scope list_scope.

Lemma sendToMainWindow_extends ch a g :
  exists rest, sent (sendToMainWindow ch a g) = sent g ++ rest.
Proof.
  unfold sendToMainWindow. destruct (mainWindow g).
  - eexists. reflexivity.
  - exists []. now rewrite app_nil_r.
Qed.

Lemma send_transfers_extends (l : list file_entry) (g : gui) :
  exists rest,
    sent (fold_left (fun g file => sendToMainWindow "transfer" [FileArg file] g) l g)
    = sent g ++ rest.
Proof.
  revert g. induction l as [|f l IH]; intros g; cbn [fold_left].
  - exists []. now rewrite app_nil_r.
  - destruct (IH (sendToMainWindow "transfer" [FileArg f] g)) as [r2 ->].
    destruct (sendToMainWindow_extends "transfer" [FileArg f] g) as [r1 ->].
    exists (r1 ++ r2). now rewrite app_assoc.
Qed.

Lemma sendErrorToMainWindow_extends m g :
  exists rest, sent (sendErrorToMainWindow m g) = sent g ++ rest.
Proof.
  unfold sendErrorToMainWindow, notify.
  destruct (is_string m "Client has been revoked");
    [|destruct (is_string m "Cozy is full" || is_string m "No more disk space")];
    cbn [sent set_notifications]; apply sendToMainWindow_extends.
Qed.

Lemma startSync_extends force g :
  exists rest, sent (startSync force g) = sent g ++ rest.
Proof.
  unfold startSync.
  set (g1 := sendToMainWindow "synchronization" _ g).
  destruct (sendToMainWindow_extends "synchronization"
              [Str (cozyUrl (genv g)); Str (deviceName (genv g))] g) as [r1 H1].
  fold g1 in H1.
  destruct (send_transfers_extends (lastFiles g1) g1) as [r2 H2].
  set (g2 := fold_left _ (lastFiles g1) g1) in *.
  assert (H : sent g2 = sent g ++ (r1 ++ r2)) by now rewrite H2, H1, app_assoc.
  clearbody g2. clear H1 H2 g1.
  destruct (desktop_sync (genv g) && negb force).
  - destruct (sendDiskUsage_frame
                (if String.eqb (state g2) "up-to-date" || String.eqb (state g2) "online"
                 then sendToMainWindow "up-to-date" [] g2
                 else if String.eqb (state g2) "offline"
                      then sendToMainWindow "offline" [] g2
                      else if String.eqb (state g2) "error"
                           then sendErrorToMainWindow (errorMessage g2) g2
                           else g2))
      as (_ & _ & -> & _).
    destruct (String.eqb (state g2) "up-to-date" || String.eqb (state g2) "online");
      [|destruct (String.eqb (state g2) "offline");
        [|destruct (String.eqb (state g2) "error")]].
    + destruct (sendToMainWindow_extends "up-to-date" [] g2) as [r3 ->].
      exists ((r1 ++ r2) ++ r3). rewrite H. now rewrite <- !app_assoc.
    + destruct (sendToMainWindow_extends "offline" [] g2) as [r3 ->].
      exists ((r1 ++ r2) ++ r3). rewrite H. now rewrite <- !app_assoc.
    + destruct (sendErrorToMainWindow_extends (errorMessage g2) g2) as [r3 ->].
      exists ((r1 ++ r2) ++ r3). rewrite H. now rewrite <- !app_assoc.
    + eexists. exact H.
  - set (u := updateState "syncing" None g2).
    destruct (sendDiskUsage_frame (set_listeners (S (listeners u)) u))
      as (_ & _ & -> & _).
    cbn [sent set_listeners]. unfold u.
    destruct (updateState_frame "syncing" None g2) as (_ & _ & -> & _).
    eexists. exact H.
Qed.

Lemma go_to_tabs_sent (tabs : list string) (g : gui) :
  mainWindow g = true ->
  let g' := fold_left (fun g tab => sendToMainWindow "go-to-tab" [Str (Some tab)] g)
                      tabs g in
  sent g' = sent g ++ map (fun tab => Ipc "go-to-tab" [Str (Some tab)]) tabs
  /\ mainWindow g' = true.
Proof.
  revert g. induction tabs as [|tab tabs IH]; intros g Hw; cbn [fold_left map].
  - now rewrite app_nil_r.
  - destruct (sendToMainWindow_frame "go-to-tab" [Str (Some tab)] g)
      as (_ & Hw' & _).
    destruct (IH (sendToMainWindow "go-to-tab" [Str (Some tab)] g)) as [Hs Hm];
      [congruence|].
    cbn zeta in *. rewrite Hs, Hm, (sendToMainWindow_sent _ _ _ Hw), <- app_assoc.
    auto.
Qed.

End WindowFacts.

Section WindowExtras.
Import Main Window.
Local Open Scope list_scope.

(** X30. [goToTab] while there is no window creates the window and sends
    nothing yet; at the [dom-ready] of the window the tab is the first
    thing sent, before whatever [appLoaded] makes [startSync] or
    [chooseSyncPath] send, and the callback is forgotten; if the window is
    closed before, the tab is never sent. While the window exists,
    [goToTab] sends the tab at once. *)
Theorem goToTab_delivered (tab : string) (s : shell) :
  let message := Ipc "go-to-tab" [Str (Some tab)] in
  (mainWindow (main s) = false ->
   mainWindow (main (goToTab tab s)) = true
   /\ sent (main (goToTab tab s)) = sent (main s)
   /\ (exists rest,
         sent (main (dom_ready (goToTab tab s))) = sent (main s) ++ message :: rest)
   /\ once_dom_ready (dom_ready (goToTab tab s)) = []
   /\ sent (main (dom_ready (createWindow (closed (goToTab tab s)))))
      = sent (main (appLoaded (createWindow (closed (goToTab tab s))))))
  /\ (mainWindow (main s) = true ->
      sent (main (goToTab tab s)) = sent (main s) ++ [message]
      /\ once_dom_ready (goToTab tab s) = once_dom_ready s).
Proof.
  cbn zeta. split; intros Hw.
  - unfold goToTab, showWindow. rewrite Hw. unfold createWindow, closed.
    cbn [main once_dom_ready config_valid syncPath app].
    split; [reflexivity|]. split; [reflexivity|]. split; [|split].
    + unfold dom_ready. cbn [once_dom_ready main config_valid syncPath fold_left].
      set (g1 := sendToMainWindow "go-to-tab" [Str (Some tab)] _).
      assert (H1 : sent g1 = sent (main s) ++ [Ipc "go-to-tab" [Str (Some tab)]]).
      { unfold g1. now rewrite sendToMainWindow_sent. }
      unfold appLoaded. cbn [config_valid syncPath main with_main].
      destruct (negb (config_valid s)); [|destruct (Js.truthy (syncPath s))];
        unfold with_main; cbn [main].
      * exists []. exact H1.
      * destruct (startSync_extends false g1) as [rest ->].
        exists rest. now rewrite H1, <- app_assoc.
      * destruct (sendToMainWindow_extends "registration-done" [] g1) as [rest Hr].
        unfold chooseSyncPath. rewrite Hr. exists rest. now rewrite H1, <- app_assoc.
    + unfold dom_ready, appLoaded. cbn [config_valid syncPath once_dom_ready].
      destruct (negb (config_valid s)); [|destruct (Js.truthy (syncPath s))];
        reflexivity.
    + reflexivity.
  - unfold goToTab, showWindow. rewrite Hw. cbn [with_main main once_dom_ready].
    split; [now apply sendToMainWindow_sent|reflexivity].
Qed.

Lemma goToTab_delivered_witness :
  exists rest,
    sent (main (dom_ready (goToTab "help" hidden_start)))
    = Ipc "go-to-tab" [Str (Some "help")] :: rest.
Proof.
  destruct (goToTab_delivered "help" hidden_start) as [H _].
  destruct (H eq_refl) as (_ & _ & Hsent & _).
  exact Hsent.
Defined.

End WindowExtras.
